(** * Gitree: directory traversal, gitignore accumulation and whitelist filtering

    A shallow embedding of the traversal code of gitree:
    - [services/tree_service.py]            ([draw_tree], the renderer),
    - [services/tree_formatting_service.py] ([build_tree_data], the exporter),
    - [services/files_selection.py]         ([collect_candidate_files],
                                             [resolve_selected_files]),
    - [utilities/logger.py]                 ([Logger], [OutputBuffer]).

    Python values are modelled as follows.  An [int] is a [Z]; a [str] is a
    [string] whose characters are read as the code points U+0000..U+00FF; a
    [List[str]] is a [list string]; a [Set[str]] is a [list string] used
    through membership only; a [pathlib.Path] below the traversal root is the
    list of its components relative to the root (POSIX flavour).  Exceptions
    are explicit: every effectful function returns an [outcome].  The
    closure variables that the nested [rec] functions update through
    [nonlocal] are fields of an explicit state record. *)

From Stdlib Require Import String Ascii List ZArith Bool Lia DecimalString.
Import ListNotations.
Open Scope string_scope.
Open Scope Z_scope.

Set Implicit Arguments.
Set Warnings "-register-all".

(* ================================================================= *)
(** ** Python [str] methods used by the source *)

Module PyStr.

(** [s.startswith(p)] *)
Definition startswith (s p : string) : bool := String.prefix p s.

(** [str.isspace] on one character, for code points below 256. *)
Definition is_space (c : ascii) : bool :=
  let n := nat_of_ascii c in
  ((9 <=? n) && (n <=? 13) || (28 <=? n) && (n <=? 32)
   || (n =? 133) || (n =? 160))%nat.

(** Line boundaries of [str.splitlines] other than [\r\n]. *)
Definition is_linebreak (c : ascii) : bool :=
  let n := nat_of_ascii c in
  ((10 <=? n) && (n <=? 13) || (28 <=? n) && (n <=? 30) || (n =? 133))%nat.

Definition CR : ascii := ascii_of_nat 13.
Definition LF : ascii := ascii_of_nat 10.

(** [s.lstrip()] *)
Fixpoint lstrip (s : string) : string :=
  match s with
  | String c s' => if is_space c then lstrip s' else s
  | EmptyString => EmptyString
  end.

(** [s.rstrip()] *)
Fixpoint rstrip (s : string) : string :=
  match s with
  | String c s' =>
      match rstrip s' with
      | EmptyString => if is_space c then EmptyString else String c EmptyString
      | r => String c r
      end
  | EmptyString => EmptyString
  end.

(** [s.strip()] *)
Definition strip (s : string) : string := rstrip (lstrip s).

(** [s.lstrip(chars)] for a one-character [chars]: every leading
    occurrence is removed. *)
Fixpoint lstrip_char (ch : ascii) (s : string) : string :=
  match s with
  | String c s' => if Ascii.eqb c ch then lstrip_char ch s' else s
  | EmptyString => EmptyString
  end.

(** [s[1:]] *)
Definition tail (s : string) : string :=
  match s with
  | String _ s' => s'
  | EmptyString => EmptyString
  end.

(** [s.splitlines()]: [cur] holds the characters of the line being read,
    in reverse.  A pending line is flushed at the end only when it has
    characters, so a final line break opens no empty last line. *)
Fixpoint splitlines_aux (s : string) (cur : list ascii) : list string :=
  match s with
  | EmptyString =>
      match cur with
      | [] => []
      | _ => [string_of_list_ascii (rev cur)]
      end
  | String c s' =>
      if is_linebreak c then
        string_of_list_ascii (rev cur) ::
        match s' with
        | String c' s'' =>
            if Ascii.eqb c CR && Ascii.eqb c' LF
            then splitlines_aux s'' []
            else splitlines_aux s' []
        | EmptyString => []
        end
      else splitlines_aux s' (c :: cur)
  end.

Definition splitlines (s : string) : list string := splitlines_aux s [].

(** [sep.join(parts)] *)
Definition join (sep : string) (parts : list string) : string :=
  String.concat sep parts.

(** [str(n)] for an [int], as the f-strings of the source print it. *)
Definition of_int (n : Z) : string := NilZero.string_of_int (Z.to_int n).

End PyStr.

(* ================================================================= *)
(** ** Exceptions, results and the traversal monad *)

Inductive exn : Type :=
| AttributeError (type_name attr : string)
| TypeError (msg : string)
| PermissionError (file : string)
| OSError (msg : string)
| GitWildMatchPatternError (pattern : string).

(** The result of a call that may raise. *)
Inductive result (A : Type) : Type :=
| Ok (a : A)
| Raise (e : exn).
Arguments Raise {A} e.

(** The result of running a stateful computation: it returns a value and a
    new state, raises, or exhausts the recursion budget of the model
    ([Fuel]; Python's own recursion limit is not modelled). *)
Inductive outcome (S A : Type) : Type :=
| Ret (a : A) (s : S)
| Exc (e : exn)
| Fuel.
Arguments Ret {S A} a s.
Arguments Exc {S A} e.
Arguments Fuel {S A}.

Definition M (S A : Type) : Type := S -> outcome S A.

Definition ret {S A} (a : A) : M S A := fun s => Ret a s.

Definition bind {S A B} (m : M S A) (k : A -> M S B) : M S B :=
  fun s => match m s with
           | Ret a s' => k a s'
           | Exc e => Exc e
           | Fuel => Fuel
           end.

Definition get {S} : M S S := fun s => Ret s s.
Definition modify {S} (f : S -> S) : M S unit := fun s => Ret tt (f s).
Definition raise {S A} (e : exn) : M S A := fun _ => Exc e.
Definition out_of_fuel {S A} : M S A := fun _ => Fuel.

Definition lift {S A} (r : result A) : M S A :=
  match r with
  | Ok a => ret a
  | Raise e => raise e
  end.

Declare Scope monad_scope.
Delimit Scope monad_scope with monad.
Notation "x <- c ;; k" := (bind c (fun x => k))
  (at level 61, c at next level, right associativity) : monad_scope.
Notation "c ;; k" := (bind c (fun _ => k))
  (at level 61, right associativity) : monad_scope.
Open Scope monad_scope.

(** [if c: m] with no [else]. *)
Definition when {S} (c : bool) (m : M S unit) : M S unit :=
  if c then m else ret tt.

(** [for i, x in enumerate(l): body(i, x)], counting from [i]. *)
Fixpoint for_enumerate {S A} (l : list A) (i : Z) (body : Z -> A -> M S unit)
  : M S unit :=
  match l with
  | [] => ret tt
  | x :: l' => body i x ;; for_enumerate l' (i + 1) body
  end.

(* ================================================================= *)
(** ** Calls by keyword *)

(** ['name'] *)
Definition quoted (name : string) : string := "'" ++ name ++ "'".

(** The names of the missing arguments as Python lists them: ['a'],
    ['a' and 'b'], ['a', 'b', and 'c']. *)
Definition format_missing (names : list string) : string :=
  match rev (map quoted names) with
  | [] => ""
  | [a] => a
  | [b; a] => a ++ " and " ++ b
  | z :: front => PyStr.join ", " (rev front) ++ ", and " ++ z
  end.

(** Binding a call that passes [keywords] to a function [fname] whose
    parameters are all keyword-only and without a default: a keyword that
    names no parameter is refused, then the parameters left without a
    value are reported together; both are a [TypeError], raised before the
    body of the function runs. *)
Definition call_keywords (fname : string) (parameters keywords : list string)
  : result unit :=
  match filter (fun k => negb (existsb (String.eqb k) parameters)) keywords with
  | k :: _ =>
      Raise (TypeError (fname ++ "() got an unexpected keyword argument "
                        ++ quoted k))
  | [] =>
      match filter (fun p => negb (existsb (String.eqb p) keywords))
                   parameters with
      | [] => Ok tt
      | missing =>
          let n := Z.of_nat (length missing) in
          Raise (TypeError
                   (fname ++ "() missing " ++ PyStr.of_int n
                    ++ " required keyword-only argument"
                    ++ (if n =? 1 then "" else "s") ++ ": "
                    ++ format_missing missing))
      end
  end.

(* ================================================================= *)
(** ** Paths *)

(** A path below the traversal root: its components relative to the root,
    outermost first.  [[]] is the root itself. *)
Definition path : Type := list string.

(** [dirpath / name] *)
Definition child (dirpath : path) (name : string) : path :=
  (dirpath ++ [name])%list.

(** [entry.relative_to(root).as_posix()] *)
Definition as_posix (p : path) : string :=
  match p with
  | [] => "."
  | _ => PyStr.join "/" p
  end.

(** [entry.name], for an entry below the root. *)
Definition name_of (p : path) : string := last p "".

(** [str(entry.absolute())], where [root_parts] are the components of the
    absolute root. *)
Definition absolute_str (root_parts : list string) (p : path) : string :=
  "/" ++ PyStr.join "/" (root_parts ++ p)%list.

(* ================================================================= *)
(** ** Keyword arguments *)

(** The keyword arguments of [draw_tree], [build_tree_data] and
    [collect_candidate_files]; each function reads the ones it declares. *)
Record Params : Type := {
  depth : option Z;
  show_all : bool;
  extra_excludes : list string;
  respect_gitignore : bool;
  gitignore_depth : option Z;
  max_items : option Z;
  max_entries : option Z;
  no_limit : bool;
  exclude_depth : option Z;
  no_files : bool;
  emoji : bool;
  no_color : bool;
  whitelist : option (list string);
  include_patterns : list string;
  include_file_types : list string;
  files_first : bool;
  include_contents : bool;
  no_contents_for : list string
}.

(** What one call of [list_entries] is given besides the directory and the
    compiled pattern list.  [la_max_items], [la_max_entries], [la_no_limit]
    and [la_files_first] are [None] or [false] when the call site leaves
    them out. *)
Record ListArgs : Type := {
  la_gi_enabled : bool;
  la_gi_depth : option Z;
  la_show_all : bool;
  la_extra_excludes : list string;
  la_max_items : option Z;
  la_max_entries : option Z;
  la_no_limit : bool;
  la_exclude_depth : option Z;
  la_no_files : bool;
  la_include_patterns : list string;
  la_include_file_types : list string;
  la_files_first : bool
}.

(** The filesystem snapshot and the parts of the repository that the three
    traversals call but that lie outside the files embedded here:
    [GitIgnoreMatcher.within_depth], [list_entries], [pathspec]'s
    [PathSpec.from_lines] and [match_file], [matches_file_type],
    [colorize_text], [read_file_contents] and the glyph constants.
    [from_lines] compiles a list of patterns and raises on a pattern it
    refuses; the compiled object stands for the list it was made from,
    which is what [list_entries] and [match_file] are given here. *)
Record Env : Type := {
  root_parts : list string;
  is_dir : path -> bool;
  is_file : path -> bool;
  read_text : path -> result string;
  iterdir_any : path -> result bool;
  resolve : path -> string;
  read_file_contents : path -> string;
  within_depth : option Z -> path -> bool;
  from_lines : list string -> result unit;
  list_entries : path -> list string -> ListArgs -> list path * Z;
  match_file : list string -> string -> bool;
  matches_file_type : path -> list string -> bool;
  colorize_text : string -> bool -> bool -> string;
  BRANCH : string;
  LAST : string;
  SPACE : string;
  VERT : string;
  FILE_EMOJI : string;
  EMPTY_DIR_EMOJI : string;
  NORMAL_DIR_EMOJI : string
}.

(** [root.name] *)
Definition root_name (E : Env) : string := last (root_parts E) "".

(* ================================================================= *)
(** ** Reading a directory's [.gitignore]

    The same block opens [rec] in [draw_tree], [build_tree_data] and
    [collect_candidate_files]. *)

(** [prefix_path = "" if rel_dir == "." else rel_dir + "/"] *)
Definition prefix_path (dirpath : path) : string :=
  let rel_dir := as_posix dirpath in
  if (rel_dir =? ".")%string then "" else rel_dir ++ "/".

(** One turn of the loop over the lines of the file. *)
Definition add_gitignore_line (prefix_path : string) (patterns : list string)
  (line : string) : list string :=
  let line := PyStr.strip line in
  if (line =? "")%string || PyStr.startswith line "#" then patterns
  else
    let neg := PyStr.startswith line "!" in
    let pat := if neg then PyStr.tail line else line in
    let pat := prefix_path ++ PyStr.lstrip_char "/" pat in
    let rule := if neg then "!" ++ pat else pat in
    (patterns ++ [rule])%list.

Definition extend_patterns (E : Env) (P : Params) (dirpath : path)
  (patterns : list string) : result (list string) :=
  if respect_gitignore P && within_depth E (gitignore_depth P) dirpath then
    let gi_path := child dirpath ".gitignore" in
    if is_file E gi_path then
      match read_text E gi_path with
      | Ok text =>
          Ok (fold_left (add_gitignore_line (prefix_path dirpath))
                (PyStr.splitlines text) patterns)
      | Raise e => Raise e
      end
    else Ok patterns
  else Ok patterns.

(** [depth is not None and current_depth >= depth] *)
Definition depth_reached (P : Params) (current_depth : Z) : bool :=
  match depth P with
  | Some d => d <=? current_depth
  | None => false
  end.

(** [max_entries is not None and entries >= max_entries] *)
Definition cap_reached (P : Params) (entries : Z) : bool :=
  match max_entries P with
  | Some m => m <=? entries
  | None => false
  end.

(** The whitelist loop of [draw_tree.rec] and [build_tree_data.rec]: a file
    must be in the whitelist, a directory must be a string prefix of some
    whitelisted path, anything else is kept. *)
Definition whitelist_keeps (E : Env) (wl : list string) (entry : path) : bool :=
  let entry_path := absolute_str (root_parts E) entry in
  if is_file E entry then existsb (String.eqb entry_path) wl
  else if is_dir E entry then
    existsb (fun f => PyStr.startswith f entry_path) wl
  else true.

Definition whitelist_filter (E : Env) (P : Params) (entry_list : list path)
  : list path :=
  match whitelist P with
  | Some wl => filter (whitelist_keeps E wl) entry_list
  | None => entry_list
  end.

(* ================================================================= *)
(** ** [utilities/logger.py] *)

Module Logger.

(** An instance holds [self._messages]. *)
Record t : Type := { _messages : list string }.

(** The methods the class body defines. *)
Inductive method : Type :=
| m_init | m_log | m_flush | m_clear | m_len | m_get_logs.

Definition class_dict : list (string * method) :=
  [("__init__", m_init); ("log", m_log); ("flush", m_flush);
   ("clear", m_clear); ("__len__", m_len); ("get_logs", m_get_logs)].

(** Looking up an attribute that is called: the class defines neither
    [__getattr__] nor a base class, so a name that is not a method of the
    class raises [AttributeError] (the one instance attribute,
    [_messages], is a list and is not callable). *)
Definition lookup_method (name : string) : result method :=
  match find (fun kv => (fst kv =? name)%string) class_dict with
  | Some kv => Ok (snd kv)
  | None =>
      if (name =? "_messages")%string
      then Raise (TypeError "'list' object is not callable")
      else Raise (AttributeError "Logger" name)
  end.

(** Calling a method on one string argument; the value it returns is
    dropped, as [OutputBuffer.write] drops it. *)
Definition call1 (m : method) (self : t) (arg : string) : result t :=
  match m with
  | m_log => Ok {| _messages := (_messages self ++ [arg])%list |}
  | m_init | m_flush | m_clear | m_len | m_get_logs =>
      Raise (TypeError "takes 1 positional argument but 2 were given")
  end.

(** [Logger()] *)
Definition new : t := {| _messages := [] |}.

(** [log(self, message)] *)
Definition log (self : t) (message : string) : t :=
  {| _messages := (_messages self ++ [message])%list |}.

(** [flush(self)]: every stored message is printed to [sys.stderr], here
    the list of the lines printed so far, and then the store is cleared. *)
Definition flush (self : t) (stderr : list string) : t * list string :=
  ({| _messages := [] |},
   fold_left (fun printed message => (printed ++ [message])%list)
             (_messages self) stderr).

(** [clear(self)] *)
Definition clear (self : t) : t := {| _messages := [] |}.

(** [__len__(self)] *)
Definition len (self : t) : Z := Z.of_nat (length (_messages self)).

(** [get_logs(self)]: a copy of the stored messages. *)
Definition get_logs (self : t) : list string := _messages self.

(** The truth value of an instance, as [if logger:] takes it: the class
    defines [__len__] and no [__bool__]. *)
Definition truthy (self : t) : bool := negb (len self =? 0).

(** An attribute read on the class itself, as in [Logger.ERROR]: the
    class body defines its methods and nothing else. *)
Definition class_attr (name : string) : result method :=
  match find (fun kv => (fst kv =? name)%string) class_dict with
  | Some kv => Ok (snd kv)
  | None => Raise (AttributeError "type object 'Logger'" name)
  end.

End Logger.

Module OutputBuffer.

Record t : Type := { logger : Logger.t }.

(** [OutputBuffer()] *)
Definition new : t := {| logger := Logger.new |}.

(** [self.logger.store(message)] *)
Definition write (self : t) (message : string) : result t :=
  match Logger.lookup_method "store" with
  | Ok m =>
      match Logger.call1 m (logger self) message with
      | Ok l => Ok {| logger := l |}
      | Raise e => Raise e
      end
  | Raise e => Raise e
  end.

(** [flush(self)]: every message of [self.logger.get_logs()] is printed
    to [sys.stdout]; nothing is cleared. *)
Definition flush (self : t) (stdout : list string) : t * list string :=
  (self,
   fold_left (fun printed message => (printed ++ [message])%list)
             (Logger.get_logs (logger self)) stdout).

End OutputBuffer.

(** What [draw_tree] needs of its [output_buffer] argument. *)
Class OutputBufferLike (B : Type) : Type := {
  write : B -> string -> result B
}.

#[export] Instance OutputBuffer_like : OutputBufferLike OutputBuffer.t :=
  {| write := OutputBuffer.write |}.

(** A buffer that stores every message it is given, in order, which is
    what the docstring of [OutputBuffer.write] announces. *)
Definition LineBuffer : Type := list string.

#[export] Instance LineBuffer_like : OutputBufferLike LineBuffer :=
  {| write := fun b message => Ok (b ++ [message])%list |}.

(* ================================================================= *)
(** ** [draw_tree] *)

(** The closure variables of [draw_tree] that [rec] updates, the output
    buffer, the warnings printed to [sys.stderr], and the record of the
    calls of [list_entries] (directory and pattern list), in order. *)
Record DrawState (B : Type) : Type := {
  out : B;
  stderr : list string;
  entries : Z;
  truncation_prefix : option string;
  files_matched_include_patterns : bool;
  files_matched_include_types : bool;
  listed : list (path * list string)
}.

Definition list_args_draw (P : Params) : ListArgs :=
  {| la_gi_enabled := respect_gitignore P;
     la_gi_depth := gitignore_depth P;
     la_show_all := show_all P;
     la_extra_excludes := extra_excludes P;
     la_max_items := max_items P;
     la_max_entries := None;
     la_no_limit := no_limit P;
     la_exclude_depth := exclude_depth P;
     la_no_files := no_files P;
     la_include_patterns := include_patterns P;
     la_include_file_types := include_file_types P;
     la_files_first := files_first P |}.

Definition nonempty {A} (l : list A) : bool :=
  match l with [] => false | _ => true end.

Definition is_none {A} (o : option A) : bool :=
  match o with None => true | Some _ => false end.

Section Draw.

Context {B : Type} {OB : OutputBufferLike B}.
Variable E : Env.
Variable P : Params.

Let St : Type := DrawState B.

Definition set_out (b : B) (st : St) : St :=
  {| out := b; stderr := stderr st; entries := entries st;
     truncation_prefix := truncation_prefix st;
     files_matched_include_patterns := files_matched_include_patterns st;
     files_matched_include_types := files_matched_include_types st;
     listed := listed st |}.

Definition print_stderr (message : string) (st : St) : St :=
  {| out := out st; stderr := (stderr st ++ [message])%list;
     entries := entries st;
     truncation_prefix := truncation_prefix st;
     files_matched_include_patterns := files_matched_include_patterns st;
     files_matched_include_types := files_matched_include_types st;
     listed := listed st |}.

(** [entries += 1] *)
Definition incr_entries (st : St) : St :=
  {| out := out st; stderr := stderr st; entries := entries st + 1;
     truncation_prefix := truncation_prefix st;
     files_matched_include_patterns := files_matched_include_patterns st;
     files_matched_include_types := files_matched_include_types st;
     listed := listed st |}.

(** [if truncation_prefix is None: truncation_prefix = prefix] *)
Definition note_truncation (prefix : string) (st : St) : St :=
  {| out := out st; stderr := stderr st; entries := entries st;
     truncation_prefix :=
       match truncation_prefix st with
       | None => Some prefix
       | Some p => Some p
       end;
     files_matched_include_patterns := files_matched_include_patterns st;
     files_matched_include_types := files_matched_include_types st;
     listed := listed st |}.

Definition mark_include_patterns (st : St) : St :=
  {| out := out st; stderr := stderr st; entries := entries st;
     truncation_prefix := truncation_prefix st;
     files_matched_include_patterns := true;
     files_matched_include_types := files_matched_include_types st;
     listed := listed st |}.

Definition mark_include_types (st : St) : St :=
  {| out := out st; stderr := stderr st; entries := entries st;
     truncation_prefix := truncation_prefix st;
     files_matched_include_patterns := files_matched_include_patterns st;
     files_matched_include_types := true;
     listed := listed st |}.

Definition note_listed (dirpath : path) (patterns : list string) (st : St)
  : St :=
  {| out := out st; stderr := stderr st; entries := entries st;
     truncation_prefix := truncation_prefix st;
     files_matched_include_patterns := files_matched_include_patterns st;
     files_matched_include_types := files_matched_include_types st;
     listed := (listed st ++ [(dirpath, patterns)])%list |}.

(** [output_buffer.write(message)] *)
Definition emit (message : string) : M St unit :=
  fun st => match write (out st) message with
            | Ok b => Ret tt (set_out b st)
            | Raise e => Exc e
            end.

(** The emoji shown for an entry: a [PermissionError] of [iterdir] is
    caught, any other exception is not. *)
Definition emoji_of (entry : path) : result string :=
  if is_file E entry then Ok (FILE_EMOJI E)
  else if is_dir E entry then
    match iterdir_any E entry with
    | Ok true => Ok (NORMAL_DIR_EMOJI E)
    | Ok false => Ok (EMPTY_DIR_EMOJI E)
    | Raise (PermissionError _) => Ok (NORMAL_DIR_EMOJI E)
    | Raise e => Raise e
    end
  else Ok (NORMAL_DIR_EMOJI E).

(** The line written for an entry that is shown. *)
Definition entry_line (prefix connector : string) (entry : path)
  : result string :=
  let suffix := if is_dir E entry then "/" else "" in
  let is_hidden := PyStr.startswith (name_of entry) "." in
  let entry_name := name_of entry ++ suffix in
  let entry_name :=
    if no_color P then entry_name
    else colorize_text E entry_name (is_dir E entry) is_hidden in
  if negb (emoji P) then Ok (prefix ++ connector ++ entry_name)
  else
    match emoji_of entry with
    | Ok emoji_str =>
        Ok (prefix ++ connector ++ emoji_str ++ " " ++ name_of entry ++ suffix)
    | Raise e => Raise e
    end.

Definition more_items_line (prefix : string) (truncated : Z) : string :=
  prefix ++ LAST E ++ "... and " ++ PyStr.of_int truncated ++ " more items".

Definition more_entries_line (prefix : string) (remaining : Z) : string :=
  prefix ++ LAST E ++ "... and " ++ PyStr.of_int remaining ++ " more entries".

(** The two loops that look for a file matching the include options. *)
Definition any_matches_include_patterns (entry_list : list path) : bool :=
  existsb (fun entry => is_file E entry &&
                        match_file E (include_patterns P) (as_posix entry))
          entry_list.

Definition any_matches_include_types (entry_list : list path) : bool :=
  existsb (fun entry => is_file E entry &&
                        matches_file_type E entry (include_file_types P))
          entry_list.

(** [if include_patterns: include_spec_check = PathSpec.from_lines(...)],
    which [rec] runs after every call of [list_entries]. *)
Definition include_spec_check : result unit :=
  if nonempty (include_patterns P) then from_lines E (include_patterns P)
  else Ok tt.

Fixpoint draw_rec (fuel : nat) (dirpath : path) (prefix : string)
  (current_depth : Z) (patterns : list string) {struct fuel} : M St unit :=
  match fuel with
  | O => out_of_fuel
  | S fuel' =>
      if depth_reached P current_depth then ret tt
      else
        patterns <- lift (extend_patterns E P dirpath patterns) ;;
        lift (from_lines E patterns) ;;
        modify (note_listed dirpath patterns) ;;
        let '(entry_list, truncated) :=
          list_entries E dirpath patterns (list_args_draw P) in
        lift include_spec_check ;;
        when (nonempty (include_patterns P)
              && any_matches_include_patterns entry_list)
             (modify mark_include_patterns) ;;
        when (nonempty (include_file_types P)
              && any_matches_include_types entry_list)
             (modify mark_include_types) ;;
        let entry_list := whitelist_filter E P entry_list in
        for_enumerate entry_list 0 (fun i entry =>
          st <- get ;;
          if cap_reached P (entries st) then
            modify (note_truncation prefix) ;;
            modify incr_entries ;;
            when (is_dir E entry)
                 (draw_rec fuel' entry (prefix ++ SPACE E)
                           (current_depth + 1) patterns)
          else
            let is_last :=
              (i =? Z.of_nat (length entry_list) - 1) && (truncated =? 0) in
            let connector := if is_last then LAST E else BRANCH E in
            line <- lift (entry_line prefix connector entry) ;;
            emit line ;;
            modify incr_entries ;;
            when (is_dir E entry)
                 (draw_rec fuel' entry
                           (prefix ++ (if is_last then SPACE E else VERT E))
                           (current_depth + 1) patterns)) ;;
        when (0 <? truncated)
             (st <- get ;;
              if cap_reached P (entries st) then
                modify (note_truncation prefix) ;;
                modify incr_entries
              else
                emit (more_items_line prefix truncated) ;;
                modify incr_entries)
  end.

Definition draw_init (output_buffer : B) : St :=
  {| out := output_buffer; stderr := []; entries := 1;
     truncation_prefix := None;
     files_matched_include_patterns := false;
     files_matched_include_types := false;
     listed := [] |}.

Definition warn_patterns : string :=
  "Warning: No files found matching --include patterns: "
  ++ PyStr.join ", " (include_patterns P).

Definition warn_types : string :=
  "Warning: No files found matching --include-file-types: "
  ++ PyStr.join ", " (include_file_types P).

Definition draw_tree (fuel : nat) (output_buffer : B) : outcome St unit :=
  (emit (root_name E) ;;
   when (is_dir E []) (draw_rec fuel [] "" 0 []) ;;
   st <- get ;;
   when (nonempty (include_patterns P)
         && negb (files_matched_include_patterns st))
        (modify (print_stderr warn_patterns)) ;;
   when (nonempty (include_file_types P)
         && negb (files_matched_include_types st))
        (modify (print_stderr warn_types)) ;;
   match truncation_prefix st with
   | Some tp =>
       match max_entries P with
       | Some m => emit (more_entries_line tp (entries st - m))
       | None => raise (TypeError "unsupported operand type(s) for -")
       end
   | None => ret tt
   end) (draw_init output_buffer).

End Draw.

(* ================================================================= *)
(** ** [build_tree_data] *)

(** The dictionaries of the exported tree, by their ["type"] key. *)
Inductive tnode : Type :=
| FileNode (name path : string) (contents : option string)
| DirNode (name : string) (children : list tnode)
| TruncNode (name : string).

Record BuildState : Type := {
  b_entries : Z;
  stop_writing : bool;
  b_listed : list (path * list string)
}.

Definition list_args_build (P : Params) : ListArgs :=
  {| la_gi_enabled := respect_gitignore P;
     la_gi_depth := gitignore_depth P;
     la_show_all := show_all P;
     la_extra_excludes := extra_excludes P;
     la_max_items := max_items P;
     la_max_entries := max_entries P;
     la_no_limit := false;
     la_exclude_depth := exclude_depth P;
     la_no_files := no_files P;
     la_include_patterns := include_patterns P;
     la_include_file_types := include_file_types P;
     la_files_first := false |}.

Section Build.

Variable E : Env.
Variable P : Params.

Definition b_incr_entries (st : BuildState) : BuildState :=
  {| b_entries := b_entries st + 1; stop_writing := stop_writing st;
     b_listed := b_listed st |}.

Definition b_stop (st : BuildState) : BuildState :=
  {| b_entries := b_entries st; stop_writing := true;
     b_listed := b_listed st |}.

Definition b_note_listed (dirpath : path) (patterns : list string)
  (st : BuildState) : BuildState :=
  {| b_entries := b_entries st; stop_writing := stop_writing st;
     b_listed := (b_listed st ++ [(dirpath, patterns)])%list |}.

Definition file_node (entry : path) : tnode :=
  FileNode (name_of entry) (as_posix entry)
    (if include_contents P
        && negb (existsb (String.eqb (resolve E entry)) (no_contents_for P))
     then Some (read_file_contents E entry) else None).

(** The loop that builds [children]; [recurse entry] stands for
    [rec(entry, current_depth + 1, patterns)].  Returning before the end of
    the list is the [break] of the source.  The value [remaining] that the
    source computes when the cap is reached is never used. *)
Fixpoint build_children (recurse : path -> M BuildState (list tnode))
  (entry_list : list path) (children : list tnode)
  : M BuildState (list tnode) :=
  match entry_list with
  | [] => ret children
  | entry :: rest =>
      st <- get ;;
      if stop_writing st then ret children
      else if cap_reached P (b_entries st) then
        modify b_stop ;;
        ret (children ++ [TruncNode "... and more entries"])%list
      else if is_file E entry then
        modify b_incr_entries ;;
        build_children recurse rest (children ++ [file_node entry])%list
      else if is_dir E entry then
        modify b_incr_entries ;;
        kids <- recurse entry ;;
        build_children recurse rest
          (children ++ [DirNode (name_of entry) kids])%list
      else build_children recurse rest children
  end.

Definition more_items_name (truncated : Z) : string :=
  "... and " ++ PyStr.of_int truncated ++ " more items".

Fixpoint build_rec (fuel : nat) (dirpath : path) (current_depth : Z)
  (patterns : list string) {struct fuel} : M BuildState (list tnode) :=
  match fuel with
  | O => out_of_fuel
  | S fuel' =>
      if depth_reached P current_depth then ret []
      else
        st <- get ;;
        if stop_writing st then ret []
        else
          patterns <- lift (extend_patterns E P dirpath patterns) ;;
          lift (from_lines E patterns) ;;
          modify (b_note_listed dirpath patterns) ;;
          let '(entry_list, truncated) :=
            list_entries E dirpath patterns (list_args_build P) in
          let entry_list := whitelist_filter E P entry_list in
          children <-
            build_children
              (fun entry => build_rec fuel' entry (current_depth + 1) patterns)
              entry_list [] ;;
          st <- get ;;
          if (0 <? truncated) && negb (stop_writing st) then
            modify b_incr_entries ;;
            ret (children ++ [TruncNode (more_items_name truncated)])%list
          else ret children
  end.

Definition build_init : BuildState :=
  {| b_entries := 1; stop_writing := false; b_listed := [] |}.

Definition build_tree_data (fuel : nat) : outcome BuildState tnode :=
  (if is_dir E [] then
     children <- build_rec fuel [] 0 [] ;;
     ret (DirNode (root_name E) children)
   else ret (DirNode (root_name E) [])) build_init.

End Build.

(* ================================================================= *)
(** ** [collect_candidate_files] and [resolve_selected_files] *)

Record CollectState : Type := {
  rel_files : list string;
  c_listed : list (path * list string)
}.

Definition list_args_collect (P : Params) : ListArgs :=
  {| la_gi_enabled := respect_gitignore P;
     la_gi_depth := gitignore_depth P;
     la_show_all := show_all P;
     la_extra_excludes := extra_excludes P;
     la_max_items := None;
     la_max_entries := None;
     la_no_limit := false;
     la_exclude_depth := exclude_depth P;
     la_no_files := no_files P;
     la_include_patterns := include_patterns P;
     la_include_file_types := include_file_types P;
     la_files_first := false |}.

Section Collect.

Variable E : Env.
Variable P : Params.

(** [rel_files.append(s)] *)
Definition c_append (s : string) (st : CollectState) : CollectState :=
  {| rel_files := (rel_files st ++ [s])%list; c_listed := c_listed st |}.

Definition c_note_listed (dirpath : path) (patterns : list string)
  (st : CollectState) : CollectState :=
  {| rel_files := rel_files st;
     c_listed := (c_listed st ++ [(dirpath, patterns)])%list |}.

Fixpoint collect_rec (fuel : nat) (dirpath : path) (current_depth : Z)
  (patterns : list string) {struct fuel} : M CollectState unit :=
  match fuel with
  | O => out_of_fuel
  | S fuel' =>
      if depth_reached P current_depth then ret tt
      else
        patterns <- lift (extend_patterns E P dirpath patterns) ;;
        lift (from_lines E patterns) ;;
        modify (c_note_listed dirpath patterns) ;;
        let '(entries, _) :=
          list_entries E dirpath patterns (list_args_collect P) in
        for_enumerate entries 0 (fun _ entry =>
          if is_dir E entry then
            collect_rec fuel' entry (current_depth + 1) patterns
          else modify (c_append (as_posix entry)))
  end.

Definition collect_init : CollectState :=
  {| rel_files := []; c_listed := [] |}.

Definition collect_candidate_files (fuel : nat) : outcome CollectState unit :=
  (if is_dir E [] then collect_rec fuel [] 0 []
   else when (negb (no_files P)) (modify (c_append (root_name E))))
    collect_init.

(** The keyword-only parameters of [collect_candidate_files], none of
    which has a default. *)
Definition collect_candidate_files_parameters : list string :=
  ["root"; "output_buffer"; "logger"; "respect_gitignore"; "gitignore_depth";
   "show_all"; "extra_excludes"; "exclude_depth"; "no_files";
   "include_patterns"; "include_file_types"; "depth"].

(** The keywords that [resolve_selected_files] passes to it. *)
Definition resolve_selected_files_keywords : list string :=
  ["root"; "respect_gitignore"; "gitignore_depth"; "show_all";
   "extra_excludes"; "exclude_depth"; "no_files"; "include_patterns";
   "include_file_types"; "depth"].

(** [resolve_selected_files]; [ask choices] is the answer of the
    [questionary] checkbox ([None] when the prompt is cancelled).  The call
    of [collect_candidate_files] is bound to its parameters before its body
    runs. *)
Definition resolve_selected_files (fuel : nat) (interactive : bool)
  (ask : list string -> option (list string))
  : outcome CollectState (list string) :=
  match call_keywords "collect_candidate_files"
          collect_candidate_files_parameters
          resolve_selected_files_keywords with
  | Raise e => Exc e
  | Ok _ =>
      match collect_candidate_files fuel with
      | Ret _ st =>
          let candidates := rel_files st in
          if negb (nonempty candidates) then Ret [] st
          else if negb interactive then Ret candidates st
          else
            match ask candidates with
            | None => Ret [] st
            | Some selected => Ret selected st
            end
      | Exc e => Exc e
      | Fuel => Fuel
      end
  end.

End Collect.

(* ================================================================= *)
(** ** A concrete filesystem, and the parts taken from the specification

    [pathspec], [list_entries], [GitIgnoreMatcher] and [matches_file_type]
    are not among the embedded files.  The definitions of this part follow
    sections 4.1 to 4.3 of the specification; they instantiate [Env] for
    the runs on concrete trees.  The general theorems hold for every
    [Env]. *)

(** A snapshot of the tree below the root.  A file carries what
    [read_text] returns for it.  [FsLink] is a dangling symbolic link, for
    which neither [is_file()] nor [is_dir()] holds. *)
Inductive fsnode : Type :=
| FsFile (name : string) (text : result string)
| FsDir (name : string) (children : list fsnode)
| FsLink (name : string).

Definition fs_name (n : fsnode) : string :=
  match n with
  | FsFile name _ => name
  | FsDir name _ => name
  | FsLink name => name
  end.

Fixpoint fs_lookup (n : fsnode) (p : path) {struct p} : option fsnode :=
  match p with
  | [] => Some n
  | c :: p' =>
      match n with
      | FsDir _ children =>
          match find (fun k => (fs_name k =? c)%string) children with
          | Some k => fs_lookup k p'
          | None => None
          end
      | FsFile _ _ | FsLink _ => None
      end
  end.

Definition fs_is_dir (root : fsnode) (p : path) : bool :=
  match fs_lookup root p with
  | Some (FsDir _ _) => true
  | _ => false
  end.

Definition fs_is_file (root : fsnode) (p : path) : bool :=
  match fs_lookup root p with
  | Some (FsFile _ _) => true
  | _ => false
  end.

Definition fs_read_text (root : fsnode) (p : path) : result string :=
  match fs_lookup root p with
  | Some (FsFile _ text) => text
  | Some (FsDir _ _) => Raise (OSError "Is a directory")
  | Some (FsLink _) | None => Raise (OSError "No such file or directory")
  end.

Definition fs_iterdir_any (root : fsnode) (p : path) : result bool :=
  match fs_lookup root p with
  | Some (FsDir _ children) => Ok (nonempty children)
  | Some (FsFile _ _) => Raise (OSError "Not a directory")
  | Some (FsLink _) | None => Raise (OSError "No such file or directory")
  end.

Module PatternSet.

Definition slash : ascii := "/"%char.

(** Modelled from the spec: the glob language of a rule, which section 4.1
    leaves to "gitignore-style glob rules".  [*] stands for any run of
    characters other than [/], [?] for one such character, any other
    character for itself. *)
Fixpoint glob_chars (pat : list ascii) (s : list ascii) {struct pat} : bool :=
  match pat with
  | [] => match s with [] => true | _ => false end
  | a :: pat' =>
      if Ascii.eqb a "*"%char then
        (fix star (s : list ascii) : bool :=
           glob_chars pat' s
           || match s with
              | [] => false
              | c :: s' => negb (Ascii.eqb c slash) && star s'
              end) s
      else
        match s with
        | [] => false
        | c :: s' =>
            (if Ascii.eqb a "?"%char then negb (Ascii.eqb c slash)
             else Ascii.eqb a c)
            && glob_chars pat' s'
        end
  end.

(** The part of a root-relative POSIX path after its last [/]. *)
Fixpoint basename_chars (s : list ascii) (cur : list ascii) : list ascii :=
  match s with
  | [] => rev cur
  | c :: s' =>
      if Ascii.eqb c slash then basename_chars s' []
      else basename_chars s' (c :: cur)
  end.

(** Modelled from the spec: section 4.1, "Directory-only glob suffixes
    (trailing [/]) must only match directory paths"; a glob that holds a
    [/] before its end is matched against the whole root-relative path, any
    other against the entry's name. *)
Definition glob (pat : string) (rel : string) (is_directory : bool) : bool :=
  let p := list_ascii_of_string pat in
  let dir_only := match rev p with c :: _ => Ascii.eqb c slash | [] => false end in
  let body := if dir_only then removelast p else p in
  let r := list_ascii_of_string rel in
  if dir_only && negb is_directory then false
  else if existsb (Ascii.eqb slash) body then glob_chars body r
  else glob_chars body (basename_chars r []).

(** A rule as the traversals write it: the glob text, with [!] in front
    when it is negated. *)
Definition negated (rule : string) : bool := PyStr.startswith rule "!".

Definition glob_text (rule : string) : string :=
  if negated rule then PyStr.tail rule else rule.

(** Modelled on [pathspec], which is not among the embedded files:
    [GitWildMatchPattern] refuses, with a [GitWildMatchPatternError], a
    pattern that is empty once the white space around it and a leading [!]
    are taken away.  It also refuses a glob that ends in the middle of an
    escape, which is not modelled here.  (Section 4.1 of the specification
    asks that no rule may raise; the library does.) *)
Definition invalid (pattern : string) : bool :=
  (PyStr.strip pattern =? "!")%string.

Definition from_lines (lines : list string) : result unit :=
  match find invalid lines with
  | Some pattern => Raise (GitWildMatchPatternError pattern)
  | None => Ok tt
  end.

Section Matcher.

(** Any decision procedure for one glob against one path. *)
Variable glob_matches : string -> string -> bool -> bool.

Definition rule_applies (rel : string) (is_directory : bool) (rule : string)
  : bool :=
  glob_matches (glob_text rule) rel is_directory.

(** Modelled from the spec: section 4.1, "evaluate rules left-to-right;
    result starts false (not excluded); each matching rule sets result to
    !negated". *)
Definition step (rel : string) (is_directory : bool) (excluded : bool)
  (rule : string) : bool :=
  if rule_applies rel is_directory rule then negb (negated rule)
  else excluded.

Definition matches (rules : list string) (rel : string) (is_directory : bool)
  : bool :=
  fold_left (step rel is_directory) rules false.

End Matcher.

End PatternSet.

Module EntryFilter.

(** Lower case, for the letters [A] to [Z]. *)
Definition lower_char (c : ascii) : ascii :=
  let n := nat_of_ascii c in
  if ((65 <=? n) && (n <=? 90))%nat then ascii_of_nat (n + 32) else c.

Fixpoint lower (s : string) : string :=
  match s with
  | EmptyString => EmptyString
  | String c s' => String (lower_char c) (lower s')
  end.

Definition name_leb (a b : path) : bool :=
  String.leb (lower (name_of a)) (lower (name_of b)).

Fixpoint insert_sorted (x : path) (l : list path) : list path :=
  match l with
  | [] => [x]
  | y :: l' => if name_leb x y then x :: l else y :: insert_sorted x l'
  end.

Definition sort_by_name (l : list path) : list path :=
  fold_right insert_sorted [] l.

(** [s.endswith(suffix)] *)
Definition endswith (s suffix : string) : bool :=
  PyStr.startswith (string_of_list_ascii (rev (list_ascii_of_string s)))
                   (string_of_list_ascii (rev (list_ascii_of_string suffix))).

(** Modelled from the spec: [includeFileTypes] is a list of file types
    (extensions); a file matches when its name ends with a dot and one of
    them. *)
Definition matches_file_type (entry : path) (types : list string) : bool :=
  existsb (fun t => endswith (name_of entry) ("." ++ PyStr.lstrip_char "."%char t))
          types.

(** Modelled from the spec: section 4.2, no [.gitignore] is read in a
    directory whose depth exceeds [gitignoreDepth], when that is set. *)
Definition within_depth (gitignore_depth : option Z) (dirpath : path) : bool :=
  match gitignore_depth with
  | None => true
  | Some g => Z.of_nat (length dirpath) <=? g
  end.

Section Filter.

Variable root : fsnode.

Definition included (a : ListArgs) (entry : path) : bool :=
  PatternSet.matches PatternSet.glob (la_include_patterns a) (as_posix entry) false
  || matches_file_type entry (la_include_file_types a).

(** Modelled from the spec: the decision order of section 4.3, steps 1 to
    5, for one child of [dirpath]. *)
Definition passes (dirpath : path) (patterns : list string) (a : ListArgs)
  (entry : path) : bool :=
  let is_directory := fs_is_dir root entry in
  let hidden := negb (la_show_all a) && PyStr.startswith (name_of entry) "." in
  let ignored :=
    PatternSet.matches PatternSet.glob patterns (as_posix entry) is_directory in
  let exclude_active :=
    match la_exclude_depth a with
    | None => true
    | Some d => Z.of_nat (length dirpath) <=? d
    end in
  let excluded :=
    exclude_active
    && existsb (fun g => PatternSet.glob g (name_of entry) is_directory
                         || PatternSet.glob g (as_posix entry) is_directory)
               (la_extra_excludes a) in
  let has_include :=
    nonempty (la_include_patterns a) || nonempty (la_include_file_types a) in
  if is_directory then negb hidden && negb ignored && negb excluded
  else
    negb (la_no_files a)
    && (if has_include then included a entry
        else negb hidden && negb ignored && negb excluded).

(** Modelled from the spec: section 4.3, [EntryFilter]: the children that
    pass, directories and files each sorted by name without regard to
    case, directories first unless [filesFirst], cut after
    [maxItemsPerDirectory] entries with the number cut reported.  A
    directory that cannot be read has no children. *)
Definition list_entries (dirpath : path) (patterns : list string)
  (a : ListArgs) : list path * Z :=
  match fs_lookup root dirpath with
  | Some (FsDir _ children) =>
      let raw := map (fun k => child dirpath (fs_name k)) children in
      let kept := filter (passes dirpath patterns a) raw in
      let dirs := sort_by_name (filter (fs_is_dir root) kept) in
      let files := sort_by_name (filter (fun e => negb (fs_is_dir root e)) kept) in
      let ordered :=
        if la_files_first a then (files ++ dirs)%list else (dirs ++ files)%list in
      match la_max_items a with
      | Some n =>
          if negb (la_no_limit a) && (n <? Z.of_nat (length ordered)) then
            (firstn (Z.to_nat n) ordered, Z.of_nat (length ordered) - Z.max n 0)
          else (ordered, 0)
      | None => (ordered, 0)
      end
  | _ => ([], 0)
  end.

End Filter.

End EntryFilter.

(** The environment of a run on the snapshot [root], found at the absolute
    path [parts], with plain glyphs. *)
Definition env_of (parts : list string) (root : fsnode) : Env :=
  {| root_parts := parts;
     is_dir := fs_is_dir root;
     is_file := fs_is_file root;
     read_text := fs_read_text root;
     iterdir_any := fs_iterdir_any root;
     resolve := absolute_str parts;
     read_file_contents := fun p =>
       match fs_read_text root p with Ok t => t | Raise _ => "" end;
     within_depth := EntryFilter.within_depth;
     from_lines := PatternSet.from_lines;
     list_entries := EntryFilter.list_entries root;
     match_file := fun pats rel => PatternSet.matches PatternSet.glob pats rel false;
     matches_file_type := EntryFilter.matches_file_type;
     colorize_text := fun text _ _ => text;
     BRANCH := "|-- ";
     LAST := "`-- ";
     SPACE := "    ";
     VERT := "|   ";
     FILE_EMOJI := "[f]";
     EMPTY_DIR_EMOJI := "[ ]";
     NORMAL_DIR_EMOJI := "[d]" |}.

(** The defaults of the command line: nothing hidden shown, [.gitignore]
    respected, no cap. *)
Definition default_params : Params :=
  {| depth := None; show_all := false; extra_excludes := [];
     respect_gitignore := true; gitignore_depth := None;
     max_items := None; max_entries := None; no_limit := false;
     exclude_depth := None; no_files := false; emoji := false;
     no_color := true; whitelist := None; include_patterns := [];
     include_file_types := []; files_first := false;
     include_contents := false; no_contents_for := [] |}.

Definition with_depth (d : option Z) (P : Params) : Params :=
  {| depth := d; show_all := show_all P; extra_excludes := extra_excludes P;
     respect_gitignore := respect_gitignore P;
     gitignore_depth := gitignore_depth P; max_items := max_items P;
     max_entries := max_entries P; no_limit := no_limit P;
     exclude_depth := exclude_depth P; no_files := no_files P;
     emoji := emoji P; no_color := no_color P; whitelist := whitelist P;
     include_patterns := include_patterns P;
     include_file_types := include_file_types P;
     files_first := files_first P; include_contents := include_contents P;
     no_contents_for := no_contents_for P |}.

Definition with_max_items (m : option Z) (P : Params) : Params :=
  {| depth := depth P; show_all := show_all P;
     extra_excludes := extra_excludes P;
     respect_gitignore := respect_gitignore P;
     gitignore_depth := gitignore_depth P; max_items := m;
     max_entries := max_entries P; no_limit := no_limit P;
     exclude_depth := exclude_depth P; no_files := no_files P;
     emoji := emoji P; no_color := no_color P; whitelist := whitelist P;
     include_patterns := include_patterns P;
     include_file_types := include_file_types P;
     files_first := files_first P; include_contents := include_contents P;
     no_contents_for := no_contents_for P |}.

Definition with_max_entries (m : option Z) (P : Params) : Params :=
  {| depth := depth P; show_all := show_all P;
     extra_excludes := extra_excludes P;
     respect_gitignore := respect_gitignore P;
     gitignore_depth := gitignore_depth P; max_items := max_items P;
     max_entries := m; no_limit := no_limit P;
     exclude_depth := exclude_depth P; no_files := no_files P;
     emoji := emoji P; no_color := no_color P; whitelist := whitelist P;
     include_patterns := include_patterns P;
     include_file_types := include_file_types P;
     files_first := files_first P; include_contents := include_contents P;
     no_contents_for := no_contents_for P |}.

Definition with_whitelist (w : option (list string)) (P : Params) : Params :=
  {| depth := depth P; show_all := show_all P;
     extra_excludes := extra_excludes P;
     respect_gitignore := respect_gitignore P;
     gitignore_depth := gitignore_depth P; max_items := max_items P;
     max_entries := max_entries P; no_limit := no_limit P;
     exclude_depth := exclude_depth P; no_files := no_files P;
     emoji := emoji P; no_color := no_color P; whitelist := w;
     include_patterns := include_patterns P;
     include_file_types := include_file_types P;
     files_first := files_first P; include_contents := include_contents P;
     no_contents_for := no_contents_for P |}.

(** A line feed, to write the text of a file. *)
Definition nl : string := String PyStr.LF EmptyString.

(** The tree of the scenarios of the specification: the root [/p] holds
    [src/main.py], [src/.gitignore] (with the line [*.pyc]),
    [src/main.pyc] and [.hidden]. *)
Definition scenario_tree : fsnode :=
  FsDir "p"
    [ FsDir "src"
        [ FsFile "main.py" (Ok ("print(1)" ++ nl));
          FsFile ".gitignore" (Ok ("*.pyc" ++ nl));
          FsFile "main.pyc" (Ok "") ];
      FsFile ".hidden" (Ok "") ].

Definition scenario_env : Env := env_of ["p"] scenario_tree.

(** The lines a run of [draw_tree] leaves in a [LineBuffer], when it
    returns. *)
Definition lines_of (o : outcome (DrawState LineBuffer) unit)
  : option (list string) :=
  match o with
  | Ret _ st => Some (out st)
  | _ => None
  end.

(* ================================================================= *)
(** ** The rules of a [.gitignore], in the words of the specification *)

(** "prefix with [currentDir]'s root-relative path (empty prefix at
    root)". *)
Definition spec_dir_prefix (dirpath : path) : string :=
  match dirpath with
  | [] => ""
  | _ => PyStr.join "/" dirpath ++ "/"
  end.

(** "skip blank lines and lines starting with [#]; strip a leading [!] to
    capture negation; strip a leading [/] from the remainder; prefix ...;
    re-attach the negation marker".  The line is taken without the white
    space around it, and [lstrip_char] removes every leading [/]. *)
Definition spec_line_rule (dir_prefix line : string) : option string :=
  match PyStr.strip line with
  | EmptyString => None
  | String c rest =>
      if Ascii.eqb c "#"%char then None
      else if Ascii.eqb c "!"%char then
        Some ("!" ++ dir_prefix ++ PyStr.lstrip_char "/"%char rest)
      else Some (dir_prefix ++ PyStr.lstrip_char "/"%char (String c rest))
  end.

Definition spec_rules (dir_prefix : string) (lines : list string)
  : list string :=
  flat_map (fun line => match spec_line_rule dir_prefix line with
                        | Some rule => [rule]
                        | None => []
                        end) lines.

(* ================================================================= *)
(** ** The pattern list of a directory, by its path alone *)

(** The list in force in [above/below] when the list in force on entering
    [above] is [patterns]: each directory on the way down extends it with
    its own file. *)
Fixpoint rules_down (E : Env) (P : Params) (above : path)
  (below : list string) (patterns : list string) : result (list string) :=
  match extend_patterns E P above patterns with
  | Raise e => Raise e
  | Ok extended =>
      match below with
      | [] => Ok extended
      | c :: rest => rules_down E P (child above c) rest extended
      end
  end.

Definition path_rules (E : Env) (P : Params) (dirpath : path)
  : result (list string) :=
  rules_down E P [] dirpath [].

(** The rules that the file of [dirpath] alone contributes. *)
Definition local_rules (E : Env) (P : Params) (dirpath : path)
  : result (list string) :=
  extend_patterns E P dirpath [].

(** [list_entries] returns children of the directory it is given. *)
Definition lists_children (E : Env) : Prop :=
  forall dirpath patterns a entry,
    In entry (fst (list_entries E dirpath patterns a)) ->
    exists name, entry = child dirpath name.

(** A file name: not empty, and not starting with the separator. *)
Definition valid_name (name : string) : bool :=
  negb (name =? "")%string && negb (PyStr.startswith name "/").

Definition lists_named_children (E : Env) : Prop :=
  forall dirpath patterns a entry,
    In entry (fst (list_entries E dirpath patterns a)) ->
    exists name, entry = child dirpath name /\ valid_name name = true.

(* ================================================================= *)
(** ** Partial-correctness triples for the traversal monad *)

Definition hoare {S A} (Pre : S -> Prop) (m : M S A) (Post : A -> S -> Prop)
  : Prop :=
  forall s, Pre s ->
    match m s with
    | Ret a s' => Post a s'
    | Exc _ => True
    | Fuel => True
    end.

(* ================================================================= *)
(** ** Concrete trees *)

(** Two directories with one file each. *)
Definition two_dirs_tree : fsnode :=
  FsDir "p"
    [ FsDir "a" [ FsFile "x" (Ok "") ];
      FsDir "b" [ FsFile "y" (Ok "") ] ].

Definition two_dirs_env : Env := env_of ["p"] two_dirs_tree.

(** A directory [d] with two files, next to a file [e]. *)
Definition capped_dir_tree : fsnode :=
  FsDir "p"
    [ FsDir "d" [ FsFile "x" (Ok ""); FsFile "y" (Ok "") ];
      FsFile "e" (Ok "") ].

Definition capped_dir_env : Env := env_of ["p"] capped_dir_tree.

(** [/p/src] and [/p/src2], whose name starts with the name of the
    first. *)
Definition prefix_dirs_tree : fsnode :=
  FsDir "p"
    [ FsDir "src" [ FsFile "x.py" (Ok "") ];
      FsDir "src2" [ FsFile "a.py" (Ok "") ] ].

Definition prefix_dirs_env : Env := env_of ["p"] prefix_dirs_tree.

(** A root whose [.gitignore] exists and cannot be read. *)
Definition unreadable_tree : fsnode :=
  FsDir "p"
    [ FsFile ".gitignore" (Raise (PermissionError "/p/.gitignore"));
      FsFile "a.py" (Ok "") ].

Definition unreadable_env : Env := env_of ["p"] unreadable_tree.

(** A root with one file and one dangling symbolic link. *)
Definition dangling_tree : fsnode :=
  FsDir "p" [ FsFile "a.py" (Ok ""); FsLink "link" ].

Definition dangling_env : Env := env_of ["p"] dangling_tree.

(** A tree with a [.gitignore] at the root and in two sibling
    directories. *)
Definition siblings_tree : fsnode :=
  FsDir "p"
    [ FsFile ".gitignore" (Ok ("*.log" ++ nl ++ "!keep.log" ++ nl));
      FsDir "a" [ FsFile ".gitignore" (Ok ("/build" ++ nl));
                  FsFile "x" (Ok "") ];
      FsDir "b" [ FsFile ".gitignore" (Ok ("# notes" ++ nl ++ "!tmp" ++ nl));
                  FsDir "c" [ FsFile "y" (Ok "") ] ] ].

Definition siblings_env : Env := env_of ["p"] siblings_tree.

(* ================================================================= *)
(** ** Predicates on the record of a traversal *)

(** A recorded call of [list_entries] carries the pattern list of its
    directory. *)
Definition listed_by_path (E : Env) (P : Params)
  (call : path * list string) : Prop :=
  path_rules E P (fst call) = Ok (snd call).

(** The list handed to [rec] for [dirpath] is the one its path gives:
    extending it with the file of [dirpath] gives [path_rules]. *)
Definition handed_by_path (E : Env) (P : Params) (dirpath : path)
  (patterns : list string) : Prop :=
  forall extended,
    extend_patterns E P dirpath patterns = Ok extended ->
    path_rules E P dirpath = Ok extended.

(* ================================================================= *)
(** ** A rule read back against its line *)

(** The lines of a [.gitignore] that the loop does not skip, without the
    white space around them. *)
Definition rule_lines (text : string) : list string :=
  filter (fun line => negb ((line =? "")%string || PyStr.startswith line "#"))
         (map PyStr.strip (PyStr.splitlines text)).

(** [rule] says what [line] says, in the directory of prefix [dir_prefix]:
    it negates exactly when the line does, and its glob is the prefix
    followed by the glob of the line without its leading [/]. *)
Definition reads_as (dir_prefix line rule : string) : Prop :=
  PatternSet.negated rule = PyStr.startswith line "!"
  /\ PatternSet.glob_text rule
     = dir_prefix
       ++ PyStr.lstrip_char "/"
            (if PyStr.startswith line "!" then PyStr.tail line else line).

(* ================================================================= *)
(** ** Predicates on the candidates of the selection *)

(** A candidate that comes from one of the calls of [list_entries] in
    [listing]: the root-relative path of an entry that the call returned
    and that is no directory. *)
Definition from_listing (E : Env) (P : Params)
  (listing : list (path * list string)) (f : string) : Prop :=
  exists dirpath patterns entry,
    In (dirpath, patterns) listing
    /\ In entry (fst (list_entries E dirpath patterns (list_args_collect P)))
    /\ is_dir E entry = false
    /\ f = as_posix entry.

(** From [s] to [s'], calls were recorded and candidates appended, and the
    candidates appended are those that come from the calls recorded. *)
Definition gathered (E : Env) (P : Params) (s s' : CollectState) : Prop :=
  exists files calls,
    rel_files s' = (rel_files s ++ files)%list
    /\ c_listed s' = (c_listed s ++ calls)%list
    /\ forall f, In f files <-> from_listing E P calls f.

(* ================================================================= *)
(** ** The entry count of [draw_tree] and the lines written *)

(** The state of a run of [draw_tree] on a [LineBuffer] that held [before]
    lines: until a truncation is noted, every counted entry has its line
    and the count is within the cap; once it is noted, there is a cap, the
    lines written are the cap's worth (one when the cap is below one) and
    the count has passed it. *)
Definition counted (P : Params) (before : Z) (st : DrawState LineBuffer)
  : Prop :=
  1 <= entries st
  /\ match truncation_prefix st with
     | None =>
         Z.of_nat (length (out st)) = before + entries st
         /\ (forall m, max_entries P = Some m -> entries st <= Z.max m 1)
     | Some _ =>
         exists m, max_entries P = Some m
                   /\ Z.of_nat (length (out st)) = before + Z.max m 1
                   /\ Z.max m 1 < entries st
     end.

(* ================================================================= *)
(** ** Counting the nodes of an exported tree *)

(** The sum of [weight] over a node and everything below it. *)
Fixpoint count_nodes (weight : tnode -> Z) (n : tnode) {struct n} : Z :=
  weight n
  + match n with
    | DirNode _ children =>
        (fix count_all (l : list tnode) : Z :=
           match l with
           | [] => 0
           | c :: rest => count_nodes weight c + count_all rest
           end) children
    | FileNode _ _ _ | TruncNode _ => 0
    end.

Definition count_all (weight : tnode -> Z) (l : list tnode) : Z :=
  fold_right (fun c acc => count_nodes weight c + acc) 0 l.

(** A file or a directory. *)
Definition file_or_directory (n : tnode) : Z :=
  match n with
  | FileNode _ _ _ | DirNode _ _ => 1
  | TruncNode _ => 0
  end.

(** The marker that [build_tree_data] leaves where the cap stops it. *)
Definition cut_marker (n : tnode) : Z :=
  match n with
  | TruncNode name => if (name =? "... and more entries")%string then 1 else 0
  | FileNode _ _ _ | DirNode _ _ => 0
  end.

(** Every node but that marker. *)
Definition counted_node (n : tnode) : Z := 1 - cut_marker n.

(** What a call of [rec] in [build_tree_data] that starts in [s], returns
    [kids] and ends in [s'] has done to the entry count and the stop
    flag. *)
Definition accounted (P : Params) (s : BuildState) (kids : list tnode)
  (s' : BuildState) : Prop :=
  b_entries s' = b_entries s + count_all counted_node kids
  /\ (stop_writing s = true -> kids = [] /\ s' = s)
  /\ (stop_writing s = false ->
      count_all cut_marker kids = if stop_writing s' then 1 else 0)
  /\ (forall m, max_entries P = Some m ->
                count_all file_or_directory kids
                <= Z.max 0 (m - b_entries s))
  /\ (max_entries P = None -> stop_writing s' = stop_writing s).

(* ================================================================= *)
(** ** [format_text_tree] and [format_markdown_tree] *)

(** [node["name"]], [node["type"]] and [node.get("children", [])] for the
    dictionaries that [build_tree_data] makes: only a directory has the
    key ["children"]. *)
Definition node_name (n : tnode) : string :=
  match n with
  | FileNode name _ _ => name
  | DirNode name _ => name
  | TruncNode name => name
  end.

Definition node_type (n : tnode) : string :=
  match n with
  | FileNode _ _ _ => "file"
  | DirNode _ _ => "directory"
  | TruncNode _ => "truncated"
  end.

Definition node_children (n : tnode) : list tnode :=
  match n with
  | DirNode _ children => children
  | FileNode _ _ _ | TruncNode _ => []
  end.

(** [s * n] *)
Fixpoint str_mul (s : string) (n : nat) : string :=
  match n with
  | O => ""
  | S n' => s ++ str_mul s n'
  end.

(** The two lists that the closure [rec] of a formatter appends to. *)
Record FormatState (Item : Type) : Type := {
  lines : list string;
  file_contents_list : list Item
}.

Section Formatter.

Variable E : Env.

(** [rec] has the same text in [format_text_tree] and in
    [format_markdown_tree], but for the dictionary it stores for a file
    with contents: [item_of path name contents]. *)
Variable Item : Type.
Variable item_of : string -> string -> string -> Item.

Variable emoji : bool.
Variable include_contents : bool.

Definition append_line (line : string) (st : FormatState Item)
  : FormatState Item :=
  {| lines := (lines st ++ [line])%list;
     file_contents_list := file_contents_list st |}.

Definition append_contents (item : Item) (st : FormatState Item)
  : FormatState Item :=
  {| lines := lines st;
     file_contents_list := (file_contents_list st ++ [item])%list |}.

(** The line of a child that is no truncation marker.  The flag is
    inverted: with [emoji] the line carries no icon. *)
Definition child_line (prefix connector : string) (child : tnode) : string :=
  if emoji then
    let suffix := if (node_type child =? "directory")%string then "/" else "" in
    prefix ++ connector ++ node_name child ++ suffix
  else
    let emoji_str :=
      if (node_type child =? "file")%string then FILE_EMOJI E
      else NORMAL_DIR_EMOJI E in
    prefix ++ connector ++ emoji_str ++ " " ++ node_name child.

(** [if include_contents and child["type"] == "file" and "contents" in
    child: file_contents_list.append(...)] *)
Definition collect_contents (child : tnode) (st : FormatState Item)
  : FormatState Item :=
  match child with
  | FileNode name p (Some contents) =>
      if include_contents then append_contents (item_of p name contents) st
      else st
  | _ => st
  end.

(** [rec(node, prefix)]: the inner function is the loop over
    [enumerate(children)]; a truncation marker ends its turn at once
    ([continue]). *)
Fixpoint format_rec (node : tnode) (prefix : string) (st : FormatState Item)
  {struct node} : FormatState Item :=
  match node with
  | DirNode _ children =>
      (fix loop (l : list tnode) (i : Z) (st : FormatState Item) {struct l}
         : FormatState Item :=
         match l with
         | [] => st
         | child :: rest =>
             let is_last := i =? Z.of_nat (length children) - 1 in
             let connector := if is_last then LAST E else BRANCH E in
             loop rest (i + 1)
               (if (node_type child =? "truncated")%string then
                  append_line (prefix ++ connector ++ node_name child) st
                else
                  let st := append_line (child_line prefix connector child) st in
                  let st := collect_contents child st in
                  if nonempty (node_children child) then
                    format_rec child
                      (prefix ++ (if is_last then SPACE E else VERT E)) st
                  else st)
         end) children 0 st
  | FileNode _ _ _ | TruncNode _ => st
  end.

(** The loop of [rec] from index [i] on, over the rest [l] of a list of
    [size] children. *)
Fixpoint format_loop (size : Z) (prefix : string) (l : list tnode) (i : Z)
  (st : FormatState Item) {struct l} : FormatState Item :=
  match l with
  | [] => st
  | child :: rest =>
      let is_last := i =? size - 1 in
      let connector := if is_last then LAST E else BRANCH E in
      format_loop size prefix rest (i + 1)
        (if (node_type child =? "truncated")%string then
           append_line (prefix ++ connector ++ node_name child) st
         else
           let st := append_line (child_line prefix connector child) st in
           let st := collect_contents child st in
           if nonempty (node_children child) then
             format_rec child
               (prefix ++ (if is_last then SPACE E else VERT E)) st
           else st)
  end.

(** [lines = [tree_data["name"]]; file_contents_list = []; rec(tree_data,
    "")] *)
Definition format_run (tree_data : tnode) : FormatState Item :=
  format_rec tree_data ""
    {| lines := [node_name tree_data]; file_contents_list := [] |}.

End Formatter.

(** [format_text_tree(tree_data, emoji, include_contents)] *)
Definition format_text_tree (E : Env) (tree_data : tnode)
  (emoji include_contents : bool) : string :=
  let st := format_run E (fun p _ contents => (p, contents))
                       emoji include_contents tree_data in
  let tree_export := PyStr.join nl (lines st) in
  if include_contents && nonempty (file_contents_list st) then
    fold_left
      (fun tree_export item =>
         tree_export ++ "File: " ++ fst item ++ nl
         ++ str_mul "-" 80 ++ nl
         ++ snd item
         ++ nl ++ str_mul "-" 80 ++ nl ++ nl)
      (file_contents_list st)
      (tree_export ++ nl ++ nl ++ str_mul "=" 80 ++ nl
       ++ "FILE CONTENTS" ++ nl
       ++ str_mul "=" 80 ++ nl ++ nl)
  else tree_export.

(** [format_markdown_tree(tree_data, emoji, include_contents)];
    [get_language_hint] is outside the embedded files. *)
Definition format_markdown_tree (E : Env)
  (get_language_hint : string -> string) (tree_data : tnode)
  (emoji include_contents : bool) : string :=
  let st := format_run E (fun p name contents => (p, name, contents))
                       emoji include_contents tree_data in
  let md_export := "```" ++ nl ++ PyStr.join nl (lines st) ++ nl ++ "```" ++ nl in
  if include_contents && nonempty (file_contents_list st) then
    fold_left
      (fun md_export item =>
         let '(p, name, contents) := item in
         let lang_hint := get_language_hint name in
         md_export ++ "### " ++ p ++ nl ++ nl
         ++ "```" ++ lang_hint ++ nl
         ++ contents
         ++ nl ++ "```" ++ nl ++ nl)
      (file_contents_list st)
      (md_export ++ nl ++ "## File Contents" ++ nl ++ nl)
  else md_export.

(** The lines that [rec] adds for a node, and that its loop adds from
    index [i] on, whatever it stores for the files. *)
Definition no_lines : FormatState unit :=
  {| lines := []; file_contents_list := [] |}.

Definition rec_lines (E : Env) (emoji : bool) (node : tnode)
  (prefix : string) : list string :=
  lines (format_rec E (fun _ _ _ => tt) emoji false node prefix no_lines).

Definition loop_lines (E : Env) (emoji : bool) (size : Z)
  (prefix : string) (l : list tnode) (i : Z) : list string :=
  lines (format_loop E (fun _ _ _ => tt) emoji false size prefix l i
           no_lines).

(** The lines of the tree in an export. *)
Definition tree_lines (E : Env) (emoji : bool) (tree_data : tnode)
  : list string :=
  node_name tree_data :: rec_lines E emoji tree_data "".

(** The files at and below a node that carry contents, in the order of
    the tree: path, name, contents. *)
Fixpoint files_with_contents (n : tnode) {struct n}
  : list (string * string * string) :=
  match n with
  | FileNode name p (Some contents) => [(p, name, contents)]
  | FileNode _ _ None | TruncNode _ => []
  | DirNode _ children =>
      (fix all (l : list tnode) : list (string * string * string) :=
         match l with
         | [] => []
         | c :: rest => (files_with_contents c ++ all rest)%list
         end) children
  end.

(** The files below a node that carry contents. *)
Definition files_below (n : tnode) : list (string * string * string) :=
  flat_map files_with_contents (node_children n).

(** The lines that [rec] appends for a node do not depend on what it
    stores for the files. *)
Definition lines_appended (E : Env) (emoji : bool) (node : tnode) : Prop :=
  forall (Item : Type) (item_of : string -> string -> string -> Item)
         (include_contents : bool) (prefix : string) (st : FormatState Item),
    lines (format_rec E item_of emoji include_contents node prefix st)
    = (lines st ++ rec_lines E emoji node prefix)%list.

(* ================================================================= *)
(** ** The renderer against the exporter *)

(** A run of [rec] of [build_tree_data] and a run of [rec] of [draw_tree]
    from the state [ds] end alike: when the first returns [kids] the
    second returns, having written the lines of [kids] at [prefix] and
    noted no truncation of its own; when the first raises or runs out of
    fuel so does the second. *)
Definition same_run (E : Env) (prefix : string)
  (b : outcome BuildState (list tnode))
  (d : outcome (DrawState LineBuffer) unit) (ds : DrawState LineBuffer)
  : Prop :=
  match b with
  | Ret kids bs' =>
      stop_writing bs' = false
      /\ exists ds',
           d = Ret tt ds'
           /\ truncation_prefix ds' = truncation_prefix ds
           /\ out ds' = (out ds
                         ++ loop_lines E true (Z.of_nat (length kids)) prefix
                                       kids 0)%list
  | Exc e => d = Exc e
  | Fuel => d = Fuel
  end.

(** The same for the loop over the entries from index [i] on: the first
    returns its list [acc] extended by one node for every entry. *)
Definition same_loop (E : Env) (prefix : string) (size : Z) (i : Z)
  (acc : list tnode) (todo : list path)
  (b : outcome BuildState (list tnode))
  (d : outcome (DrawState LineBuffer) unit) (ds : DrawState LineBuffer)
  : Prop :=
  match b with
  | Ret result bs' =>
      stop_writing bs' = false
      /\ exists nodes ds',
           result = (acc ++ nodes)%list
           /\ length nodes = length todo
           /\ d = Ret tt ds'
           /\ truncation_prefix ds' = truncation_prefix ds
           /\ out ds' = (out ds ++ loop_lines E true size prefix nodes i)%list
  | Exc e => d = Exc e
  | Fuel => d = Fuel
  end.

(** A snapshot without dangling links. *)
Fixpoint no_links (n : fsnode) : bool :=
  match n with
  | FsFile _ _ => true
  | FsDir _ children =>
      (fix all (l : list fsnode) : bool :=
         match l with
         | [] => true
         | c :: rest => no_links c && all rest
         end) children
  | FsLink _ => false
  end.

(** One turn of the loop of [rec] in [draw_tree] over the entries, at
    index [i]: the body of the loop in [draw_rec], for the proofs. *)
Definition draw_entry (E : Env) (P : Params) (fuel : nat)
  (entry_list : list path) (truncated : Z) (prefix : string)
  (current_depth : Z) (patterns : list string) (i : Z) (entry : path)
  : M (DrawState LineBuffer) unit :=
  st <- get ;;
  if cap_reached P (entries st) then
    modify (note_truncation prefix) ;;
    modify incr_entries ;;
    when (is_dir E entry)
         (draw_rec E P fuel entry (prefix ++ SPACE E)
                   (current_depth + 1) patterns)
  else
    let is_last :=
      (i =? Z.of_nat (length entry_list) - 1) && (truncated =? 0) in
    let connector := if is_last then LAST E else BRANCH E in
    line <- lift (entry_line E P prefix connector entry) ;;
    emit line ;;
    modify incr_entries ;;
    when (is_dir E entry)
         (draw_rec E P fuel entry
                   (prefix ++ (if is_last then SPACE E else VERT E))
                   (current_depth + 1) patterns).

(* ================================================================= *)
(** ** [write_exports] *)

(** What the [try] block of [write_exports] can raise: an exception of
    the file system, or the [UnboundLocalError] of a name that was never
    assigned. *)
Inductive raised : Type :=
| Raised (e : exn)
| UnboundLocalError (name : string).

Section WriteExports.

Variable E : Env.

(** [json.dumps] and [get_language_hint] are outside the embedded
    files. *)
Variable format_json : tnode -> string.
Variable get_language_hint : string -> string.

(** [open(export_path, 'w', encoding='utf-8')] and the write that
    follows: whether they succeed. *)
Variable open_write : string -> string -> result unit.

(** The formatter chosen; each is called on [tree_data] alone, with its
    default flags. *)
Definition export_func (md json txt : bool) : option (tnode -> string) :=
  if md then
    Some (fun tree_data =>
            format_markdown_tree E get_language_hint tree_data false false)
  else if json then Some format_json
  else if txt then Some (fun tree_data => format_text_tree E tree_data false false)
  else None.

(** The [try] block; the files written so far are [files]. *)
Definition export_attempt (tree_data : tnode) (export_path : string)
  (md json txt : bool) (files : list (string * string))
  : raised + list (string * string) :=
  if negb (export_path =? "")%string then
    match export_func md json txt with
    | None => inl (UnboundLocalError "func")
    | Some func =>
        let content := func tree_data in
        match open_write export_path content with
        | Ok _ => inr (files ++ [(export_path, content)])%list
        | Raise e => inl (Raised e)
        end
    end
  else inr files.

(** Both handlers start with [logger.log(Logger.ERROR, ...)], whose
    arguments are evaluated first; [log] takes one argument. *)
Definition export_handler (logger : Logger.t) : exn :=
  match Logger.class_attr "ERROR" with
  | Raise e => e
  | Ok _ => TypeError "log() takes 2 positional arguments but 3 were given"
  end.

Definition write_exports (logger : Logger.t) (tree_data : tnode)
  (export_path : string) (md json txt : bool)
  (emoji include_contents : bool) (files : list (string * string))
  : result (list (string * string)) :=
  match export_attempt tree_data export_path md json txt files with
  | inr files' => Ok files'
  | inl _ => Raise (export_handler logger)
  end.

End WriteExports.

(* ================================================================= *)
(** ** [ParsingService._correct_args] *)

(** The attributes of the parsed arguments that [_correct_args] reads.
    For [export] and [zip], [None] stands for an attribute that is missing
    or [None]; the parser always sets [format]. *)
Record Namespace : Type := {
  ns_export : option string;
  ns_zip : option string;
  ns_format : string
}.

Section CorrectArgs.

(** [pathlib]: [Path(s).suffix], [str(Path(s).with_suffix(ext))] and
    [str(Path(s))]. *)
Variable path_suffix : string -> string.
Variable path_with_suffix : string -> string -> result string.
Variable path_str : string -> string.

(** [format_str in default_extensions] and [default_extensions[format_str]] *)
Definition dict_get (d : list (string * string)) (key : string)
  : option string :=
  match find (fun kv => (fst kv =? key)%string) d with
  | Some kv => Some (snd kv)
  | None => None
  end.

Definition _fix_output_path (output_path default_extension : string)
  (default_extensions : list (string * string)) (format_str : string)
  : result string :=
  if (path_suffix output_path =? "")%string then
    if negb (default_extension =? "")%string then
      path_with_suffix output_path default_extension
    else if negb (format_str =? "")%string then
      match dict_get default_extensions format_str with
      | Some ext => path_with_suffix output_path ext
      | None => Ok (path_str output_path)
      end
    else Ok (path_str output_path)
  else Ok (path_str output_path).

(** [self.logger.debug(...)] under [if self.logger:]. *)
Definition log_debug (logger : Logger.t) : result unit :=
  if Logger.truthy logger then
    match Logger.lookup_method "debug" with
    | Ok _ => Raise (TypeError "takes 2 positional arguments but 3 were given")
    | Raise e => Raise e
    end
  else Ok tt.

Definition _correct_args (logger : Logger.t) (args : Namespace)
  : result Namespace :=
  match
    match ns_export args with
    | Some export =>
        match _fix_output_path export ""
                [("txt", ".txt"); ("json", ".json"); ("md", ".md")]
                (ns_format args) with
        | Ok fixed =>
            Ok {| ns_export := Some fixed; ns_zip := ns_zip args;
                  ns_format := ns_format args |}
        | Raise e => Raise e
        end
    | None => Ok args
    end
  with
  | Raise e => Raise e
  | Ok args =>
      match
        match ns_zip args with
        | Some zip =>
            match _fix_output_path zip ".zip" [] "" with
            | Ok fixed =>
                Ok {| ns_export := ns_export args; ns_zip := Some fixed;
                      ns_format := ns_format args |}
            | Raise e => Raise e
            end
        | None => Ok args
        end
      with
      | Raise e => Raise e
      | Ok args =>
          match log_debug logger with
          | Ok _ => Ok args
          | Raise e => Raise e
          end
      end
  end.

End CorrectArgs.

(* ================================================================= *)
(** ** [resolve_root_paths] *)

(** How a function of the command line ends: it returns, or it leaves
    with [SystemExit(code)]; either way with the lines it has printed to
    [sys.stderr]. *)
Inductive cli_outcome (A : Type) : Type :=
| Returned (a : A) (printed : list string)
| SystemExit (code : Z) (printed : list string).
Arguments Returned {A} a printed.
Arguments SystemExit {A} code printed.

(** [ch in s] for a character. *)
Fixpoint str_contains (ch : ascii) (s : string) : bool :=
  match s with
  | EmptyString => false
  | String c rest => Ascii.eqb c ch || str_contains ch rest
  end.

Section ResolveRootPaths.

(** [glob.glob], [str(Path(s).resolve())] and [Path.exists] of a resolved
    path. *)
Variable glob : string -> list string.
Variable path_resolve : string -> string.
Variable path_exists : string -> bool.

Definition has_wildcard (path_str : string) : bool :=
  str_contains "*" path_str || str_contains "?" path_str.

(** The loop over [args.paths], with the roots collected so far. *)
Fixpoint resolve_roots_from (paths : list string) (roots : list string)
  : cli_outcome (list string) :=
  match paths with
  | [] => Returned roots []
  | path_str :: rest =>
      if has_wildcard path_str then
        let matches := glob path_str in
        if negb (nonempty matches) then
          SystemExit 1 ["Error: no matches found for pattern: " ++ path_str]
        else
          resolve_roots_from rest (roots ++ map path_resolve matches)%list
      else
        let p := path_resolve path_str in
        if negb (path_exists p) then
          SystemExit 1 ["Error: path not found: " ++ p]
        else resolve_roots_from rest (roots ++ [p])%list
  end.

Definition resolve_root_paths (paths : list string)
  : cli_outcome (list string) :=
  resolve_roots_from paths [].

(** A path argument that the loop accepts, and the roots it gives. *)
Definition path_accepted (path_str : string) : bool :=
  if has_wildcard path_str then nonempty (glob path_str)
  else path_exists (path_resolve path_str).

Definition path_roots (path_str : string) : list string :=
  if has_wildcard path_str then map path_resolve (glob path_str)
  else [path_resolve path_str].

Definition path_error (path_str : string) : string :=
  if has_wildcard path_str then
    "Error: no matches found for pattern: " ++ path_str
  else "Error: path not found: " ++ path_resolve path_str.

End ResolveRootPaths.

(* ================================================================= *)
(** ** The warnings of [draw_tree] *)

(** Some recorded call of [list_entries] returned a file that matches the
    include patterns, or the include file types. *)
Definition matched_patterns (E : Env) (P : Params)
  (listing : list (path * list string)) : bool :=
  existsb (fun call =>
             any_matches_include_patterns E P
               (fst (list_entries E (fst call) (snd call) (list_args_draw P))))
          listing.

Definition matched_types (E : Env) (P : Params)
  (listing : list (path * list string)) : bool :=
  existsb (fun call =>
             any_matches_include_types E P
               (fst (list_entries E (fst call) (snd call) (list_args_draw P))))
          listing.

(** Nothing has been printed to [sys.stderr], and the two flags say what
    the recorded calls have returned. *)
Definition flags_follow_listing {B : Type} (E : Env) (P : Params)
  (st : DrawState B) : Prop :=
  stderr st = []
  /\ files_matched_include_patterns st
     = nonempty (include_patterns P) && matched_patterns E P (listed st)
  /\ files_matched_include_types st
     = nonempty (include_file_types P) && matched_types E P (listed st).

(** The defaults with include patterns. *)
Definition with_include_patterns (patterns : list string) (P : Params)
  : Params :=
  {| depth := depth P; show_all := show_all P;
     extra_excludes := extra_excludes P;
     respect_gitignore := respect_gitignore P;
     gitignore_depth := gitignore_depth P;
     max_items := max_items P; max_entries := max_entries P;
     no_limit := no_limit P; exclude_depth := exclude_depth P;
     no_files := no_files P; emoji := emoji P; no_color := no_color P;
     whitelist := whitelist P; include_patterns := patterns;
     include_file_types := include_file_types P;
     files_first := files_first P;
     include_contents := include_contents P;
     no_contents_for := no_contents_for P |}.

(* ================================================================= *)
(** ** The capped rendering against the full one *)

(** The state of [draw_tree] after [rec] has recorded the call of
    [list_entries] for [dirpath] and looked at what it returned. *)
Definition enter_directory (E : Env) (P : Params) (dirpath : path)
  (extended : list string) (entry_list : list path)
  (ds : DrawState LineBuffer) : DrawState LineBuffer :=
  let ds := note_listed dirpath extended ds in
  let ds :=
    if nonempty (include_patterns P)
       && any_matches_include_patterns E P entry_list
    then mark_include_patterns ds else ds in
  if nonempty (include_file_types P)
     && any_matches_include_types E P entry_list
  then mark_include_types ds else ds.

(** The end of [rec]: the line for the items that [list_entries] cut. *)
Definition more_items_step (E : Env) (P : Params) (prefix : string)
  (truncated : Z) : M (DrawState LineBuffer) unit :=
  when (0 <? truncated)
       (st <- get ;;
        if cap_reached P (entries st) then
          modify (note_truncation prefix) ;;
          modify incr_entries
        else
          emit (more_items_line E prefix truncated) ;;
          modify incr_entries).

(** A run under the cap [m], in state [sc], against the run without a
    cap, in state [su], on a buffer that held [before] lines: they have
    counted the same entries, the full run has written one line for each,
    and the capped run has written the first [max m 1] of these lines. *)
Definition cut_short (m before : Z) (su sc : DrawState LineBuffer) : Prop :=
  entries sc = entries su
  /\ Z.of_nat (length (out su)) = before + entries su
  /\ 1 <= entries su
  /\ 0 <= before
  /\ out sc = firstn (Z.to_nat (before + Z.max m 1)) (out su).

(** The end of [draw_tree], after the walk: the warnings and the
    aggregate line. *)
Definition draw_finish (E : Env) (P : Params)
  : M (DrawState LineBuffer) unit :=
  st <- get ;;
  when (nonempty (include_patterns P)
        && negb (files_matched_include_patterns st))
       (modify (print_stderr (warn_patterns P))) ;;
  when (nonempty (include_file_types P)
        && negb (files_matched_include_types st))
       (modify (print_stderr (warn_types P))) ;;
  match truncation_prefix st with
  | Some tp =>
      match max_entries P with
      | Some m => emit (more_entries_line E tp (entries st - m))
      | None => raise (TypeError "unsupported operand type(s) for -")
      end
  | None => ret tt
  end.

(** The state in which the walk of [draw_tree] starts. *)
Definition draw_start (E : Env) (ob : LineBuffer) : DrawState LineBuffer :=
  set_out (ob ++ [root_name E])%list (draw_init ob).

(** The state after the two warnings of the end of [draw_tree]. *)
Definition warned (P : Params) (st : DrawState LineBuffer)
  : DrawState LineBuffer :=
  let st1 :=
    if nonempty (include_patterns P)
       && negb (files_matched_include_patterns st)
    then print_stderr (warn_patterns P) st else st in
  if nonempty (include_file_types P)
     && negb (files_matched_include_types st)
  then print_stderr (warn_types P) st1 else st1.

(* ================================================================= *)
(** * Theorems *)

(** ** Strings *)

Lemma startswith_char (c a : ascii) (rest : string) :
  PyStr.startswith (String c rest) (String a EmptyString) = Ascii.eqb c a.
Proof.
  unfold PyStr.startswith. simpl.
  destruct (ascii_dec a c) as [->|Hne].
  - rewrite Ascii.eqb_refl. now destruct rest.
  - symmetry. apply Ascii.eqb_neq. congruence.
Qed.

Lemma startswith_nil (a : ascii) :
  PyStr.startswith EmptyString (String a EmptyString) = false.
Proof. reflexivity. Qed.

Lemma lstrip_char_not_leading (ch : ascii) (s : string) :
  PyStr.startswith (PyStr.lstrip_char ch s) (String ch EmptyString) = false.
Proof.
  induction s as [|c s IH]; simpl; [reflexivity|].
  destruct (Ascii.eqb c ch) eqn:Hc; [exact IH|].
  now rewrite startswith_char.
Qed.

Lemma lstrip_char_leading (ch : ascii) (s : string) :
  PyStr.lstrip_char ch (String ch s) = PyStr.lstrip_char ch s.
Proof. simpl. now rewrite Ascii.eqb_refl. Qed.

(** ** Claim C2: the lines of a [.gitignore] *)

Lemma add_gitignore_line_spec (pre : string) (patterns : list string)
  (line : string) :
  add_gitignore_line pre patterns line =
  (patterns ++ match spec_line_rule pre line with
               | Some rule => [rule]
               | None => []
               end)%list.
Proof.
  unfold add_gitignore_line, spec_line_rule.
  destruct (PyStr.strip line) as [|c rest]; cbv zeta.
  - simpl. now rewrite app_nil_r.
  - rewrite !startswith_char.
    change (String c rest =? "")%string with false.
    destruct (Ascii.eqb c "#"%char); simpl; [now rewrite app_nil_r|].
    destruct (Ascii.eqb c "!"%char); reflexivity.
Qed.

Lemma fold_add_gitignore_line (pre : string) (lines : list string) :
  forall patterns,
    fold_left (add_gitignore_line pre) lines patterns =
    (patterns ++ spec_rules pre lines)%list.
Proof.
  induction lines as [|line lines IH]; intros patterns; simpl.
  - now rewrite app_nil_r.
  - rewrite IH, add_gitignore_line_spec. now rewrite <- app_assoc.
Qed.

Lemma join_cons2 (sep a b : string) (l : list string) :
  PyStr.join sep (a :: b :: l) = a ++ sep ++ PyStr.join sep (b :: l).
Proof. reflexivity. Qed.

Lemma eqb_append_sep_dot (a t : string) :
  (a ++ String "/"%char t =? ".")%string = false.
Proof.
  destruct a as [|c a]; simpl; [reflexivity|].
  destruct (Ascii.eqb c "."%char); [|reflexivity].
  destruct a; reflexivity.
Qed.

Lemma prefix_path_spec (dirpath : path) :
  dirpath <> ["."] -> prefix_path dirpath = spec_dir_prefix dirpath.
Proof.
  intros Hdot. unfold prefix_path, spec_dir_prefix.
  destruct dirpath as [|a [|b l]]; [reflexivity| |].
  - simpl. destruct (String.eqb_spec a "."); [congruence|reflexivity].
  - unfold as_posix. rewrite join_cons2.
    change ("/" ++ PyStr.join "/" (b :: l)) with
      (String "/"%char (PyStr.join "/" (b :: l))).
    now rewrite eqb_append_sep_dot.
Qed.

(** Claim C2.  In a directory where gitignore processing is active and
    whose [.gitignore] is a readable file, the pattern list in force is
    the inherited list followed by one rule for each line of the file, in
    order, where a blank line or a line starting with [#] gives no rule, a
    leading [!] is taken off and put back in front, the leading [/] of the
    remainder is taken off, and the remainder is prefixed with the
    directory's root-relative path and a [/] (nothing at the root).  A
    line is read without the white space around it.  No directory below
    the root has the path [.], which [pathlib] keeps for the root. *)
Theorem gitignore_lines_append_rules (E : Env) (P : Params) (dirpath : path)
  (inherited : list string) (text : string) :
  respect_gitignore P = true ->
  within_depth E (gitignore_depth P) dirpath = true ->
  is_file E (child dirpath ".gitignore") = true ->
  read_text E (child dirpath ".gitignore") = Ok text ->
  dirpath <> ["."] ->
  extend_patterns E P dirpath inherited =
  Ok (inherited ++ spec_rules (spec_dir_prefix dirpath)
                              (PyStr.splitlines text))%list.
Proof.
  intros Hgi Hdepth Hfile Hread Hdot.
  unfold extend_patterns. rewrite Hgi, Hdepth, Hfile, Hread. simpl.
  now rewrite fold_add_gitignore_line, prefix_path_spec.
Qed.

Lemma gitignore_lines_append_rules_witness :
  extend_patterns siblings_env default_params ["a"] ["*.log"; "!keep.log"] =
  Ok (["*.log"; "!keep.log"]
        ++ spec_rules (spec_dir_prefix ["a"])
                      (PyStr.splitlines ("/build" ++ nl)))%list.
Proof.
  apply (@gitignore_lines_append_rules siblings_env default_params ["a"]
           ["*.log"; "!keep.log"] ("/build" ++ nl)).
  - reflexivity.
  - reflexivity.
  - reflexivity.
  - reflexivity.
  - discriminate.
Defined.

Example spec_rules_example :
  spec_rules "a/"
    (PyStr.splitlines
       ("# c" ++ nl ++ nl ++ "!/x" ++ nl ++ "//build" ++ nl ++ "  foo  " ++ nl))
  = ["!a/x"; "a/build"; "a/foo"].
Proof. reflexivity. Qed.

(** ** Claim C3: the last matching rule decides *)

Section LastMatch.

Variable glob_matches : string -> string -> bool -> bool.
Variable rel : string.
Variable is_directory : bool.

Local Notation "'applies'" :=
  (PatternSet.rule_applies glob_matches rel is_directory).
Local Notation "'step'" :=
  (PatternSet.step glob_matches rel is_directory).

Lemma fold_step_last (rules : list string) (start : bool) :
  fold_left step rules start =
  match find applies (rev rules) with
  | Some rule => negb (PatternSet.negated rule)
  | None => start
  end.
Proof.
  induction rules as [|rule rules IH] using rev_ind; [reflexivity|].
  rewrite fold_left_app, rev_app_distr. simpl.
  unfold PatternSet.step at 1. destruct (applies rule); [reflexivity|exact IH].
Qed.

Lemma find_rev_existsb (rules : list string) :
  existsb applies rules =
  match find applies (rev rules) with Some _ => true | None => false end.
Proof.
  induction rules as [|rule rules IH] using rev_ind; [reflexivity|].
  rewrite existsb_app, rev_app_distr. simpl.
  destruct (applies rule); simpl.
  - now rewrite orb_true_r.
  - now rewrite orb_false_r.
Qed.

Lemma matches_last (rules : list string) :
  PatternSet.matches glob_matches rules rel is_directory =
  match find applies (rev rules) with
  | Some rule => negb (PatternSet.negated rule)
  | None => false
  end.
Proof. apply (fold_step_last rules false). Qed.

Lemma matches_app (inherited local : list string) :
  PatternSet.matches glob_matches (inherited ++ local) rel is_directory =
  if existsb applies local
  then PatternSet.matches glob_matches local rel is_directory
  else PatternSet.matches glob_matches inherited rel is_directory.
Proof.
  unfold PatternSet.matches at 1. rewrite fold_left_app.
  fold (PatternSet.matches glob_matches inherited rel is_directory).
  rewrite fold_step_last, find_rev_existsb, !matches_last.
  destruct (find applies (rev local)); reflexivity.
Qed.

End LastMatch.

(** Claim C3.  For every glob matcher, rule list and path, the outcome is
    that of the last rule of the list that matches the path (not excluded
    when none does); a list made of inherited rules followed by local ones
    is decided by the local ones as soon as one of them matches, and by
    the inherited ones otherwise; and with the rules [*.log], [!keep.log],
    [keep.log] is not excluded while [other.log] is. *)
Theorem last_matching_rule_wins :
  (forall glob_matches rules rel is_directory,
      PatternSet.matches glob_matches rules rel is_directory =
      match find (PatternSet.rule_applies glob_matches rel is_directory)
                 (rev rules) with
      | Some rule => negb (PatternSet.negated rule)
      | None => false
      end)
  /\ (forall glob_matches inherited local rel is_directory,
         PatternSet.matches glob_matches (inherited ++ local) rel is_directory =
         if existsb (PatternSet.rule_applies glob_matches rel is_directory) local
         then PatternSet.matches glob_matches local rel is_directory
         else PatternSet.matches glob_matches inherited rel is_directory)
  /\ PatternSet.matches PatternSet.glob ["*.log"; "!keep.log"] "keep.log" false
     = false
  /\ PatternSet.matches PatternSet.glob ["*.log"; "!keep.log"] "other.log" false
     = true.
Proof.
  split; [|split; [|split]].
  - intros. apply matches_last.
  - intros. apply matches_app.
  - reflexivity.
  - reflexivity.
Qed.

(** ** Claim C9: [OutputBuffer.write] *)

(** Claim C9.  [Logger] has no method [store], so [OutputBuffer.write]
    raises [AttributeError] whatever the buffer and the message, and a
    call of [draw_tree] on such a buffer raises it at its first write,
    whatever the tree and the arguments. *)
Theorem output_buffer_write_raises :
  Logger.lookup_method "store" = Raise (AttributeError "Logger" "store")
  /\ (forall (self : OutputBuffer.t) (message : string),
         OutputBuffer.write self message =
         Raise (AttributeError "Logger" "store"))
  /\ (forall (E : Env) (P : Params) (fuel : nat) (ob : OutputBuffer.t),
         draw_tree E P fuel ob = Exc (AttributeError "Logger" "store")).
Proof.
  split; [reflexivity|]. split; reflexivity.
Qed.

Example logger_methods :
  map fst Logger.class_dict =
  ["__init__"; "log"; "flush"; "clear"; "__len__"; "get_logs"].
Proof. reflexivity. Qed.

(** ** Claim C8: depth zero *)

(** Claim C8.  With [depth = 0], [draw_tree] writes the root's name and
    nothing else, on any buffer: [rec] returns at once, [list_entries] is
    never called, the entry count stays at one and no truncation is
    noted.  Only the two warnings about include options can follow, on
    [sys.stderr]. *)
Theorem depth_zero_root_only (B : Type) (OB : OutputBufferLike B) (E : Env)
  (P : Params) (fuel : nat) (ob : B) :
  depth P = Some 0 ->
  draw_tree E P (S fuel) ob =
  match write ob (root_name E) with
  | Raise e => Exc e
  | Ok b =>
      Ret tt
        {| out := b;
           stderr :=
             ((if nonempty (include_patterns P) then [warn_patterns P] else [])
              ++ (if nonempty (include_file_types P) then [warn_types P]
                  else []))%list;
           entries := 1;
           truncation_prefix := None;
           files_matched_include_patterns := false;
           files_matched_include_types := false;
           listed := [] |}
  end.
Proof.
  intros Hdepth. unfold draw_tree, bind, emit. simpl.
  destruct (write ob (root_name E)) as [b|e]; [|reflexivity].
  unfold depth_reached. rewrite Hdepth. simpl.
  destruct (is_dir E []); simpl;
    destruct (include_patterns P); destruct (include_file_types P);
    reflexivity.
Qed.

Lemma depth_zero_root_only_witness :
  draw_tree scenario_env (with_depth (Some 0) default_params) 1
            ([] : LineBuffer) =
  Ret tt
    {| out := ["p"]; stderr := []; entries := 1; truncation_prefix := None;
       files_matched_include_patterns := false;
       files_matched_include_types := false; listed := [] |}.
Proof.
  apply (@depth_zero_root_only LineBuffer LineBuffer_like scenario_env
           (with_depth (Some 0) default_params) 0 []).
  reflexivity.
Defined.

(** ** Claim C6: the scenario with a cap of one entry *)

(** The claim of C6 as it is written fails: with [max_entries = 1] the
    run on the scenario tree does not write the root, one line for [src/]
    and one truncation line. *)
Lemma cap_one_does_not_emit_src :
  ~ (exists src_line truncation_line,
        lines_of (draw_tree scenario_env
                    (with_max_entries (Some 1) default_params) 3
                    ([] : LineBuffer))
        = Some ["p"; src_line; truncation_line]).
Proof.
  intros (src_line & truncation_line & H).
  assert (Hrun :
            lines_of (draw_tree scenario_env
                        (with_max_entries (Some 1) default_params) 3
                        ([] : LineBuffer))
            = Some ["p"; "`-- ... and 2 more entries"]) by reflexivity.
  rewrite Hrun in H. discriminate H.
Qed.

(** Claim C6, amended.  The root's own line is the first entry counted.
    On the scenario tree, with [max_entries = 1], no child is written:
    the output is the root's name and one aggregate truncation line, for
    the two entries [src/] and [main.py]; [main.py] is never written.
    With [max_entries = 2] the output is the root's name, the line of
    [src/], and one aggregate truncation line for [main.py]. *)
Theorem cap_counts_the_root_line (fuel : nat) :
  lines_of (draw_tree scenario_env (with_max_entries (Some 1) default_params)
              (3 + fuel) ([] : LineBuffer))
  = Some ["p"; "`-- ... and 2 more entries"]
  /\ lines_of (draw_tree scenario_env
                 (with_max_entries (Some 2) default_params)
                 (3 + fuel) ([] : LineBuffer))
     = Some ["p"; "`-- src/"; "    `-- ... and 1 more entries"].
Proof. split; vm_compute; reflexivity. Qed.

(** ** Claim C7: a [.gitignore] that cannot be read *)

(** Claim C7 fails on the code.  When the root's [.gitignore] is a file
    whose reading raises [PermissionError], the exception leaves
    [draw_tree], [build_tree_data] and [collect_candidate_files]: nothing
    around [read_text] catches it. *)
Theorem unreadable_gitignore_aborts (fuel : nat) :
  draw_tree unreadable_env default_params (S fuel) ([] : LineBuffer)
  = Exc (PermissionError "/p/.gitignore")
  /\ build_tree_data unreadable_env default_params (S fuel)
     = Exc (PermissionError "/p/.gitignore")
  /\ collect_candidate_files unreadable_env default_params (S fuel)
     = Exc (PermissionError "/p/.gitignore").
Proof. split; [|split]; vm_compute; reflexivity. Qed.

(** ** Claim C5: the whitelist and directories *)

(** Claim C5 fails on the code for directories.  With the whitelist
    [{/p/src2/a.py}], the directory [/p/src] is written, and exported,
    although no whitelisted path lies under it: [/p/src] is a string
    prefix of [/p/src2/a.py]. *)
Theorem whitelist_keeps_directory_by_string_prefix (fuel : nat) :
  let P := with_whitelist (Some ["/p/src2/a.py"]) default_params in
  lines_of (draw_tree prefix_dirs_env P (3 + fuel) ([] : LineBuffer))
  = Some ["p"; "|-- src/"; "`-- src2/"; "    `-- a.py"]
  /\ (exists st,
         build_tree_data prefix_dirs_env P (3 + fuel)
         = Ret (DirNode "p"
                  [DirNode "src" [];
                   DirNode "src2" [FileNode "a.py" "src2/a.py" None]]) st)
  /\ absolute_str ["p"] ["src"] = "/p/src"
  /\ forall f, In f ["/p/src2/a.py"] ->
               PyStr.startswith f "/p/src/" = false.
Proof.
  intros P. split; [vm_compute; reflexivity|].
  split; [eexists; vm_compute; reflexivity|].
  split; [reflexivity|].
  intros f [<-|[]]. reflexivity.
Qed.

(** The file half of C5 holds: a file that the whitelist loop keeps is in
    the whitelist. *)
Lemma whitelist_keeps_file (E : Env) (wl : list string) (entry : path) :
  is_file E entry = true ->
  whitelist_keeps E wl entry = true ->
  In (absolute_str (root_parts E) entry) wl.
Proof.
  unfold whitelist_keeps. intros -> H.
  apply existsb_exists in H. destruct H as (f & Hin & Heq).
  apply String.eqb_eq in Heq. now subst.
Qed.

(** ** Claim C1: the renderer and the exporter under a global cap *)

(** Claim C1 fails on the code.  On two directories [a] and [b] with one
    file each and [max_entries = 2], the renderer goes on after the cap
    is reached: it lists [b] and counts three hidden entries; the
    exporter stops in [a] and never lists [b], and its marker carries no
    count.  On a directory [d] cut by [max_items = 1], with
    [max_entries = 3], the renderer writes one aggregate truncation line
    and the exporter two per-directory markers. *)
Theorem renderer_and_exporter_differ_under_cap (fuel : nat) :
  let P1 := with_max_entries (Some 2) default_params in
  let P2 := with_max_items (Some 1)
              (with_max_entries (Some 3) default_params) in
  (exists st,
      draw_tree two_dirs_env P1 (3 + fuel) ([] : LineBuffer) = Ret tt st
      /\ out st = ["p"; "|-- a/"; "|   `-- ... and 3 more entries"]
      /\ map fst (listed st) = [[]; ["a"]; ["b"]])
  /\ (exists st,
         build_tree_data two_dirs_env P1 (3 + fuel)
         = Ret (DirNode "p" [DirNode "a" [TruncNode "... and more entries"]])
               st
         /\ map fst (b_listed st) = [[]; ["a"]])
  /\ lines_of (draw_tree capped_dir_env P2 (3 + fuel) ([] : LineBuffer))
     = Some ["p"; "|-- d/"; "|   |-- x"; "|   `-- ... and 2 more entries"]
  /\ (exists st,
         build_tree_data capped_dir_env P2 (3 + fuel)
         = Ret (DirNode "p"
                  [DirNode "d" [FileNode "x" "d/x" None;
                                TruncNode "... and 1 more items"];
                   TruncNode "... and 1 more items"]) st).
Proof.
  intros P1 P2. split; [|split; [|split]].
  - eexists. split; [vm_compute; reflexivity|]. split; reflexivity.
  - eexists. split; [vm_compute; reflexivity|]. reflexivity.
  - vm_compute; reflexivity.
  - eexists. vm_compute; reflexivity.
Qed.

(** ** Rules of the triples *)

Section HoareRules.

Context {S : Type}.

Lemma hoare_ret {A} (I : S -> Prop) (a : A) : hoare I (ret a) (fun _ => I).
Proof. intros s Hs. exact Hs. Qed.

Lemma hoare_bind {A B} (I : S -> Prop) (m : M S A) (k : A -> M S B) :
  hoare I m (fun _ => I) ->
  (forall a, hoare I (k a) (fun _ => I)) ->
  hoare I (bind m k) (fun _ => I).
Proof.
  intros Hm Hk s Hs. unfold bind. specialize (Hm s Hs).
  destruct (m s) as [a s'| |]; [|exact Logic.I|exact Logic.I].
  exact (Hk a s' Hm).
Qed.

Lemma hoare_bind_lift {A B} (I : S -> Prop) (r : result A) (k : A -> M S B) :
  (forall a, r = Ok a -> hoare I (k a) (fun _ => I)) ->
  hoare I (bind (lift r) k) (fun _ => I).
Proof.
  intros Hk s Hs. unfold bind, lift.
  destruct r as [a|e]; simpl; [|exact Logic.I].
  exact (Hk a eq_refl s Hs).
Qed.

Lemma hoare_bind_get {B} (I : S -> Prop) (k : S -> M S B) :
  (forall a, hoare I (k a) (fun _ => I)) ->
  hoare I (bind get k) (fun _ => I).
Proof. intros Hk s Hs. exact (Hk s s Hs). Qed.

Lemma hoare_modify (I : S -> Prop) (f : S -> S) :
  (forall s, I s -> I (f s)) -> hoare I (modify f) (fun _ => I).
Proof. intros Hf s Hs. exact (Hf s Hs). Qed.

Lemma hoare_when (I : S -> Prop) (c : bool) (m : M S unit) :
  (c = true -> hoare I m (fun _ => I)) -> hoare I (when c m) (fun _ => I).
Proof.
  intros Hm. unfold when. destruct c; [exact (Hm eq_refl)|apply hoare_ret].
Qed.

Lemma hoare_for_enumerate {A} (I : S -> Prop) (l : list A)
  (body : Z -> A -> M S unit) :
  (forall i x, In x l -> hoare I (body i x) (fun _ => I)) ->
  forall i, hoare I (for_enumerate l i body) (fun _ => I).
Proof.
  induction l as [|x l IH]; intros Hbody i; simpl.
  - apply hoare_ret.
  - apply hoare_bind.
    + apply Hbody. now left.
    + intros _. apply IH. intros j y Hy. apply Hbody. now right.
Qed.

End HoareRules.

(** ** Claim C4: the pattern list of a directory depends on its path only *)

Section PathRules.

Variable E : Env.
Variable P : Params.

Lemma rules_down_snoc (below : list string) (c : string) :
  forall above patterns,
    rules_down E P above (below ++ [c])%list patterns =
    match rules_down E P above below patterns with
    | Ok inherited => extend_patterns E P (above ++ below ++ [c])%list inherited
    | Raise e => Raise e
    end.
Proof.
  induction below as [|b below IH]; intros above patterns; simpl.
  - destruct (extend_patterns E P above patterns) as [ext|e]; [|reflexivity].
    unfold child.
    destruct (extend_patterns E P (above ++ [c])%list ext); reflexivity.
  - destruct (extend_patterns E P above patterns) as [ext|e]; [|reflexivity].
    rewrite IH. unfold child. now rewrite <- app_assoc.
Qed.

Lemma path_rules_child (dirpath : path) (name : string) :
  path_rules E P (child dirpath name) =
  match path_rules E P dirpath with
  | Ok inherited => extend_patterns E P (child dirpath name) inherited
  | Raise e => Raise e
  end.
Proof. unfold path_rules, child. now rewrite rules_down_snoc. Qed.

Lemma handed_root : handed_by_path E P [] [].
Proof.
  intros extended H. unfold path_rules. simpl. now rewrite H.
Qed.

Lemma handed_child (dirpath : path) (name : string) (patterns : list string) :
  path_rules E P dirpath = Ok patterns ->
  handed_by_path E P (child dirpath name) patterns.
Proof.
  intros Hd extended H. now rewrite path_rules_child, Hd.
Qed.

Lemma extend_patterns_app (dirpath : path) (patterns extended : list string) :
  extend_patterns E P dirpath patterns = Ok extended ->
  exists own,
    local_rules E P dirpath = Ok own /\ extended = (patterns ++ own)%list.
Proof.
  unfold local_rules, extend_patterns.
  destruct (respect_gitignore P && within_depth E (gitignore_depth P) dirpath).
  - destruct (is_file E (child dirpath ".gitignore")).
    + destruct (read_text E (child dirpath ".gitignore")) as [text|e];
        [|discriminate].
      intros [= <-]. rewrite !fold_add_gitignore_line.
      eexists. split; reflexivity.
    + intros [= <-]. exists []. now rewrite app_nil_r.
  - intros [= <-]. exists []. now rewrite app_nil_r.
Qed.

Lemma listed_snoc (l : list (path * list string)) (dirpath : path)
  (patterns : list string) :
  Forall (listed_by_path E P) l ->
  path_rules E P dirpath = Ok patterns ->
  Forall (listed_by_path E P) (l ++ [(dirpath, patterns)])%list.
Proof.
  intros Hl Hd. apply Forall_app. split; [exact Hl|].
  constructor; [exact Hd|constructor].
Qed.

Hypothesis Hchildren : lists_children E.

Lemma whitelist_filter_incl (entry_list : list path) (entry : path) :
  In entry (whitelist_filter E P entry_list) -> In entry entry_list.
Proof.
  unfold whitelist_filter. destruct (whitelist P); [|trivial].
  intros H. apply filter_In in H. tauto.
Qed.

Lemma draw_rec_listed {B : Type} {OB : OutputBufferLike B} (fuel : nat) :
  forall dirpath prefix current_depth patterns,
    handed_by_path E P dirpath patterns ->
    hoare (fun st : DrawState B => Forall (listed_by_path E P) (listed st))
          (draw_rec E P fuel dirpath prefix current_depth patterns)
          (fun _ st => Forall (listed_by_path E P) (listed st)).
Proof.
  induction fuel as [|fuel IH]; intros dirpath prefix current_depth patterns Hh.
  - intros s _. exact Logic.I.
  - simpl. destruct (depth_reached P current_depth); [apply hoare_ret|].
    apply hoare_bind_lift. intros extended Hext.
    pose proof (Hh _ Hext) as Hpath.
    apply hoare_bind_lift. intros _ _.
    apply hoare_bind.
    { apply hoare_modify. intros s Hs. now apply listed_snoc. }
    intros _.
    destruct (list_entries E dirpath extended (list_args_draw P))
      as [entry_list truncated] eqn:Hle.
    apply hoare_bind_lift. intros _ _.
    apply hoare_bind.
    { apply hoare_when. intros _. apply hoare_modify. trivial. }
    intros _. apply hoare_bind.
    { apply hoare_when. intros _. apply hoare_modify. trivial. }
    intros _.
    assert (Hrec : forall entry pre,
               In entry (whitelist_filter E P entry_list) ->
               hoare (fun st : DrawState B =>
                        Forall (listed_by_path E P) (listed st))
                     (draw_rec E P fuel entry pre (current_depth + 1) extended)
                     (fun _ st => Forall (listed_by_path E P) (listed st))).
    { intros entry pre Hin. apply IH.
      apply whitelist_filter_incl in Hin.
      destruct (Hchildren dirpath extended (list_args_draw P) entry)
        as [name ->]; [now rewrite Hle|].
      now apply handed_child. }
    apply hoare_bind.
    { apply hoare_for_enumerate. intros i entry Hin.
      apply hoare_bind_get. intros st.
      destruct (cap_reached P (entries st)).
      - apply hoare_bind; [apply hoare_modify; trivial|]. intros _.
        apply hoare_bind; [apply hoare_modify; trivial|]. intros _.
        apply hoare_when. intros _. now apply Hrec.
      - apply hoare_bind_lift. intros line _.
        apply hoare_bind.
        { intros s Hs. unfold emit.
          destruct (write (out s) line); [exact Hs|exact Logic.I]. }
        intros _.
        apply hoare_bind; [apply hoare_modify; trivial|]. intros _.
        apply hoare_when. intros _. now apply Hrec. }
    intros _. apply hoare_when. intros _.
    apply hoare_bind_get. intros st.
    destruct (cap_reached P (entries st)).
    + apply hoare_bind; [apply hoare_modify; trivial|]. intros _.
      apply hoare_modify; trivial.
    + apply hoare_bind.
      { intros s Hs. unfold emit.
        destruct (write (out s) _); [exact Hs|exact Logic.I]. }
      intros _. apply hoare_modify; trivial.
Qed.

Lemma collect_rec_listed (fuel : nat) :
  forall dirpath current_depth patterns,
    handed_by_path E P dirpath patterns ->
    hoare (fun st => Forall (listed_by_path E P) (c_listed st))
          (collect_rec E P fuel dirpath current_depth patterns)
          (fun _ st => Forall (listed_by_path E P) (c_listed st)).
Proof.
  induction fuel as [|fuel IH]; intros dirpath current_depth patterns Hh.
  - intros s _. exact Logic.I.
  - simpl. destruct (depth_reached P current_depth); [apply hoare_ret|].
    apply hoare_bind_lift. intros extended Hext.
    pose proof (Hh _ Hext) as Hpath.
    apply hoare_bind_lift. intros _ _.
    apply hoare_bind.
    { apply hoare_modify. intros s Hs. now apply listed_snoc. }
    intros _.
    destruct (list_entries E dirpath extended (list_args_collect P))
      as [entry_list truncated] eqn:Hle.
    apply hoare_for_enumerate. intros i entry Hin.
    destruct (is_dir E entry).
    + apply IH.
      destruct (Hchildren dirpath extended (list_args_collect P) entry)
        as [name ->]; [now rewrite Hle|].
      now apply handed_child.
    + apply hoare_modify. trivial.
Qed.

Lemma build_children_listed
  (recurse : path -> M BuildState (list tnode)) (entry_list : list path) :
  (forall entry, In entry entry_list ->
     hoare (fun st => Forall (listed_by_path E P) (b_listed st))
           (recurse entry)
           (fun _ st => Forall (listed_by_path E P) (b_listed st))) ->
  forall children,
    hoare (fun st => Forall (listed_by_path E P) (b_listed st))
          (build_children E P recurse entry_list children)
          (fun _ st => Forall (listed_by_path E P) (b_listed st)).
Proof.
  induction entry_list as [|entry rest IH]; intros Hrec children; simpl.
  - apply hoare_ret.
  - assert (Hrest : forall c,
               hoare (fun st => Forall (listed_by_path E P) (b_listed st))
                     (build_children E P recurse rest c)
                     (fun _ st => Forall (listed_by_path E P) (b_listed st))).
    { intros c. apply IH. intros e He. apply Hrec. now right. }
    apply hoare_bind_get. intros st.
    destruct (stop_writing st); [apply hoare_ret|].
    destruct (cap_reached P (b_entries st)).
    { apply hoare_bind; [apply hoare_modify; trivial|]. intros _.
      apply hoare_ret. }
    destruct (is_file E entry).
    { apply hoare_bind; [apply hoare_modify; trivial|]. intros _.
      apply Hrest. }
    destruct (is_dir E entry); [|apply Hrest].
    apply hoare_bind; [apply hoare_modify; trivial|]. intros _.
    apply hoare_bind; [apply Hrec; now left|]. intros kids. apply Hrest.
Qed.

Lemma build_rec_listed (fuel : nat) :
  forall dirpath current_depth patterns,
    handed_by_path E P dirpath patterns ->
    hoare (fun st => Forall (listed_by_path E P) (b_listed st))
          (build_rec E P fuel dirpath current_depth patterns)
          (fun _ st => Forall (listed_by_path E P) (b_listed st)).
Proof.
  induction fuel as [|fuel IH]; intros dirpath current_depth patterns Hh.
  - intros s _. exact Logic.I.
  - simpl. destruct (depth_reached P current_depth); [apply hoare_ret|].
    apply hoare_bind_get. intros st0.
    destruct (stop_writing st0); [apply hoare_ret|].
    apply hoare_bind_lift. intros extended Hext.
    pose proof (Hh _ Hext) as Hpath.
    apply hoare_bind_lift. intros _ _.
    apply hoare_bind.
    { apply hoare_modify. intros s Hs. now apply listed_snoc. }
    intros _.
    destruct (list_entries E dirpath extended (list_args_build P))
      as [entry_list truncated] eqn:Hle.
    apply hoare_bind.
    { apply build_children_listed. intros entry Hin. apply IH.
      apply whitelist_filter_incl in Hin.
      destruct (Hchildren dirpath extended (list_args_build P) entry)
        as [name ->]; [now rewrite Hle|].
      now apply handed_child. }
    intros children. apply hoare_bind_get. intros st.
    destruct ((0 <? truncated) && negb (stop_writing st)).
    + apply hoare_bind; [apply hoare_modify; trivial|]. intros _.
      apply hoare_ret.
    + apply hoare_ret.
Qed.

Lemma draw_tree_listed {B : Type} {OB : OutputBufferLike B} (fuel : nat)
  (ob : B) (st : DrawState B) :
  draw_tree E P fuel ob = Ret tt st ->
  Forall (listed_by_path E P) (listed st).
Proof.
  unfold draw_tree. intros Hrun.
  match type of Hrun with
  | ?m _ = _ =>
      assert (H : hoare (fun st : DrawState B =>
                           Forall (listed_by_path E P) (listed st))
                        m (fun _ st => Forall (listed_by_path E P) (listed st)))
  end.
  { apply hoare_bind.
    { intros s Hs. unfold emit.
      destruct (write (out s) _); [exact Hs|exact Logic.I]. }
    intros _. apply hoare_bind.
    { apply hoare_when. intros _. apply draw_rec_listed. apply handed_root. }
    intros _. apply hoare_bind_get. intros s.
    apply hoare_bind; [apply hoare_when; intros _; apply hoare_modify; trivial|].
    intros _.
    apply hoare_bind; [apply hoare_when; intros _; apply hoare_modify; trivial|].
    intros _.
    destruct (truncation_prefix s); [|apply hoare_ret].
    destruct (max_entries P).
    - intros s' Hs'. unfold emit.
      destruct (write (out s') _); [exact Hs'|exact Logic.I].
    - intros s' _. exact Logic.I. }
  specialize (H (draw_init ob) (Forall_nil _)).
  rewrite Hrun in H. exact H.
Qed.

Lemma collect_candidate_files_listed (fuel : nat) (st : CollectState) :
  collect_candidate_files E P fuel = Ret tt st ->
  Forall (listed_by_path E P) (c_listed st).
Proof.
  unfold collect_candidate_files. intros Hrun.
  match type of Hrun with
  | ?m _ = _ =>
      assert (H : hoare (fun st => Forall (listed_by_path E P) (c_listed st))
                        m (fun _ st => Forall (listed_by_path E P) (c_listed st)))
  end.
  { destruct (is_dir E []).
    - apply collect_rec_listed. apply handed_root.
    - apply hoare_when. intros _. apply hoare_modify. trivial. }
  specialize (H collect_init (Forall_nil _)).
  rewrite Hrun in H. exact H.
Qed.

Lemma build_tree_data_listed (fuel : nat) (tree : tnode) (st : BuildState) :
  build_tree_data E P fuel = Ret tree st ->
  Forall (listed_by_path E P) (b_listed st).
Proof.
  unfold build_tree_data. intros Hrun.
  match type of Hrun with
  | ?m _ = _ =>
      assert (H : hoare (fun st => Forall (listed_by_path E P) (b_listed st))
                        m (fun _ st => Forall (listed_by_path E P) (b_listed st)))
  end.
  { destruct (is_dir E []).
    - apply hoare_bind; [apply build_rec_listed; apply handed_root|].
      intros children. apply hoare_ret.
    - apply hoare_ret. }
  specialize (H build_init (Forall_nil _)).
  rewrite Hrun in H. exact H.
Qed.

End PathRules.

(** The [list_entries] taken from the specification returns children of
    the directory it lists, under their names in the snapshot. *)
Lemma In_insert_sorted (x y : path) (l : list path) :
  In x (EntryFilter.insert_sorted y l) -> x = y \/ In x l.
Proof.
  induction l as [|z l IH]; simpl.
  - intros [<-|[]]. now left.
  - destruct (EntryFilter.name_leb y z); simpl.
    + intros [<-|H]; [now left|now right].
    + intros [<-|H]; [right; now left|].
      destruct (IH H) as [->|H']; [now left|right; now right].
Qed.

Lemma In_sort_by_name (x : path) (l : list path) :
  In x (EntryFilter.sort_by_name l) -> In x l.
Proof.
  induction l as [|y l IH]; simpl; [trivial|].
  intros H. apply In_insert_sorted in H. destruct H as [->|H]; auto.
Qed.

Lemma In_firstn {A} (n : nat) (x : A) (l : list A) :
  In x (firstn n l) -> In x l.
Proof.
  revert l. induction n as [|n IH]; intros [|y l]; simpl; try tauto.
  intros [->|H]; auto.
Qed.

Lemma spec_list_entries_names (root : fsnode) (dirpath : path)
  (patterns : list string) (a : ListArgs) (entry : path) :
  In entry (fst (EntryFilter.list_entries root dirpath patterns a)) ->
  exists children,
    (exists name, fs_lookup root dirpath = Some (FsDir name children))
    /\ In entry (map (fun k => child dirpath (fs_name k)) children).
Proof.
  unfold EntryFilter.list_entries.
  destruct (fs_lookup root dirpath) as [[| name children |]|]; simpl;
    try tauto.
  intros H. exists children. split; [now exists name|].
  set (raw := map (fun k => child dirpath (fs_name k)) children) in *.
  set (kept := filter (EntryFilter.passes root dirpath patterns a) raw) in *.
  assert (Hord : forall e,
             In e (if la_files_first a
                   then (EntryFilter.sort_by_name
                           (filter (fun e => negb (fs_is_dir root e)) kept)
                         ++ EntryFilter.sort_by_name
                              (filter (fs_is_dir root) kept))%list
                   else (EntryFilter.sort_by_name
                           (filter (fs_is_dir root) kept)
                         ++ EntryFilter.sort_by_name
                              (filter (fun e => negb (fs_is_dir root e)) kept))%list)
             -> In e raw).
  { intros e He.
    assert (In e kept -> In e raw)
      by (unfold kept; intros Hk; apply filter_In in Hk; tauto).
    assert (forall f, In e (EntryFilter.sort_by_name (filter f kept)) -> In e raw).
    { intros f Hf. apply In_sort_by_name in Hf. apply filter_In in Hf. tauto. }
    destruct (la_files_first a); apply in_app_or in He; destruct He; eauto. }
  destruct (la_max_items a) as [n|]; [|now apply Hord].
  match type of H with
  | In _ (fst (if ?c then _ else _)) => destruct c
  end; simpl in H.
  - apply In_firstn in H. now apply Hord.
  - now apply Hord.
Qed.

Lemma env_of_lists_children (parts : list string) (root : fsnode) :
  lists_children (env_of parts root).
Proof.
  intros dirpath patterns a entry H. simpl in H.
  apply spec_list_entries_names in H.
  destruct H as (children & _ & H).
  apply in_map_iff in H. destruct H as (k & <- & _). now exists (fs_name k).
Qed.

(** Claim C4.  When [list_entries] returns children of the directory it
    is given, every call of [list_entries] made by [draw_tree],
    [collect_candidate_files] and [build_tree_data] carries the pattern
    list that the path of its directory alone determines; and the list of
    a child directory is the list of its parent followed by the rules of
    the child's own [.gitignore].  So two siblings start from the same
    parent list, and neither sees the other's rules. *)
Theorem pattern_list_depends_on_path_only (E : Env) (P : Params) :
  lists_children E ->
  (forall (B : Type) (OB : OutputBufferLike B) fuel (ob : B) st dirpath patterns,
      draw_tree E P fuel ob = Ret tt st ->
      In (dirpath, patterns) (listed st) ->
      path_rules E P dirpath = Ok patterns)
  /\ (forall fuel st dirpath patterns,
         collect_candidate_files E P fuel = Ret tt st ->
         In (dirpath, patterns) (c_listed st) ->
         path_rules E P dirpath = Ok patterns)
  /\ (forall fuel tree st dirpath patterns,
         build_tree_data E P fuel = Ret tree st ->
         In (dirpath, patterns) (b_listed st) ->
         path_rules E P dirpath = Ok patterns)
  /\ (forall dirpath name patterns,
         path_rules E P (child dirpath name) = Ok patterns ->
         exists inherited own,
           path_rules E P dirpath = Ok inherited
           /\ local_rules E P (child dirpath name) = Ok own
           /\ patterns = (inherited ++ own)%list).
Proof.
  intros Hchildren. split; [|split; [|split]].
  - intros B OB fuel ob st dirpath patterns Hrun Hin.
    pose proof (@draw_tree_listed E P Hchildren B OB fuel ob st Hrun) as H.
    rewrite Forall_forall in H. exact (H _ Hin).
  - intros fuel st dirpath patterns Hrun Hin.
    pose proof (@collect_candidate_files_listed E P Hchildren fuel st Hrun) as H.
    rewrite Forall_forall in H. exact (H _ Hin).
  - intros fuel tree st dirpath patterns Hrun Hin.
    pose proof (@build_tree_data_listed E P Hchildren fuel tree st Hrun) as H.
    rewrite Forall_forall in H. exact (H _ Hin).
  - intros dirpath name patterns H. rewrite path_rules_child in H.
    destruct (path_rules E P dirpath) as [inherited|e]; [|discriminate].
    apply extend_patterns_app in H. destruct H as (own & Hown & ->).
    now exists inherited, own.
Qed.

Lemma pattern_list_depends_on_path_only_witness :
  path_rules siblings_env default_params ["b"; "c"]
  = Ok ["*.log"; "!keep.log"; "!b/tmp"]
  /\ exists inherited own,
       path_rules siblings_env default_params [] = Ok inherited
       /\ local_rules siblings_env default_params ["a"] = Ok own
       /\ ["*.log"; "!keep.log"; "a/build"] = (inherited ++ own)%list.
Proof.
  destruct (@pattern_list_depends_on_path_only siblings_env default_params
              (env_of_lists_children ["p"] siblings_tree))
    as (Hdraw & Hcollect & _ & Hchild).
  split.
  - pose (o := draw_tree siblings_env default_params 4 ([] : LineBuffer)).
    assert (Ho : exists st, o = Ret tt st
                            /\ In (["b"; "c"], ["*.log"; "!keep.log"; "!b/tmp"])
                                  (listed st)).
    { eexists. split; [vm_compute; reflexivity|]. simpl. tauto. }
    destruct Ho as (st & Hrun & Hin).
    exact (Hdraw LineBuffer LineBuffer_like 4%nat [] st _ _ Hrun Hin).
  - apply (Hchild [] "a"). vm_compute. reflexivity.
Defined.

(** ** A whitelist of root-relative paths *)

Lemma startswith_slash_longer (f t : string) :
  PyStr.startswith f "/" = false ->
  PyStr.startswith f (String "/"%char t) = false.
Proof.
  destruct f as [|b f]; [reflexivity|].
  rewrite startswith_char. intros Hb.
  change (PyStr.startswith (String b f) (String "/"%char t))
    with (if ascii_dec "/"%char b then String.prefix t f else false).
  destruct (ascii_dec "/"%char b) as [<-|]; [|reflexivity].
  rewrite Ascii.eqb_refl in Hb. discriminate.
Qed.

Lemma absolute_str_starts_with_slash (parts : list string) (p : path) :
  exists t, absolute_str parts p = String "/"%char t.
Proof. unfold absolute_str. simpl. eauto. Qed.

Lemma valid_name_head (name : string) :
  valid_name name = true ->
  exists a rest, name = String a rest /\ Ascii.eqb a "/"%char = false.
Proof.
  unfold valid_name. destruct name as [|a rest]; [discriminate|].
  intros H. exists a, rest. split; [reflexivity|].
  rewrite startswith_char in H.
  destruct (Ascii.eqb a "/"%char); [|reflexivity].
  now rewrite andb_false_r in H.
Qed.

Lemma as_posix_relative (p : path) :
  Forall (fun name => valid_name name = true) p ->
  PyStr.startswith (as_posix p) "/" = false.
Proof.
  destruct p as [|c rest]; [reflexivity|].
  intros H. inversion H as [|? ? Hc _]; subst.
  destruct (valid_name_head _ Hc) as (a & c' & -> & Ha).
  unfold as_posix, PyStr.join.
  destruct rest as [|b rest].
  - change (String.concat "/" [String a c']) with (String a c').
    now rewrite startswith_char.
  - change (String.concat "/" (String a c' :: b :: rest))
      with (String a (c' ++ "/" ++ String.concat "/" (b :: rest))).
    now rewrite startswith_char.
Qed.

Section RelativeWhitelist.

Variable E : Env.
Variable P : Params.

Hypothesis Hnamed : lists_named_children E.

Lemma collect_rec_relative (fuel : nat) :
  forall dirpath current_depth patterns,
    Forall (fun name => valid_name name = true) dirpath ->
    hoare (fun st => Forall (fun f => PyStr.startswith f "/" = false)
                            (rel_files st))
          (collect_rec E P fuel dirpath current_depth patterns)
          (fun _ st => Forall (fun f => PyStr.startswith f "/" = false)
                              (rel_files st)).
Proof.
  induction fuel as [|fuel IH]; intros dirpath current_depth patterns Hd.
  - intros s _. exact Logic.I.
  - simpl. destruct (depth_reached P current_depth); [apply hoare_ret|].
    apply hoare_bind_lift. intros extended _.
    apply hoare_bind_lift. intros _ _.
    apply hoare_bind; [apply hoare_modify; trivial|]. intros _.
    destruct (list_entries E dirpath extended (list_args_collect P))
      as [entry_list truncated] eqn:Hle.
    apply hoare_for_enumerate. intros i entry Hin.
    destruct (Hnamed dirpath extended (list_args_collect P) entry)
      as (name & -> & Hname); [now rewrite Hle|].
    assert (Hchild : Forall (fun name => valid_name name = true)
                            (child dirpath name)).
    { apply Forall_app. split; [exact Hd|]. now constructor. }
    destruct (is_dir E (child dirpath name)).
    + now apply IH.
    + apply hoare_modify. intros s Hs. simpl.
      apply Forall_app. split; [exact Hs|].
      constructor; [|constructor]. now apply as_posix_relative.
Qed.

Lemma collect_candidate_files_relative (fuel : nat) (st : CollectState) :
  PyStr.startswith (root_name E) "/" = false ->
  collect_candidate_files E P fuel = Ret tt st ->
  Forall (fun f => PyStr.startswith f "/" = false) (rel_files st).
Proof.
  unfold collect_candidate_files. intros Hroot Hrun.
  match type of Hrun with
  | ?m _ = _ =>
      assert (H : hoare (fun st => Forall (fun f => PyStr.startswith f "/" = false)
                                          (rel_files st))
                        m (fun _ st =>
                             Forall (fun f => PyStr.startswith f "/" = false)
                                    (rel_files st)))
  end.
  { destruct (is_dir E []).
    - apply collect_rec_relative. constructor.
    - apply hoare_when. intros _. apply hoare_modify. intros s Hs. simpl.
      apply Forall_app. split; [exact Hs|]. now constructor. }
  specialize (H collect_init (Forall_nil _)).
  rewrite Hrun in H. exact H.
Qed.

End RelativeWhitelist.

Lemma relative_whitelist_keeps_no_file_or_directory (E : Env)
  (wl : list string) (entry : path) :
  (forall f, In f wl -> PyStr.startswith f "/" = false) ->
  is_file E entry || is_dir E entry = true ->
  whitelist_keeps E wl entry = false.
Proof.
  intros Hrel Hkind. unfold whitelist_keeps.
  destruct (absolute_str_starts_with_slash (root_parts E) entry) as (t & ->).
  assert (Heq : existsb (String.eqb (String "/"%char t)) wl = false).
  { apply not_true_is_false. intros H. apply existsb_exists in H.
    destruct H as (f & Hin & Hf). apply String.eqb_eq in Hf. subst f.
    specialize (Hrel _ Hin). rewrite startswith_char in Hrel. discriminate. }
  assert (Hpre : existsb (fun f => PyStr.startswith f (String "/"%char t)) wl
                 = false).
  { apply not_true_is_false. intros H. apply existsb_exists in H.
    destruct H as (f & Hin & Hf).
    rewrite (startswith_slash_longer _ _ (Hrel _ Hin)) in Hf. discriminate. }
  destruct (is_file E entry); [exact Heq|].
  destruct (is_dir E entry); [exact Hpre|discriminate].
Qed.

(** ** Claim C10: [resolve_selected_files] *)

(** Claim C10.  [resolve_selected_files] returns no whitelist at all: its
    call of [collect_candidate_files] leaves out the keyword-only
    parameters [output_buffer] and [logger], which have no default, so
    binding the call raises a [TypeError] before any directory is listed
    and before any prompt is shown.  This holds for every root, for every
    value of the options and for both values of [interactive].  The two
    missing keywords are the whole defect: with them the call binds. *)
Theorem resolve_selected_files_raises (E : Env) (P : Params) (fuel : nat)
  (interactive : bool) (ask : list string -> option (list string)) :
  resolve_selected_files E P fuel interactive ask
  = Exc (TypeError
           ("collect_candidate_files() missing 2 required keyword-only "
            ++ "arguments: 'output_buffer' and 'logger'"))
  /\ call_keywords "collect_candidate_files"
       collect_candidate_files_parameters
       ("output_buffer" :: "logger" :: resolve_selected_files_keywords)
     = Ok tt.
Proof. split; reflexivity. Qed.


(* ================================================================= *)
(** * Further properties of the code *)

(** ** [Logger] and [OutputBuffer] *)

Lemma print_all (messages printed : list string) :
  fold_left (fun printed message => (printed ++ [message])%list)
            messages printed
  = (printed ++ messages)%list.
Proof.
  revert printed. induction messages as [|m messages IH]; intros printed; simpl.
  - now rewrite app_nil_r.
  - rewrite IH. now rewrite <- app_assoc.
Qed.

Lemma logged_messages (messages : list string) (self : Logger.t) :
  Logger._messages (fold_left Logger.log messages self)
  = (Logger._messages self ++ messages)%list.
Proof.
  revert self. induction messages as [|m messages IH]; intros self; simpl.
  - now rewrite app_nil_r.
  - rewrite IH. simpl. now rewrite <- app_assoc.
Qed.

(** Extra X1.  After [clear], logging a sequence of messages leaves exactly these
    messages: [len] is their number, [get_logs] returns them in order, the
    logger is true exactly when there is one, and [flush] prints them in
    order after what was printed and leaves the logger empty. *)
Theorem logger_stores_then_flushes (self : Logger.t)
  (messages printed : list string) :
  let logger := fold_left Logger.log messages (Logger.clear self) in
  Logger.len logger = Z.of_nat (length messages)
  /\ Logger.get_logs logger = messages
  /\ Logger.truthy logger = nonempty messages
  /\ Logger.flush logger printed = (Logger.new, (printed ++ messages)%list)
  /\ Logger.len (fst (Logger.flush logger printed)) = 0.
Proof.
  intros logger.
  assert (Hm : Logger._messages logger = messages)
    by (unfold logger; now rewrite logged_messages).
  unfold Logger.len, Logger.get_logs, Logger.truthy, Logger.len, Logger.flush.
  rewrite Hm, print_all. repeat split.
  destruct messages; reflexivity.
Qed.

(** Extra X2.  [OutputBuffer.flush] prints the stored messages and keeps them: two
    flushes in a row print every message twice and leave the buffer as it
    was.  [Logger.flush] clears: a second flush prints nothing more. *)
Theorem output_buffer_flush_keeps_messages (self : OutputBuffer.t)
  (printed : list string) :
  let messages := Logger.get_logs (OutputBuffer.logger self) in
  let once := OutputBuffer.flush self printed in
  let twice := OutputBuffer.flush (fst once) (snd once) in
  fst twice = self
  /\ snd twice = (printed ++ messages ++ messages)%list
  /\ snd (Logger.flush
            (fst (Logger.flush (OutputBuffer.logger self) printed))
            (snd (Logger.flush (OutputBuffer.logger self) printed)))
     = (printed ++ messages)%list.
Proof.
  simpl. unfold Logger.get_logs. rewrite !print_all.
  split; [reflexivity|]. split; [now rewrite <- app_assoc|reflexivity].
Qed.

(** ** The whitelist loop *)

Lemma prefix_append_same (x s t : string) :
  String.prefix (x ++ s) (x ++ t) = String.prefix s t.
Proof.
  induction x as [|c x IH]; simpl; [reflexivity|].
  destruct (ascii_dec c c); [exact IH|congruence].
Qed.

Lemma prefix_append (x t : string) : String.prefix x (x ++ t) = true.
Proof.
  induction x as [|c x IH]; simpl; [now destruct t|].
  destruct (ascii_dec c c); [exact IH|congruence].
Qed.

Lemma prefix_empty (t : string) : String.prefix "" t = true.
Proof. now destruct t. Qed.

Lemma prefix_refl (x : string) : String.prefix x x = true.
Proof.
  induction x as [|c x IH]; simpl; [reflexivity|].
  destruct (ascii_dec c c); [exact IH|congruence].
Qed.

Lemma join_prefix (a b : list string) :
  String.prefix (PyStr.join "/" a) (PyStr.join "/" (a ++ b)) = true.
Proof.
  induction a as [|x a IH]; [apply prefix_empty|].
  destruct a as [|y a].
  - destruct b as [|z b].
    + change (PyStr.join "/" ([x] ++ [])) with x.
      change (PyStr.join "/" [x]) with x. apply prefix_refl.
    + change (PyStr.join "/" ([x] ++ z :: b))
        with (x ++ "/" ++ PyStr.join "/" (z :: b)).
      change (PyStr.join "/" [x]) with x. apply prefix_append.
  - change (PyStr.join "/" ((x :: y :: a) ++ b))
      with (x ++ "/" ++ PyStr.join "/" ((y :: a) ++ b)).
    change (PyStr.join "/" (x :: y :: a))
      with (x ++ "/" ++ PyStr.join "/" (y :: a)).
    rewrite prefix_append_same.
    change ("/" ++ PyStr.join "/" (y :: a))
      with (String "/"%char (PyStr.join "/" (y :: a))).
    change ("/" ++ PyStr.join "/" ((y :: a) ++ b))
      with (String "/"%char (PyStr.join "/" ((y :: a) ++ b))).
    cbn [String.prefix].
    destruct (ascii_dec "/"%char "/"%char); [exact IH|congruence].
Qed.

Lemma absolute_str_prefix (parts : list string) (p rest : path) :
  PyStr.startswith (absolute_str parts (p ++ rest)%list)
                   (absolute_str parts p)
  = true.
Proof.
  unfold PyStr.startswith, absolute_str. rewrite app_assoc.
  change ("/" ++ PyStr.join "/" (parts ++ p)%list)
    with (String "/"%char (PyStr.join "/" (parts ++ p)%list)).
  change ("/" ++ PyStr.join "/" ((parts ++ p) ++ rest)%list)
    with (String "/"%char (PyStr.join "/" ((parts ++ p) ++ rest)%list)).
  cbn [String.prefix].
  destruct (ascii_dec "/"%char "/"%char); [apply join_prefix|congruence].
Qed.

(** Extra X4.  Every entry on the way from the root down to a whitelisted path
    passes the whitelist loop, unless it is itself a file: the loop never
    hides the directories that lead to a whitelisted file. *)
Theorem whitelist_keeps_ancestors (E : Env) (wl : list string)
  (entry rest : path) :
  In (absolute_str (root_parts E) (entry ++ rest)%list) wl ->
  is_file E entry = false ->
  whitelist_keeps E wl entry = true.
Proof.
  intros Hin Hfile. unfold whitelist_keeps. rewrite Hfile.
  destruct (is_dir E entry); [|reflexivity].
  apply existsb_exists. exists (absolute_str (root_parts E) (entry ++ rest)%list).
  split; [exact Hin|apply absolute_str_prefix].
Qed.

Lemma whitelist_keeps_ancestors_witness :
  whitelist_keeps prefix_dirs_env ["/p/src2/a.py"] ["src2"] = true.
Proof.
  apply (@whitelist_keeps_ancestors prefix_dirs_env ["/p/src2/a.py"]
           ["src2"] ["a.py"]).
  - simpl. now left.
  - reflexivity.
Defined.

(** ** Candidates of the selection used as a whitelist *)

Lemma env_of_lists_named_children_dangling :
  lists_named_children dangling_env.
Proof.
  intros dirpath patterns a entry H. simpl in H.
  apply spec_list_entries_names in H.
  destruct H as (children & (name & Hlookup) & H).
  apply in_map_iff in H. destruct H as (k & <- & Hk).
  exists (fs_name k). split; [reflexivity|].
  destruct dirpath as [|c dirpath].
  - injection Hlookup as <- <-.
    destruct Hk as [<-|[<-|[]]]; reflexivity.
  - cbn -[String.eqb] in Hlookup.
    destruct (String.eqb "a.py" c); [destruct dirpath; discriminate|].
    destruct (String.eqb "link" c); [destruct dirpath; discriminate|].
    discriminate.
Qed.

(** Extra X21.  The candidates that [collect_candidate_files] returns are
    relative to the root, so none starts with [/], while the whitelist
    loop of [draw_tree] and [build_tree_data] compares absolute paths.
    Against a whitelist made of such candidates the loop keeps no file
    and no directory: of the entries it is given it keeps exactly those
    that are neither, such as a dangling symbolic link.  [list_entries] is
    assumed to return children of the directory it is given, under names
    that are not empty and do not start with [/]. *)
Theorem candidates_as_whitelist_keep_no_file_or_directory (E : Env)
  (P Pc : Params) (fuel : nat) (st : CollectState) (wl : list string)
  (entry_list : list path) :
  lists_named_children E ->
  PyStr.startswith (root_name E) "/" = false ->
  collect_candidate_files E Pc fuel = Ret tt st ->
  incl wl (rel_files st) ->
  whitelist P = Some wl ->
  Forall (fun f => PyStr.startswith f "/" = false) (rel_files st)
  /\ whitelist_filter E P entry_list
     = filter (fun entry => negb (is_file E entry || is_dir E entry))
              entry_list.
Proof.
  intros Hnamed Hroot Hrun Hincl Hwl.
  pose proof (@collect_candidate_files_relative E Pc Hnamed fuel st Hroot Hrun)
    as Hrel.
  split; [exact Hrel|].
  unfold whitelist_filter. rewrite Hwl. apply filter_ext. intros entry.
  destruct (is_file E entry || is_dir E entry) eqn:Hkind.
  - apply relative_whitelist_keeps_no_file_or_directory; [|exact Hkind].
    intros f Hf. rewrite Forall_forall in Hrel. apply Hrel, Hincl, Hf.
  - apply orb_false_elim in Hkind. destruct Hkind as [Hf Hd].
    unfold whitelist_keeps. now rewrite Hf, Hd.
Qed.

Lemma candidates_as_whitelist_keep_no_file_or_directory_witness :
  Forall (fun f => PyStr.startswith f "/" = false) ["a.py"; "link"]
  /\ whitelist_filter dangling_env
       (with_whitelist (Some ["a.py"; "link"]) default_params)
       [["a.py"]; ["link"]]
     = filter (fun entry => negb (is_file dangling_env entry
                                  || is_dir dangling_env entry))
              [["a.py"]; ["link"]].
Proof.
  apply (@candidates_as_whitelist_keep_no_file_or_directory dangling_env
           (with_whitelist (Some ["a.py"; "link"]) default_params)
           default_params 2
           {| rel_files := ["a.py"; "link"]; c_listed := [([], [])] |}
           ["a.py"; "link"] [["a.py"]; ["link"]]).
  - exact env_of_lists_named_children_dangling.
  - reflexivity.
  - vm_compute. reflexivity.
  - apply incl_refl.
  - reflexivity.
Defined.

(** ** The rules a directory contributes *)

Lemma startswith_append (a x : ascii) (pre body : string) :
  PyStr.startswith (String a pre ++ body) (String x EmptyString)
  = Ascii.eqb a x.
Proof.
  change (String a pre ++ body) with (String a (pre ++ body)).
  apply startswith_char.
Qed.

Lemma spec_rules_read_back (a : ascii) (pre : string) (lines : list string) :
  Ascii.eqb a "!"%char = false ->
  Forall2 (reads_as (String a pre))
          (filter (fun line =>
                     negb ((line =? "")%string || PyStr.startswith line "#"))
                  (map PyStr.strip lines))
          (spec_rules (String a pre) lines).
Proof.
  intros Ha. induction lines as [|line lines IH]; [constructor|].
  unfold spec_rules. cbn [map filter flat_map]. fold (spec_rules (String a pre) lines).
  unfold spec_line_rule.
  destruct (PyStr.strip line) as [|c rest] eqn:Hline.
  - exact IH.
  - rewrite startswith_char.
    change (String c rest =? "")%string with false. cbn [orb].
    destruct (Ascii.eqb c "#"%char); [exact IH|].
    cbn [negb]. destruct (Ascii.eqb c "!"%char) eqn:Hc; cbn [app];
      (constructor; [|exact IH]);
      unfold reads_as, PatternSet.glob_text, PatternSet.negated;
      rewrite startswith_char, Hc.
    + change ("!" ++ String a pre ++ PyStr.lstrip_char "/" rest)
        with (String "!"%char (String a pre ++ PyStr.lstrip_char "/" rest)).
      rewrite startswith_char. split; reflexivity.
    + rewrite startswith_append, Ha. split; reflexivity.
Qed.

(** Extra X5.  In a directory other than the root whose relative path does
    not start with [!], the [.gitignore] block adds one rule for each line
    it does not skip, in the order of the lines and after the inherited
    rules, and each rule reads as its line: it starts with [!] exactly
    when the line does, and what follows the [!] mark is the directory's
    path, a [/], and the line's own text without its mark and without its
    leading [/]. *)
Theorem rules_below_the_root_read_as_their_lines (E : Env) (P : Params)
  (dirpath : path) (inherited : list string) (text : string) :
  respect_gitignore P && within_depth E (gitignore_depth P) dirpath = true ->
  is_file E (child dirpath ".gitignore") = true ->
  read_text E (child dirpath ".gitignore") = Ok text ->
  (as_posix dirpath =? ".")%string = false ->
  PyStr.startswith (as_posix dirpath) "!" = false ->
  exists own,
    extend_patterns E P dirpath inherited = Ok (inherited ++ own)%list
    /\ Forall2 (reads_as (as_posix dirpath ++ "/")) (rule_lines text) own.
Proof.
  intros Hgi Hfile Hread Hroot Hbang.
  unfold extend_patterns. rewrite Hgi, Hfile, Hread.
  rewrite fold_add_gitignore_line. unfold prefix_path. rewrite Hroot.
  eexists. split; [reflexivity|]. unfold rule_lines.
  destruct (as_posix dirpath) as [|a rest].
  - apply (spec_rules_read_back "/"%char EmptyString). reflexivity.
  - rewrite startswith_char in Hbang.
    apply (spec_rules_read_back a (rest ++ "/")). exact Hbang.
Qed.

Lemma rules_below_the_root_read_as_their_lines_witness :
  exists own,
    extend_patterns siblings_env default_params ["b"] ["*.log"; "!keep.log"]
    = Ok (["*.log"; "!keep.log"] ++ own)%list
    /\ Forall2 (reads_as (as_posix ["b"] ++ "/"))
               (rule_lines ("# notes" ++ nl ++ "!tmp" ++ nl)) own.
Proof.
  apply (@rules_below_the_root_read_as_their_lines siblings_env default_params
           ["b"] ["*.log"; "!keep.log"] ("# notes" ++ nl ++ "!tmp" ++ nl)).
  - reflexivity.
  - reflexivity.
  - reflexivity.
  - reflexivity.
  - reflexivity.
Defined.

(** At the root the prefix is empty, and a line can give a rule that does
    not read as the line: [/!keep] names the file [!keep] of the root, and
    the rule it gives, [!keep], is a negation. *)
Example root_rule_reads_as_a_negation :
  extend_patterns
    (env_of ["p"] (FsDir "p" [FsFile ".gitignore" (Ok ("/!keep" ++ nl))]))
    default_params [] []
  = Ok ["!keep"]
  /\ PatternSet.negated "!keep" = true
  /\ PyStr.startswith "/!keep" "!" = false.
Proof. repeat split. Qed.

(** ** Invariants of the recorded calls of [list_entries] *)

Section CallInvariant.

Variable E : Env.
Variable P : Params.

(** [R dirpath current_depth patterns] is a property of the arguments of a
    call of [rec]; [Q] is a property of a recorded call of
    [list_entries]. *)
Variable R : path -> Z -> list string -> Prop.
Variable Q : path * list string -> Prop.

Hypothesis Hlist :
  forall dirpath current_depth patterns extended,
    R dirpath current_depth patterns ->
    depth_reached P current_depth = false ->
    extend_patterns E P dirpath patterns = Ok extended ->
    Q (dirpath, extended).

Hypothesis Hdown :
  forall dirpath current_depth patterns extended a entry,
    R dirpath current_depth patterns ->
    depth_reached P current_depth = false ->
    extend_patterns E P dirpath patterns = Ok extended ->
    In entry (fst (list_entries E dirpath extended a)) ->
    R entry (current_depth + 1) extended.

Lemma Forall_snoc {A} (F : A -> Prop) (l : list A) (x : A) :
  Forall F l -> F x -> Forall F (l ++ [x])%list.
Proof.
  intros Hl Hx. apply Forall_app. split; [exact Hl|].
  constructor; [exact Hx|constructor].
Qed.

Lemma whitelist_filter_In (entry_list : list path) (entry : path) :
  In entry (whitelist_filter E P entry_list) -> In entry entry_list.
Proof.
  unfold whitelist_filter. destruct (whitelist P); [|trivial].
  intros H. apply filter_In in H. tauto.
Qed.

Lemma hoare_emit {B : Type} {OB : OutputBufferLike B}
  (I : DrawState B -> Prop) (line : string) :
  (forall st b, I st -> I (set_out b st)) ->
  hoare I (emit line) (fun _ => I).
Proof.
  intros HI s Hs. unfold emit.
  destruct (write (out s) line); [now apply HI|exact Logic.I].
Qed.

Lemma draw_rec_calls {B : Type} {OB : OutputBufferLike B} (fuel : nat) :
  forall dirpath prefix current_depth patterns,
    R dirpath current_depth patterns ->
    hoare (fun st : DrawState B => Forall Q (listed st))
          (draw_rec E P fuel dirpath prefix current_depth patterns)
          (fun _ st => Forall Q (listed st)).
Proof.
  induction fuel as [|fuel IH]; intros dirpath prefix current_depth patterns HR.
  - intros s _. exact Logic.I.
  - simpl. destruct (depth_reached P current_depth) eqn:Hdepth;
      [apply hoare_ret|].
    apply hoare_bind_lift. intros extended Hext.
    apply hoare_bind_lift. intros _ _.
    apply hoare_bind.
    { apply hoare_modify. intros s Hs. apply Forall_snoc; [exact Hs|].
      exact (Hlist HR Hdepth Hext). }
    intros _.
    destruct (list_entries E dirpath extended (list_args_draw P))
      as [entry_list truncated] eqn:Hle.
    apply hoare_bind_lift. intros _ _.
    apply hoare_bind.
    { apply hoare_when. intros _. apply hoare_modify. trivial. }
    intros _. apply hoare_bind.
    { apply hoare_when. intros _. apply hoare_modify. trivial. }
    intros _.
    assert (Hrec : forall entry pre,
               In entry (whitelist_filter E P entry_list) ->
               hoare (fun st : DrawState B => Forall Q (listed st))
                     (draw_rec E P fuel entry pre (current_depth + 1) extended)
                     (fun _ st => Forall Q (listed st))).
    { intros entry pre Hin. apply IH.
      apply whitelist_filter_In in Hin.
      apply (Hdown (list_args_draw P) entry HR Hdepth Hext).
      now rewrite Hle. }
    apply hoare_bind.
    { apply hoare_for_enumerate. intros i entry Hin.
      apply hoare_bind_get. intros st.
      destruct (cap_reached P (entries st)).
      - apply hoare_bind; [apply hoare_modify; trivial|]. intros _.
        apply hoare_bind; [apply hoare_modify; trivial|]. intros _.
        apply hoare_when. intros _. now apply Hrec.
      - apply hoare_bind_lift. intros line _.
        apply hoare_bind; [apply hoare_emit; trivial|]. intros _.
        apply hoare_bind; [apply hoare_modify; trivial|]. intros _.
        apply hoare_when. intros _. now apply Hrec. }
    intros _. apply hoare_when. intros _.
    apply hoare_bind_get. intros st.
    destruct (cap_reached P (entries st)).
    + apply hoare_bind; [apply hoare_modify; trivial|]. intros _.
      apply hoare_modify; trivial.
    + apply hoare_bind; [apply hoare_emit; trivial|].
      intros _. apply hoare_modify; trivial.
Qed.

Lemma collect_rec_calls (fuel : nat) :
  forall dirpath current_depth patterns,
    R dirpath current_depth patterns ->
    hoare (fun st => Forall Q (c_listed st))
          (collect_rec E P fuel dirpath current_depth patterns)
          (fun _ st => Forall Q (c_listed st)).
Proof.
  induction fuel as [|fuel IH]; intros dirpath current_depth patterns HR.
  - intros s _. exact Logic.I.
  - simpl. destruct (depth_reached P current_depth) eqn:Hdepth;
      [apply hoare_ret|].
    apply hoare_bind_lift. intros extended Hext.
    apply hoare_bind_lift. intros _ _.
    apply hoare_bind.
    { apply hoare_modify. intros s Hs. apply Forall_snoc; [exact Hs|].
      exact (Hlist HR Hdepth Hext). }
    intros _.
    destruct (list_entries E dirpath extended (list_args_collect P))
      as [entry_list truncated] eqn:Hle.
    apply hoare_for_enumerate. intros i entry Hin.
    destruct (is_dir E entry).
    + apply IH. apply (Hdown (list_args_collect P) entry HR Hdepth Hext).
      now rewrite Hle.
    + apply hoare_modify. trivial.
Qed.

Lemma build_children_calls
  (recurse : path -> M BuildState (list tnode)) (entry_list : list path) :
  (forall entry, In entry entry_list ->
     hoare (fun st => Forall Q (b_listed st)) (recurse entry)
           (fun _ st => Forall Q (b_listed st))) ->
  forall children,
    hoare (fun st => Forall Q (b_listed st))
          (build_children E P recurse entry_list children)
          (fun _ st => Forall Q (b_listed st)).
Proof.
  induction entry_list as [|entry rest IH]; intros Hrec children; simpl.
  - apply hoare_ret.
  - assert (Hrest : forall c,
               hoare (fun st => Forall Q (b_listed st))
                     (build_children E P recurse rest c)
                     (fun _ st => Forall Q (b_listed st))).
    { intros c. apply IH. intros e He. apply Hrec. now right. }
    apply hoare_bind_get. intros st.
    destruct (stop_writing st); [apply hoare_ret|].
    destruct (cap_reached P (b_entries st)).
    { apply hoare_bind; [apply hoare_modify; trivial|]. intros _.
      apply hoare_ret. }
    destruct (is_file E entry).
    { apply hoare_bind; [apply hoare_modify; trivial|]. intros _.
      apply Hrest. }
    destruct (is_dir E entry); [|apply Hrest].
    apply hoare_bind; [apply hoare_modify; trivial|]. intros _.
    apply hoare_bind; [apply Hrec; now left|]. intros kids. apply Hrest.
Qed.

Lemma build_rec_calls (fuel : nat) :
  forall dirpath current_depth patterns,
    R dirpath current_depth patterns ->
    hoare (fun st => Forall Q (b_listed st))
          (build_rec E P fuel dirpath current_depth patterns)
          (fun _ st => Forall Q (b_listed st)).
Proof.
  induction fuel as [|fuel IH]; intros dirpath current_depth patterns HR.
  - intros s _. exact Logic.I.
  - simpl. destruct (depth_reached P current_depth) eqn:Hdepth;
      [apply hoare_ret|].
    apply hoare_bind_get. intros st0.
    destruct (stop_writing st0); [apply hoare_ret|].
    apply hoare_bind_lift. intros extended Hext.
    apply hoare_bind_lift. intros _ _.
    apply hoare_bind.
    { apply hoare_modify. intros s Hs. apply Forall_snoc; [exact Hs|].
      exact (Hlist HR Hdepth Hext). }
    intros _.
    destruct (list_entries E dirpath extended (list_args_build P))
      as [entry_list truncated] eqn:Hle.
    apply hoare_bind.
    { apply build_children_calls. intros entry Hin. apply IH.
      apply whitelist_filter_In in Hin.
      apply (Hdown (list_args_build P) entry HR Hdepth Hext).
      now rewrite Hle. }
    intros children. apply hoare_bind_get. intros st.
    destruct ((0 <? truncated) && negb (stop_writing st)).
    + apply hoare_bind; [apply hoare_modify; trivial|]. intros _.
      apply hoare_ret.
    + apply hoare_ret.
Qed.

Hypothesis Hroot : R [] 0 [].

Lemma draw_tree_calls {B : Type} {OB : OutputBufferLike B} (fuel : nat)
  (ob : B) (st : DrawState B) :
  draw_tree E P fuel ob = Ret tt st -> Forall Q (listed st).
Proof.
  unfold draw_tree. intros Hrun.
  match type of Hrun with
  | ?m _ = _ =>
      assert (H : hoare (fun st : DrawState B => Forall Q (listed st))
                        m (fun _ st => Forall Q (listed st)))
  end.
  { apply hoare_bind; [apply hoare_emit; trivial|].
    intros _. apply hoare_bind.
    { apply hoare_when. intros _. now apply draw_rec_calls. }
    intros _. apply hoare_bind_get. intros s.
    apply hoare_bind; [apply hoare_when; intros _; apply hoare_modify; trivial|].
    intros _.
    apply hoare_bind; [apply hoare_when; intros _; apply hoare_modify; trivial|].
    intros _.
    destruct (truncation_prefix s); [|apply hoare_ret].
    destruct (max_entries P).
    - apply hoare_emit; trivial.
    - intros s' _. exact Logic.I. }
  specialize (H (draw_init ob) (Forall_nil _)).
  rewrite Hrun in H. exact H.
Qed.

Lemma collect_candidate_files_calls (fuel : nat) (st : CollectState) :
  collect_candidate_files E P fuel = Ret tt st -> Forall Q (c_listed st).
Proof.
  unfold collect_candidate_files. intros Hrun.
  match type of Hrun with
  | ?m _ = _ =>
      assert (H : hoare (fun st => Forall Q (c_listed st))
                        m (fun _ st => Forall Q (c_listed st)))
  end.
  { destruct (is_dir E []).
    - now apply collect_rec_calls.
    - apply hoare_when. intros _. apply hoare_modify. trivial. }
  specialize (H collect_init (Forall_nil _)).
  rewrite Hrun in H. exact H.
Qed.

Lemma build_tree_data_calls (fuel : nat) (tree : tnode) (st : BuildState) :
  build_tree_data E P fuel = Ret tree st -> Forall Q (b_listed st).
Proof.
  unfold build_tree_data. intros Hrun.
  match type of Hrun with
  | ?m _ = _ =>
      assert (H : hoare (fun st => Forall Q (b_listed st))
                        m (fun _ st => Forall Q (b_listed st)))
  end.
  { destruct (is_dir E []).
    - apply hoare_bind; [now apply build_rec_calls|].
      intros children. apply hoare_ret.
    - apply hoare_ret. }
  specialize (H build_init (Forall_nil _)).
  rewrite Hrun in H. exact H.
Qed.

End CallInvariant.

(** Extra X6.  With [depth = d], no traversal lists a directory that lies [d] or
    more levels below the root, as long as [list_entries] returns children
    of the directory it is given. *)
Theorem no_directory_listed_at_the_depth_limit (E : Env) (P : Params)
  (d : Z) (fuel : nat) :
  lists_children E ->
  depth P = Some d ->
  let shallow (call : path * list string) :=
    Z.of_nat (length (fst call)) < d in
  (forall (ob : LineBuffer) st,
      draw_tree E P fuel ob = Ret tt st -> Forall shallow (listed st))
  /\ (forall tree st,
         build_tree_data E P fuel = Ret tree st -> Forall shallow (b_listed st))
  /\ (forall st,
         collect_candidate_files E P fuel = Ret tt st ->
         Forall shallow (c_listed st)).
Proof.
  intros Hchildren Hdepth shallow.
  pose (R := fun (dirpath : path) (n : Z) (_ : list string) =>
               n = Z.of_nat (length dirpath)).
  assert (Hlist : forall dirpath current_depth patterns extended,
             R dirpath current_depth patterns ->
             depth_reached P current_depth = false ->
             extend_patterns E P dirpath patterns = Ok extended ->
             shallow (dirpath, extended)).
  { intros dirpath n patterns extended -> Hreached _.
    unfold depth_reached in Hreached. rewrite Hdepth in Hreached.
    unfold shallow. simpl. apply Z.leb_gt in Hreached. exact Hreached. }
  assert (Hdown : forall dirpath current_depth patterns extended a entry,
             R dirpath current_depth patterns ->
             depth_reached P current_depth = false ->
             extend_patterns E P dirpath patterns = Ok extended ->
             In entry (fst (list_entries E dirpath extended a)) ->
             R entry (current_depth + 1) extended).
  { intros dirpath n patterns extended a entry -> _ _ Hin.
    destruct (Hchildren dirpath extended a entry Hin) as [name ->].
    unfold R, child. rewrite length_app. simpl. lia. }
  assert (Hroot : R [] 0 []) by reflexivity.
  split; [|split].
  - intros ob st. now apply (@draw_tree_calls E P R _ Hlist Hdown Hroot).
  - intros tree st. now apply (@build_tree_data_calls E P R _ Hlist Hdown Hroot).
  - intros st. now apply (@collect_candidate_files_calls E P R _ Hlist Hdown Hroot).
Qed.

Lemma no_directory_listed_at_the_depth_limit_witness :
  let shallow (call : path * list string) :=
    Z.of_nat (length (fst call)) < 1 in
  (forall (ob : LineBuffer) st,
      draw_tree scenario_env (with_depth (Some 1) default_params) 3 ob
      = Ret tt st -> Forall shallow (listed st))
  /\ (forall tree st,
         build_tree_data scenario_env (with_depth (Some 1) default_params) 3
         = Ret tree st -> Forall shallow (b_listed st))
  /\ (forall st,
         collect_candidate_files scenario_env
           (with_depth (Some 1) default_params) 3 = Ret tt st ->
         Forall shallow (c_listed st)).
Proof.
  apply (@no_directory_listed_at_the_depth_limit scenario_env
           (with_depth (Some 1) default_params) 1 3).
  - apply env_of_lists_children.
  - reflexivity.
Defined.

(** Extra X7.  With [respect_gitignore] off, every call of [list_entries], in each of
    the three traversals, is given the empty pattern list: no [.gitignore]
    is read. *)
Theorem no_gitignore_no_patterns (E : Env) (P : Params) (fuel : nat) :
  respect_gitignore P = false ->
  let bare (call : path * list string) := snd call = [] in
  (forall (ob : LineBuffer) st,
      draw_tree E P fuel ob = Ret tt st -> Forall bare (listed st))
  /\ (forall tree st,
         build_tree_data E P fuel = Ret tree st -> Forall bare (b_listed st))
  /\ (forall st,
         collect_candidate_files E P fuel = Ret tt st ->
         Forall bare (c_listed st)).
Proof.
  intros Hgi bare.
  pose (R := fun (_ : path) (_ : Z) (patterns : list string) =>
               patterns = @nil string).
  assert (Hext : forall dirpath patterns extended,
             extend_patterns E P dirpath patterns = Ok extended ->
             extended = patterns).
  { intros dirpath patterns extended. unfold extend_patterns.
    rewrite Hgi. simpl. now intros [= <-]. }
  assert (Hlist : forall dirpath current_depth patterns extended,
             R dirpath current_depth patterns ->
             depth_reached P current_depth = false ->
             extend_patterns E P dirpath patterns = Ok extended ->
             bare (dirpath, extended)).
  { intros dirpath n patterns extended -> _ H. exact (Hext _ _ _ H). }
  assert (Hdown : forall dirpath current_depth patterns extended a entry,
             R dirpath current_depth patterns ->
             depth_reached P current_depth = false ->
             extend_patterns E P dirpath patterns = Ok extended ->
             In entry (fst (list_entries E dirpath extended a)) ->
             R entry (current_depth + 1) extended).
  { intros dirpath n patterns extended a entry -> _ H _. exact (Hext _ _ _ H). }
  assert (Hroot : R [] 0 []) by reflexivity.
  split; [|split].
  - intros ob st. now apply (@draw_tree_calls E P R _ Hlist Hdown Hroot).
  - intros tree st. now apply (@build_tree_data_calls E P R _ Hlist Hdown Hroot).
  - intros st. now apply (@collect_candidate_files_calls E P R _ Hlist Hdown Hroot).
Qed.

Lemma no_gitignore_no_patterns_witness :
  let P := {| depth := None; show_all := false; extra_excludes := [];
              respect_gitignore := false; gitignore_depth := None;
              max_items := None; max_entries := None; no_limit := false;
              exclude_depth := None; no_files := false; emoji := false;
              no_color := true; whitelist := None; include_patterns := [];
              include_file_types := []; files_first := false;
              include_contents := false; no_contents_for := [] |} in
  let bare (call : path * list string) := snd call = [] in
  (forall (ob : LineBuffer) st,
      draw_tree siblings_env P 4 ob = Ret tt st -> Forall bare (listed st))
  /\ (forall tree st,
         build_tree_data siblings_env P 4 = Ret tree st ->
         Forall bare (b_listed st))
  /\ (forall st,
         collect_candidate_files siblings_env P 4 = Ret tt st ->
         Forall bare (c_listed st)).
Proof.
  intros P. apply (@no_gitignore_no_patterns siblings_env P 4). reflexivity.
Defined.

(** ** Depth limits at or below zero *)



(** ** The candidates of the selection *)

Section Candidates.

Variable E : Env.
Variable P : Params.

Lemma from_listing_app (l1 l2 : list (path * list string)) (f : string) :
  from_listing E P (l1 ++ l2) f
  <-> from_listing E P l1 f \/ from_listing E P l2 f.
Proof.
  split.
  - intros (d & pats & e & Hin & H). apply in_app_or in Hin.
    destruct Hin as [Hin|Hin]; [left|right]; exists d, pats, e; now split.
  - intros [(d & pats & e & Hin & H)|(d & pats & e & Hin & H)];
      exists d, pats, e; (split; [apply in_or_app; auto|exact H]).
Qed.

Lemma from_listing_nil (f : string) : ~ from_listing E P [] f.
Proof. intros (d & pats & e & [] & _). Qed.

Lemma from_listing_one (dirpath : path) (patterns : list string) (f : string) :
  from_listing E P [(dirpath, patterns)] f
  <-> exists entry,
        In entry (fst (list_entries E dirpath patterns (list_args_collect P)))
        /\ is_dir E entry = false /\ f = as_posix entry.
Proof.
  split.
  - intros (d & pats & e & [Heq|[]] & Hrest).
    injection Heq as <- <-. now exists e.
  - intros (e & H). exists dirpath, patterns, e. split; [now left|exact H].
Qed.

(** What one call of [rec] does after its depth test. *)
Lemma collect_rec_run (fuel : nat) (dirpath : path) (current_depth : Z)
  (patterns : list string) (s : CollectState) :
  collect_rec E P (S fuel) dirpath current_depth patterns s
  = if depth_reached P current_depth then Ret tt s
    else
      match extend_patterns E P dirpath patterns with
      | Raise e => Exc e
      | Ok extended =>
          match from_lines E extended with
          | Raise e => Exc e
          | Ok _ =>
              for_enumerate
                (fst (list_entries E dirpath extended (list_args_collect P)))
                0
                (fun _ entry =>
                   if is_dir E entry then
                     collect_rec E P fuel entry (current_depth + 1) extended
                   else modify (c_append (as_posix entry)))
                (c_note_listed dirpath extended s)
          end
      end.
Proof.
  cbn [collect_rec]. destruct (depth_reached P current_depth); [reflexivity|].
  unfold bind at 1.
  destruct (extend_patterns E P dirpath patterns) as [extended|e];
    [|reflexivity].
  cbn [lift]. unfold ret at 1. unfold bind at 1.
  destruct (from_lines E extended) as [[]|e]; [|reflexivity].
  cbn [lift]. unfold ret at 1. unfold bind at 1. unfold modify at 1.
  now destruct (list_entries E dirpath extended (list_args_collect P)).
Qed.

Section Loop.

Variable fuel : nat.
Variable current_depth : Z.
Variable extended : list string.

Hypothesis IH :
  forall dirpath s,
    match collect_rec E P fuel dirpath current_depth extended s with
    | Ret _ s' => gathered E P s s'
    | _ => True
    end.

(** The loop over the entries: the candidates appended come from the
    calls recorded below, or are the entries of [todo] that are no
    directory. *)
Lemma collect_loop_gathered (todo : list path) :
  forall i s,
    match for_enumerate todo i
            (fun _ entry =>
               if is_dir E entry then
                 collect_rec E P fuel entry current_depth extended
               else modify (c_append (as_posix entry))) s with
    | Ret _ s' =>
        exists files calls,
          rel_files s' = (rel_files s ++ files)%list
          /\ c_listed s' = (c_listed s ++ calls)%list
          /\ forall f,
               In f files
               <-> from_listing E P calls f
                   \/ exists entry,
                        In entry todo /\ is_dir E entry = false
                        /\ f = as_posix entry
    | _ => True
    end.
Proof.
  induction todo as [|entry todo IHtodo]; intros i s.
  - cbn [for_enumerate]. unfold ret. exists [], [].
    rewrite !app_nil_r. split; [reflexivity|]. split; [reflexivity|].
    intros f. split; [intros []|].
    intros [H|(e & [] & _)]. now apply from_listing_nil in H.
  - cbn [for_enumerate]. unfold bind.
    destruct (is_dir E entry) eqn:Hdir.
    + pose proof (IH entry s) as Hrec.
      destruct (collect_rec E P fuel entry current_depth extended s)
        as [[] s1| |]; [|exact Logic.I|exact Logic.I].
      destruct Hrec as (files1 & calls1 & Hf1 & Hc1 & H1).
      specialize (IHtodo (i + 1) s1).
      match goal with
      | |- match ?m with _ => _ end =>
          destruct m as [[] s'| |]; [|exact Logic.I|exact Logic.I]
      end.
      destruct IHtodo as (files2 & calls2 & Hf2 & Hc2 & H2).
      exists (files1 ++ files2)%list, (calls1 ++ calls2)%list.
      split; [now rewrite Hf2, Hf1, app_assoc|].
      split; [now rewrite Hc2, Hc1, app_assoc|].
      intros f. rewrite in_app_iff, H1, H2, from_listing_app.
      split.
      * intros [H|[H|(e & He & Hk & Hf)]]; [tauto|tauto|].
        right. exists e. split; [now right|now split].
      * intros [[H|H]|(e & [<-|He] & Hk & Hf)]; [tauto|tauto|congruence|].
        right. right. exists e. now split.
    + unfold modify at 1.
      specialize (IHtodo (i + 1) (c_append (as_posix entry) s)).
      match goal with
      | |- match ?m with _ => _ end =>
          destruct m as [[] s'| |]; [|exact Logic.I|exact Logic.I]
      end.
      destruct IHtodo as (files2 & calls2 & Hf2 & Hc2 & H2).
      exists (as_posix entry :: files2), calls2.
      split; [rewrite Hf2; cbn [rel_files c_append]; now rewrite <- app_assoc|].
      split; [exact Hc2|].
      intros f. cbn [In]. rewrite H2. split.
      * intros [<-|[H|(e & He & Hk & Hf)]].
        -- right. exists entry. split; [now left|now split].
        -- now left.
        -- right. exists e. split; [now right|now split].
      * intros [H|(e & [<-|He] & Hk & Hf)].
        -- right. now left.
        -- left. now symmetry.
        -- right. right. exists e. now split.
Qed.

End Loop.

Lemma collect_rec_gathered (fuel : nat) :
  forall dirpath current_depth patterns s,
    match collect_rec E P fuel dirpath current_depth patterns s with
    | Ret _ s' => gathered E P s s'
    | _ => True
    end.
Proof.
  induction fuel as [|fuel IH]; intros dirpath current_depth patterns s.
  - exact Logic.I.
  - rewrite collect_rec_run.
    destruct (depth_reached P current_depth).
    { exists [], []. rewrite !app_nil_r. split; [reflexivity|].
      split; [reflexivity|]. intros f. split; [intros []|].
      intros H. now apply from_listing_nil in H. }
    destruct (extend_patterns E P dirpath patterns) as [extended|e];
      [|exact Logic.I].
    destruct (from_lines E extended) as [[]|e]; [|exact Logic.I].
    pose proof (collect_loop_gathered fuel (current_depth + 1) extended
                  (fun d s0 => IH d (current_depth + 1) extended s0)
                  (fst (list_entries E dirpath extended (list_args_collect P)))
                  0 (c_note_listed dirpath extended s)) as Hloop.
    match goal with
    | |- match ?m with _ => _ end =>
        destruct m as [[] s'| |]; [|exact Logic.I|exact Logic.I]
    end.
    destruct Hloop as (files & calls & Hf & Hc & H).
    exists files, ((dirpath, extended) :: calls).
    split; [exact Hf|].
    split; [rewrite Hc; cbn [c_listed c_note_listed]; now rewrite <- app_assoc|].
    intros f. rewrite H.
    change ((dirpath, extended) :: calls)
      with ([(dirpath, extended)] ++ calls)%list.
    rewrite from_listing_app, from_listing_one. tauto.
Qed.

End Candidates.

(** Extra X9.  On a directory, the candidates that
    [collect_candidate_files] returns are exactly what its calls of
    [list_entries] returned and is no directory, by root-relative path:
    every candidate is the path of such an entry, and every such entry of
    every call is among the candidates. *)
Theorem candidates_are_the_listed_non_directories (E : Env) (P : Params)
  (fuel : nat) (st : CollectState) :
  is_dir E [] = true ->
  collect_candidate_files E P fuel = Ret tt st ->
  forall f, In f (rel_files st) <-> from_listing E P (c_listed st) f.
Proof.
  unfold collect_candidate_files. intros -> Hrun.
  pose proof (collect_rec_gathered E P fuel [] 0 [] collect_init) as H.
  rewrite Hrun in H. destruct H as (files & calls & Hf & Hc & H).
  cbn [rel_files c_listed collect_init app] in Hf, Hc.
  rewrite Hf, Hc. exact H.
Qed.

Lemma candidates_are_the_listed_non_directories_witness :
  In "src/main.py" ["src/main.py"]
  <-> from_listing scenario_env default_params
        [([], []); (["src"], ["src/*.pyc"])] "src/main.py".
Proof.
  apply (@candidates_are_the_listed_non_directories scenario_env
           default_params 3
           {| rel_files := ["src/main.py"];
              c_listed := [([], []); (["src"], ["src/*.pyc"])] |}).
  - reflexivity.
  - vm_compute. reflexivity.
Defined.

(** ** Triples with a precondition and a postcondition *)

Section HoareSeq.

Context {S : Type}.

Lemma hoare_seq {A B} (I : S -> Prop) (J : A -> S -> Prop)
  (K : B -> S -> Prop) (m : M S A) (k : A -> M S B) :
  hoare I m J -> (forall a, hoare (J a) (k a) K) -> hoare I (bind m k) K.
Proof.
  intros Hm Hk s Hs. unfold bind. specialize (Hm s Hs).
  destruct (m s) as [a s'| |]; [|exact Logic.I|exact Logic.I].
  exact (Hk a s' Hm).
Qed.

Lemma hoare_pre {A} (I I' : S -> Prop) (J : A -> S -> Prop) (m : M S A) :
  (forall s, I s -> I' s) -> hoare I' m J -> hoare I m J.
Proof. intros HI Hm s Hs. exact (Hm s (HI s Hs)). Qed.

Lemma hoare_post {A} (I : S -> Prop) (J J' : A -> S -> Prop) (m : M S A) :
  (forall a s, J a s -> J' a s) -> hoare I m J -> hoare I m J'.
Proof.
  intros HJ Hm s Hs. specialize (Hm s Hs).
  destruct (m s) as [a s'| |]; [now apply HJ|exact Logic.I|exact Logic.I].
Qed.

Lemma hoare_get_eq {B} (I : S -> Prop) (K : B -> S -> Prop)
  (k : S -> M S B) :
  (forall a, I a -> hoare (fun s => s = a) (k a) K) ->
  hoare I (bind get k) K.
Proof. intros Hk s Hs. exact (Hk s Hs s eq_refl). Qed.

Lemma hoare_modify_to (I J : S -> Prop) (f : S -> S) :
  (forall s, I s -> J (f s)) -> hoare I (modify f) (fun _ => J).
Proof. intros Hf s Hs. exact (Hf s Hs). Qed.

Lemma hoare_lift_to {A B} (I : S -> Prop) (K : B -> S -> Prop)
  (r : result A) (k : A -> M S B) :
  (forall a, r = Ok a -> hoare I (k a) K) -> hoare I (bind (lift r) k) K.
Proof.
  intros Hk s Hs. unfold bind, lift.
  destruct r as [a|e]; simpl; [|exact Logic.I].
  exact (Hk a eq_refl s Hs).
Qed.

End HoareSeq.

(** ** The entry count of [draw_tree] *)

Section Counted.

Variable E : Env.
Variable P : Params.
Variable before : Z.

Local Notation "'St'" := (DrawState LineBuffer).

Lemma counted_listed (dirpath : path) (patterns : list string) (st : St) :
  counted P before st -> counted P before (note_listed dirpath patterns st).
Proof. trivial. Qed.

Lemma counted_hidden (prefix : string) (st : St) :
  counted P before st ->
  cap_reached P (entries st) = true ->
  counted P before (incr_entries (note_truncation prefix st)).
Proof.
  unfold counted, cap_reached. intros [Hone H] Hcap. simpl.
  split; [lia|].
  destruct (max_entries P) as [m|]; [|discriminate].
  apply Z.leb_le in Hcap.
  destruct (truncation_prefix st) as [tp|].
  - destruct H as (m' & [= <-] & Hlen & Hlt).
    exists m. split; [reflexivity|]. split; [exact Hlen|lia].
  - destruct H as [Hlen Hle]. specialize (Hle m eq_refl).
    exists m. split; [reflexivity|]. split; lia.
Qed.

Lemma counted_shown (line : string) (st : St) :
  counted P before st ->
  cap_reached P (entries st) = false ->
  counted P before (incr_entries (set_out (out st ++ [line])%list st)).
Proof.
  unfold counted, cap_reached. intros [Hone H] Hcap. simpl.
  unfold LineBuffer in *.
  split; [lia|].
  destruct (truncation_prefix st) as [tp|].
  - destruct H as (m & Hm & Hlen & Hlt). rewrite Hm in Hcap.
    apply Z.leb_gt in Hcap. lia.
  - destruct H as [Hlen Hle]. rewrite length_app. simpl. split; [lia|].
    intros m Hm. rewrite Hm in Hcap. apply Z.leb_gt in Hcap. lia.
Qed.

Lemma hoare_emit_incr (line : string) (st : St) :
  counted P before st ->
  cap_reached P (entries st) = false ->
  hoare (fun s : St => s = st)
        (emit line ;; modify incr_entries)
        (fun _ => counted P before).
Proof.
  intros Hc Hcap s ->. unfold bind, emit, modify. simpl.
  now apply counted_shown.
Qed.

Lemma hoare_hide (prefix : string) (st : St) :
  counted P before st ->
  cap_reached P (entries st) = true ->
  hoare (fun s : St => s = st)
        (modify (note_truncation prefix) ;; modify incr_entries)
        (fun _ => counted P before).
Proof.
  intros Hc Hcap s ->. unfold bind, modify. now apply counted_hidden.
Qed.

Lemma draw_rec_counted (fuel : nat) :
  forall dirpath prefix current_depth patterns,
    hoare (counted P before)
          (draw_rec E P fuel dirpath prefix current_depth patterns)
          (fun _ => counted P before).
Proof.
  induction fuel as [|fuel IH]; intros dirpath prefix current_depth patterns.
  - intros s _. exact Logic.I.
  - simpl. destruct (depth_reached P current_depth); [apply hoare_ret|].
    apply hoare_bind_lift. intros extended _.
    apply hoare_bind_lift. intros _ _.
    apply hoare_bind; [apply hoare_modify; trivial|]. intros _.
    destruct (list_entries E dirpath extended (list_args_draw P))
      as [entry_list truncated].
    apply hoare_bind_lift. intros _ _.
    apply hoare_bind.
    { apply hoare_when. intros _. apply hoare_modify. trivial. }
    intros _. apply hoare_bind.
    { apply hoare_when. intros _. apply hoare_modify. trivial. }
    intros _. apply hoare_bind.
    { apply hoare_for_enumerate. intros i entry _.
      apply hoare_get_eq. intros st Hst.
      destruct (cap_reached P (entries st)) eqn:Hcap.
      - intros s Hs.
        pose proof (hoare_hide prefix Hst Hcap Hs) as H.
        unfold bind in *.
        destruct (modify (note_truncation prefix) s) as [[] s1| |];
          [|exact Logic.I|exact Logic.I].
        destruct (modify incr_entries s1) as [[] s2| |];
          [|exact Logic.I|exact Logic.I].
        apply (hoare_when (I := counted P before)); [|exact H].
        intros _. apply IH.
      - apply hoare_lift_to. intros line _ s Hs.
        pose proof (hoare_emit_incr line Hst Hcap Hs) as H.
        unfold bind in *.
        destruct (emit line s) as [[] s1| |]; [|exact Logic.I|exact Logic.I].
        destruct (modify incr_entries s1) as [[] s2| |];
          [|exact Logic.I|exact Logic.I].
        apply (hoare_when (I := counted P before)); [|exact H].
        intros _. apply IH. }
    intros _. apply hoare_when. intros _.
    apply hoare_get_eq. intros st Hst.
    destruct (cap_reached P (entries st)) eqn:Hcap.
    + now apply hoare_hide.
    + now apply hoare_emit_incr.
Qed.

End Counted.

Lemma bind_Ret {S A B} (m : M S A) (k : A -> M S B) (s s' : S) (b : B) :
  bind m k s = Ret b s' ->
  exists a s1, m s = Ret a s1 /\ k a s1 = Ret b s'.
Proof.
  unfold bind. destruct (m s) as [a s1| |]; [|discriminate|discriminate].
  intros H. now exists a, s1.
Qed.

Lemma lift_Ret {S A} (r : result A) (s s' : S) (a : A) :
  lift r s = Ret a s' -> r = Ok a /\ s' = s.
Proof.
  destruct r as [a0|e]; cbn [lift]; unfold ret, raise;
    [|discriminate].
  intros [= -> ->]. now split.
Qed.

Lemma when_modify_Ret {S} (c : bool) (f : S -> S) (s s' : S) :
  when c (modify f) s = Ret tt s' -> s' = if c then f s else s.
Proof. destruct c; simpl; unfold modify, ret; congruence. Qed.

Lemma draw_tree_counted (E : Env) (P : Params) (fuel : nat) (ob : LineBuffer)
  (st : DrawState LineBuffer) :
  draw_tree E P fuel ob = Ret tt st ->
  exists s,
    counted P (Z.of_nat (length ob)) s
    /\ entries st = entries s
    /\ truncation_prefix st = truncation_prefix s
    /\ out st = match truncation_prefix s, max_entries P with
                | Some tp, Some m =>
                    (out s ++ [more_entries_line E tp (entries s - m)])%list
                | _, _ => out s
                end.
Proof.
  unfold draw_tree. intros Hrun.
  apply bind_Ret in Hrun. destruct Hrun as ([] & s1 & Hroot & Hrun).
  unfold emit in Hroot. simpl in Hroot. injection Hroot as <-.
  apply bind_Ret in Hrun. destruct Hrun as ([] & s2 & Hwalk & Hrun).
  assert (H2 : counted P (Z.of_nat (length ob)) s2).
  { assert (Hrec : hoare (counted P (Z.of_nat (length ob)))
                     (when (is_dir E []) (draw_rec E P fuel [] "" 0 []))
                     (fun _ => counted P (Z.of_nat (length ob)))).
    { apply hoare_when. intros _. apply draw_rec_counted. }
    match type of Hwalk with
    | _ ?s = _ => specialize (Hrec s)
    end.
    rewrite Hwalk in Hrec. apply Hrec.
    unfold counted. simpl. split; [lia|]. rewrite length_app. simpl.
    split; [lia|]. intros m _. lia. }
  exists s2. split; [exact H2|].
  apply bind_Ret in Hrun. destruct Hrun as (s2' & s2'' & Hget & Hrun).
  unfold get in Hget. injection Hget as <- <-.
  apply bind_Ret in Hrun. destruct Hrun as ([] & s3 & H3 & Hrun).
  apply when_modify_Ret in H3.
  apply bind_Ret in Hrun. destruct Hrun as ([] & s4 & H4 & Hrun).
  apply when_modify_Ret in H4.
  assert (Hsame : out s4 = out s2 /\ entries s4 = entries s2
                  /\ truncation_prefix s4 = truncation_prefix s2).
  { subst s4 s3.
    destruct (nonempty (include_file_types P)
              && negb (files_matched_include_types s2));
      destruct (nonempty (include_patterns P)
                && negb (files_matched_include_patterns s2));
      repeat split. }
  clear H3 H4. destruct Hsame as (Hout & Hentries & Htrunc).
  destruct (truncation_prefix s2) as [tp|] eqn:Htp.
  - destruct (max_entries P) as [m|]; [|discriminate].
    unfold emit in Hrun. simpl in Hrun. injection Hrun as <-. simpl.
    rewrite Hout. repeat split; assumption.
  - injection Hrun as <-. repeat split; assumption.
Qed.

(** Extra X10.  Without [max_entries], a run of [draw_tree] that returns
    has noted no truncation, and it has written one line for every entry
    it counted: the buffer has grown by [entries] lines. *)
Theorem uncapped_run_writes_every_counted_entry (E : Env) (P : Params)
  (fuel : nat) (ob : LineBuffer) (st : DrawState LineBuffer) :
  max_entries P = None ->
  draw_tree E P fuel ob = Ret tt st ->
  truncation_prefix st = None
  /\ Z.of_nat (length (out st)) = Z.of_nat (length ob) + entries st.
Proof.
  intros Hcap Hrun.
  destruct (draw_tree_counted _ _ _ _ Hrun) as (s & [_ Hc] & He & Ht & Ho).
  rewrite Ht, Ho, He.
  destruct (truncation_prefix s) as [tp|].
  - destruct Hc as (m & Hm & _). congruence.
  - split; [reflexivity|]. apply Hc.
Qed.

Lemma uncapped_run_writes_every_counted_entry_witness :
  truncation_prefix
    {| out := ["p"; "`-- src/"; "    `-- main.py"]; stderr := [];
       entries := 3; truncation_prefix := None;
       files_matched_include_patterns := false;
       files_matched_include_types := false;
       listed := [([], []); (["src"], ["src/*.pyc"])] |} = None
  /\ Z.of_nat (length ["p"; "`-- src/"; "    `-- main.py"])
     = Z.of_nat (length ([] : LineBuffer)) + 3.
Proof.
  apply (@uncapped_run_writes_every_counted_entry scenario_env default_params
           3 []
           {| out := ["p"; "`-- src/"; "    `-- main.py"]; stderr := [];
              entries := 3; truncation_prefix := None;
              files_matched_include_patterns := false;
              files_matched_include_types := false;
              listed := [([], []); (["src"], ["src/*.pyc"])] |}).
  - reflexivity.
  - vm_compute. reflexivity.
Defined.

(** Extra X11.  Under [max_entries = m], a run of [draw_tree] that returns
    either has noted no truncation, and then every counted entry has its
    line and the count is at most [max m 1]; or it has written exactly
    [max m 1] lines and then the one aggregate line, which reports
    [entries - m] entries, with the count above [max m 1].  The root's
    line is written whatever the cap: for [m <= 0] the aggregate line
    counts it among the hidden entries. *)
Theorem capped_run_writes_cap_lines (E : Env) (P : Params) (m : Z)
  (fuel : nat) (ob : LineBuffer) (st : DrawState LineBuffer) :
  max_entries P = Some m ->
  draw_tree E P fuel ob = Ret tt st ->
  match truncation_prefix st with
  | None =>
      Z.of_nat (length (out st)) = Z.of_nat (length ob) + entries st
      /\ entries st <= Z.max m 1
  | Some tp =>
      Z.of_nat (length (out st)) = Z.of_nat (length ob) + Z.max m 1 + 1
      /\ Z.max m 1 < entries st
      /\ last (out st) "" = more_entries_line E tp (entries st - m)
  end.
Proof.
  intros Hcap Hrun.
  destruct (draw_tree_counted _ _ _ _ Hrun) as (s & [_ Hc] & He & Ht & Ho).
  rewrite Ht, Ho, He, Hcap.
  destruct (truncation_prefix s) as [tp|].
  - destruct Hc as (m' & Hm & Hlen & Hlt).
    rewrite Hcap in Hm. injection Hm as <-.
    rewrite length_app, last_last. simpl. repeat split; lia.
  - destruct Hc as [Hlen Hle]. split; [exact Hlen|]. now apply Hle.
Qed.

Lemma capped_run_writes_cap_lines_witness :
  Z.of_nat (length ["p"; "`-- ... and 3 more entries"])
  = Z.of_nat (length ([] : LineBuffer)) + Z.max 0 1 + 1
  /\ Z.max 0 1 < 3
  /\ last ["p"; "`-- ... and 3 more entries"] ""
     = more_entries_line scenario_env "" (3 - 0).
Proof.
  apply (@capped_run_writes_cap_lines scenario_env
           (with_max_entries (Some 0) default_params) 0 3 []
           {| out := ["p"; "`-- ... and 3 more entries"]; stderr := [];
              entries := 3; truncation_prefix := Some "";
              files_matched_include_patterns := false;
              files_matched_include_types := false;
              listed := [([], []); (["src"], ["src/*.pyc"])] |}).
  - reflexivity.
  - vm_compute. reflexivity.
Defined.

(** ** The entry count of [build_tree_data] *)

Lemma count_nodes_dir (weight : tnode -> Z) (name : string)
  (children : list tnode) :
  count_nodes weight (DirNode name children)
  = weight (DirNode name children) + count_all weight children.
Proof.
  simpl. now f_equal.
Qed.

Lemma count_all_app (weight : tnode -> Z) (a b : list tnode) :
  count_all weight (a ++ b) = count_all weight a + count_all weight b.
Proof.
  induction a as [|c a IH]; simpl; [reflexivity|]. rewrite IH. lia.
Qed.

Lemma tnode_induction (Q : tnode -> Prop) :
  (forall name p contents, Q (FileNode name p contents)) ->
  (forall name children, Forall Q children -> Q (DirNode name children)) ->
  (forall name, Q (TruncNode name)) ->
  forall n, Q n.
Proof.
  intros Hfile Hdir Htrunc.
  refine (fix IH (n : tnode) : Q n :=
            match n with
            | FileNode name p contents => Hfile name p contents
            | DirNode name children =>
                Hdir name children
                  ((fix all (l : list tnode) : Forall Q l :=
                      match l with
                      | [] => Forall_nil Q
                      | c :: rest => Forall_cons c (IH c) (all rest)
                      end) children)
            | TruncNode name => Htrunc name
            end).
Qed.

Lemma count_all_le_Forall (w1 w2 : tnode -> Z) (l : list tnode) :
  Forall (fun n => count_nodes w1 n <= count_nodes w2 n) l ->
  count_all w1 l <= count_all w2 l.
Proof.
  induction 1 as [|c rest Hc _ IH]; simpl; [apply Z.le_refl|].
  now apply Z.add_le_mono.
Qed.

Lemma count_nodes_le (w1 w2 : tnode -> Z) :
  (forall n, w1 n <= w2 n) ->
  forall n, count_nodes w1 n <= count_nodes w2 n.
Proof.
  intros Hw n. induction n as [name p c|name children IH|name]
    using tnode_induction.
  - simpl. rewrite !Z.add_0_r. apply Hw.
  - rewrite !count_nodes_dir. apply Z.add_le_mono; [apply Hw|].
    now apply count_all_le_Forall.
  - simpl. rewrite !Z.add_0_r. apply Hw.
Qed.

Lemma count_all_le (w1 w2 : tnode -> Z) (l : list tnode) :
  (forall n, w1 n <= w2 n) -> count_all w1 l <= count_all w2 l.
Proof.
  intros Hw. apply count_all_le_Forall. apply Forall_forall.
  intros n _. now apply count_nodes_le.
Qed.

Lemma count_nodes_nonneg (w : tnode -> Z) :
  (forall n, 0 <= w n) -> forall n, 0 <= count_nodes w n.
Proof.
  intros Hw n. induction n as [name p c|name children IH|name]
    using tnode_induction.
  - simpl. rewrite Z.add_0_r. apply Hw.
  - rewrite count_nodes_dir. apply Z.add_nonneg_nonneg; [apply Hw|].
    induction IH as [|c rest Hc _ IHl]; simpl; [apply Z.le_refl|].
    now apply Z.add_nonneg_nonneg.
  - simpl. rewrite Z.add_0_r. apply Hw.
Qed.

Lemma cut_marker_range (n : tnode) : 0 <= cut_marker n <= 1.
Proof.
  unfold cut_marker.
  destruct n as [name p c|name children|name]; try lia.
  destruct (name =? "... and more entries")%string; lia.
Qed.

Lemma file_or_directory_counted (n : tnode) :
  file_or_directory n <= counted_node n.
Proof.
  unfold counted_node, cut_marker, file_or_directory.
  destruct n as [name p c|name children|name]; try lia.
  destruct (name =? "... and more entries")%string; lia.
Qed.

Lemma count_all_file_or_directory_nonneg (l : list tnode) :
  0 <= count_all file_or_directory l.
Proof.
  induction l as [|c rest IH]; simpl; [apply Z.le_refl|].
  apply Z.add_nonneg_nonneg; [|exact IH].
  apply count_nodes_nonneg. intros n. destruct n; simpl; lia.
Qed.

Lemma more_items_name_is_no_cut_marker (truncated : Z) :
  cut_marker (TruncNode (more_items_name truncated)) = 0.
Proof.
  unfold cut_marker, more_items_name, PyStr.of_int.
  destruct (Z.to_int truncated) as [d|d]; destruct d; reflexivity.
Qed.

Lemma count_all_cons (weight : tnode -> Z) (c : tnode) (l : list tnode) :
  count_all weight (c :: l) = count_nodes weight c + count_all weight l.
Proof. reflexivity. Qed.

Lemma count_nodes_file (weight : tnode -> Z) (name p : string)
  (contents : option string) :
  count_nodes weight (FileNode name p contents)
  = weight (FileNode name p contents).
Proof. simpl. apply Z.add_0_r. Qed.

Lemma count_nodes_trunc (weight : tnode -> Z) (name : string) :
  count_nodes weight (TruncNode name) = weight (TruncNode name).
Proof. simpl. apply Z.add_0_r. Qed.

Lemma counted_node_file (name p : string) (contents : option string) :
  counted_node (FileNode name p contents) = 1.
Proof. reflexivity. Qed.

Lemma counted_node_dir (name : string) (children : list tnode) :
  counted_node (DirNode name children) = 1.
Proof. reflexivity. Qed.

Lemma counted_node_cut : counted_node (TruncNode "... and more entries") = 0.
Proof. reflexivity. Qed.

Section Accounted.

Variable E : Env.
Variable P : Params.

Lemma accounted_nil (s : BuildState) : accounted P s [] s.
Proof.
  unfold accounted. simpl. split; [lia|]. split; [now split|].
  split; [now intros ->|]. split; [intros m _; lia|reflexivity].
Qed.

Lemma build_children_accounted
  (recurse : path -> M BuildState (list tnode)) (entry_list : list path) :
  (forall entry s kids s',
      In entry entry_list ->
      recurse entry s = Ret kids s' -> accounted P s kids s') ->
  forall children s result s',
    build_children E P recurse entry_list children s = Ret result s' ->
    exists added,
      result = (children ++ added)%list /\ accounted P s added s'.
Proof.
  induction entry_list as [|entry rest IH]; intros Hrec children s result s'.
  - simpl. intros [= <- <-]. exists []. split; [now rewrite app_nil_r|].
    apply accounted_nil.
  - assert (Hrest : forall c s0 r s1,
               build_children E P recurse rest c s0 = Ret r s1 ->
               exists added, r = (c ++ added)%list /\ accounted P s0 added s1).
    { intros c s0 r s1. apply IH. intros e s2 k s3 He. apply Hrec. now right. }
    simpl. unfold bind at 1. unfold get at 1.
    destruct (stop_writing s) eqn:Hstop.
    { intros [= <- <-]. exists []. split; [now rewrite app_nil_r|].
      apply accounted_nil. }
    destruct (cap_reached P (b_entries s)) eqn:Hcap.
    { unfold bind, modify, ret. intros [= <- <-].
      eexists. split; [reflexivity|].
      unfold accounted. rewrite !count_all_cons, !count_nodes_trunc.
      rewrite counted_node_cut.
      change (cut_marker (TruncNode "... and more entries")) with 1.
      cbn [file_or_directory count_all fold_right b_entries stop_writing b_stop].
      rewrite Hstop.
      split; [lia|]. split; [discriminate|]. split; [reflexivity|].
      split; [intros m _; lia|].
      intros Hnone. unfold cap_reached in Hcap. now rewrite Hnone in Hcap. }
    assert (Hroom : forall m, max_entries P = Some m -> b_entries s < m).
    { intros m Hm. unfold cap_reached in Hcap. rewrite Hm in Hcap.
      now apply Z.leb_gt. }
    destruct (is_file E entry).
    { unfold bind at 1. unfold modify at 1. intros Hrun.
      destruct (Hrest _ _ _ _ Hrun) as (added & -> & Hacc).
      exists (file_node E P entry :: added).
      split; [now rewrite <- app_assoc|].
      destruct Hacc as (He & Hs & Hc & Hfd & Hn).
      cbn [b_entries stop_writing b_incr_entries] in He, Hs, Hc, Hfd, Hn.
      unfold accounted. rewrite !count_all_cons.
      unfold file_node. rewrite !count_nodes_file, counted_node_file.
      cbn [cut_marker file_or_directory].
      rewrite Hstop.
      split; [lia|].
      split; [discriminate|].
      split; [intros _; rewrite (Hc Hstop); lia|].
      split; [|now rewrite <- Hstop].
      intros m Hm. specialize (Hfd m Hm). specialize (Hroom m Hm). lia. }
    destruct (is_dir E entry); [|intros Hrun].
    2: { destruct (Hrest _ _ _ _ Hrun) as (added & -> & Hacc).
         exists added. now split. }
    unfold bind at 1. unfold modify at 1. intros Hrun.
    apply bind_Ret in Hrun. destruct Hrun as (kids & s2 & Hkids & Hrun).
    apply Hrec in Hkids; [|now left].
    destruct (Hrest _ _ _ _ Hrun) as (added & -> & Hacc).
    exists (DirNode (name_of entry) kids :: added).
    split; [now rewrite <- app_assoc|].
    destruct Hkids as (He1 & Hs1 & Hc1 & Hfd1 & Hn1).
    destruct Hacc as (He2 & Hs2 & Hc2 & Hfd2 & Hn2).
    cbn [b_entries stop_writing b_incr_entries] in He1, Hs1, Hc1, Hfd1, Hn1.
    specialize (Hc1 Hstop).
    pose proof (@count_all_le file_or_directory counted_node kids
                  file_or_directory_counted) as Hle.
    pose proof (count_all_file_or_directory_nonneg kids) as Hk0.
    pose proof (count_all_file_or_directory_nonneg added) as Ha0.
    unfold accounted. rewrite !count_all_cons, !count_nodes_dir.
    rewrite counted_node_dir. cbn [cut_marker file_or_directory].
    rewrite Hstop.
    split; [lia|]. split; [discriminate|].
    split.
    { intros _. destruct (stop_writing s2) eqn:Hstop2.
      - destruct (Hs2 eq_refl) as [-> ->]. rewrite Hstop2. cbn. lia.
      - specialize (Hc2 eq_refl). lia. }
    split.
    { intros m Hm. specialize (Hfd1 m Hm). specialize (Hfd2 m Hm).
      specialize (Hroom m Hm). lia. }
    intros Hnone. rewrite (Hn2 Hnone), (Hn1 Hnone). exact Hstop.
Qed.

Lemma build_rec_accounted (fuel : nat) :
  forall dirpath current_depth patterns s kids s',
    build_rec E P fuel dirpath current_depth patterns s = Ret kids s' ->
    accounted P s kids s'.
Proof.
  induction fuel as [|fuel IH];
    intros dirpath current_depth patterns s kids s'; [discriminate|].
  simpl. destruct (depth_reached P current_depth).
  { intros [= <- <-]. apply accounted_nil. }
  unfold bind at 1. unfold get at 1.
  destruct (stop_writing s) eqn:Hstop.
  { intros [= <- <-]. apply accounted_nil. }
  intros Hrun. apply bind_Ret in Hrun.
  destruct Hrun as (extended & s0 & Hext & Hrun).
  apply lift_Ret in Hext. destruct Hext as [_ ->].
  apply bind_Ret in Hrun. destruct Hrun as ([] & s0 & Hspec & Hrun).
  apply lift_Ret in Hspec. destruct Hspec as [_ ->].
  unfold bind at 1 in Hrun. unfold modify at 1 in Hrun.
  destruct (list_entries E dirpath extended (list_args_build P))
    as [entry_list truncated].
  apply bind_Ret in Hrun. destruct Hrun as (children & s2 & Hchildren & Hrun).
  apply build_children_accounted in Hchildren.
  2: { intros entry s3 k s4 _. apply IH. }
  destruct Hchildren as (added & -> & Hacc). simpl app in Hrun.
  destruct Hacc as (He & Hs & Hc & Hfd & Hn).
  cbn [b_entries stop_writing b_note_listed] in He, Hs, Hc, Hfd, Hn.
  specialize (Hc Hstop).
  unfold bind at 1 in Hrun. unfold get at 1 in Hrun.
  destruct ((0 <? truncated) && negb (stop_writing s2)) eqn:Hmore.
  - unfold bind, modify, ret in Hrun. injection Hrun as <- <-.
    apply andb_prop in Hmore. destruct Hmore as [_ Hstop2].
    apply negb_true_iff in Hstop2. rewrite Hstop2 in Hc.
    unfold accounted. rewrite !count_all_app, !count_all_cons.
    rewrite !count_nodes_trunc. unfold counted_node at 2.
    rewrite more_items_name_is_no_cut_marker.
    cbn [count_all fold_right file_or_directory b_entries stop_writing
         b_incr_entries].
    rewrite Hstop, Hstop2.
    split; [lia|]. split; [discriminate|]. split; [intros _; lia|].
    split; [|intros Hnone; specialize (Hn Hnone); congruence].
    intros m Hm. specialize (Hfd m Hm). lia.
  - unfold ret in Hrun. injection Hrun as <- <-.
    unfold accounted. rewrite Hstop.
    split; [exact He|]. split; [discriminate|]. split; [now intros _|].
    split; [exact Hfd|]. intros Hnone. specialize (Hn Hnone). congruence.
Qed.

End Accounted.

Lemma build_tree_data_counted (E : Env) (P : Params) (fuel : nat)
  (tree : tnode) (st : BuildState) :
  build_tree_data E P fuel = Ret tree st ->
  count_nodes counted_node tree + count_nodes cut_marker tree
  = b_entries st + (if stop_writing st then 1 else 0).
Proof.
  unfold build_tree_data. intros Hrun.
  destruct (is_dir E []).
  - apply bind_Ret in Hrun. destruct Hrun as (kids & s & Hkids & Hret).
    unfold ret in Hret. injection Hret as <- <-.
    apply build_rec_accounted in Hkids.
    destruct Hkids as (He & _ & Hc & _).
    cbn [b_entries stop_writing build_init] in He, Hc.
    rewrite !count_nodes_dir, counted_node_dir.
    cbn [cut_marker]. rewrite (Hc eq_refl). lia.
  - unfold ret in Hrun. injection Hrun as <- <-.
    rewrite !count_nodes_dir, counted_node_dir. reflexivity.
Qed.

(** Extra X12.  In the tree that [build_tree_data] returns, every node but
    the marker of the cap was counted once, the root included: the final
    entry count is their number.  The marker of the cap appears once when
    the cap stopped the run and not at all otherwise; without
    [max_entries] nothing stops it.  Under [max_entries = m] the tree
    holds at most [max m 1] files and directories, the root included. *)
Theorem exported_tree_is_accounted (E : Env) (P : Params) (fuel : nat)
  (tree : tnode) (st : BuildState) :
  build_tree_data E P fuel = Ret tree st ->
  b_entries st = count_nodes counted_node tree
  /\ count_nodes cut_marker tree = (if stop_writing st then 1 else 0)
  /\ (forall m, max_entries P = Some m ->
                count_nodes file_or_directory tree <= Z.max m 1)
  /\ (max_entries P = None -> stop_writing st = false).
Proof.
  unfold build_tree_data. intros Hrun.
  destruct (is_dir E []).
  - apply bind_Ret in Hrun. destruct Hrun as (kids & s & Hkids & Hret).
    unfold ret in Hret. injection Hret as <- <-.
    apply build_rec_accounted in Hkids.
    destruct Hkids as (He & _ & Hc & Hfd & Hn).
    cbn [b_entries stop_writing build_init] in He, Hc, Hfd, Hn.
    rewrite !count_nodes_dir, counted_node_dir.
    cbn [cut_marker file_or_directory].
    split; [lia|]. split; [rewrite (Hc eq_refl); lia|].
    split; [|exact Hn]. intros m Hm. specialize (Hfd m Hm). lia.
  - unfold ret in Hrun. injection Hrun as <- <-.
    rewrite !count_nodes_dir, counted_node_dir.
    cbn [cut_marker file_or_directory count_all fold_right b_entries
         stop_writing build_init].
    split; [reflexivity|]. split; [reflexivity|].
    split; [intros m _; lia|reflexivity].
Qed.

Lemma exported_tree_is_accounted_witness :
  let P := with_max_entries (Some 2) default_params in
  let tree := DirNode "p" [DirNode "a" [TruncNode "... and more entries"]] in
  let st := {| b_entries := 2; stop_writing := true;
               b_listed := [([], []); (["a"], [])] |} in
  b_entries st = count_nodes counted_node tree
  /\ count_nodes cut_marker tree = (if stop_writing st then 1 else 0)
  /\ (forall m, max_entries P = Some m ->
                count_nodes file_or_directory tree <= Z.max m 1)
  /\ (max_entries P = None -> stop_writing st = false).
Proof.
  intros P tree st.
  apply (@exported_tree_is_accounted two_dirs_env P 3 tree st).
  vm_compute. reflexivity.
Defined.

(** ** The formatters *)

Section FormatLemmas.

Variable E : Env.
Variable emoji : bool.

Lemma format_rec_dir {Item : Type} (item_of : string -> string -> string -> Item)
  (include_contents : bool) (name : string) (children : list tnode)
  (prefix : string) (st : FormatState Item) :
  format_rec E item_of emoji include_contents (DirNode name children) prefix st
  = format_loop E item_of emoji include_contents
                (Z.of_nat (length children)) prefix children 0 st.
Proof.
  cbn [format_rec].
  match goal with
  | |- ?f children 0 st = _ =>
      assert (H : forall l i st0,
                 f l i st0
                 = format_loop E item_of emoji include_contents
                               (Z.of_nat (length children)) prefix l i st0)
  end.
  { induction l as [|c rest IH]; intros i st0; [reflexivity|].
    cbn [format_loop]. rewrite <- IH. reflexivity. }
  apply H.
Qed.

Lemma lines_collect_contents {Item : Type}
  (item_of : string -> string -> string -> Item) (include_contents : bool)
  (child : tnode) (st : FormatState Item) :
  lines (collect_contents item_of include_contents child st) = lines st.
Proof.
  destruct child as [name p [contents|]|name children|name]; try reflexivity.
  simpl. now destruct include_contents.
Qed.

Lemma format_loop_lines (size : Z) (l : list tnode) :
  Forall (lines_appended E emoji) l ->
  forall (Item : Type) (item_of : string -> string -> string -> Item)
         (include_contents : bool) (prefix : string) (i : Z)
         (st : FormatState Item),
    lines (format_loop E item_of emoji include_contents size prefix l i st)
    = (lines st ++ loop_lines E emoji size prefix l i)%list.
Proof.
  induction 1 as [|child rest Hchild _ IH];
    intros Item item_of include_contents prefix i st.
  - simpl. now rewrite app_nil_r.
  - unfold loop_lines. cbn [format_loop]. rewrite IH.
    rewrite (IH unit). fold (loop_lines E emoji size prefix rest (i + 1)).
    rewrite app_assoc. f_equal.
    destruct (node_type child =? "truncated")%string; [reflexivity|].
    destruct (nonempty (node_children child)).
    + rewrite Hchild, (Hchild unit), !lines_collect_contents. simpl.
      now rewrite <- app_assoc.
    + now rewrite !lines_collect_contents.
Qed.

Lemma format_rec_lines (node : tnode) : lines_appended E emoji node.
Proof.
  induction node as [name p c|name children IH|name] using tnode_induction;
    intros Item item_of include_contents prefix st.
  - simpl. now rewrite app_nil_r.
  - unfold rec_lines. rewrite !format_rec_dir.
    now apply format_loop_lines.
  - simpl. now rewrite app_nil_r.
Qed.

Lemma loop_lines_nil (size : Z) (prefix : string) (i : Z) :
  loop_lines E emoji size prefix [] i = [].
Proof. reflexivity. Qed.

Lemma rec_lines_children (node : tnode) (prefix : string) :
  rec_lines E emoji node prefix
  = loop_lines E emoji (Z.of_nat (length (node_children node))) prefix
               (node_children node) 0.
Proof.
  destruct node as [name p c|name children|name]; try reflexivity.
  unfold rec_lines. now rewrite format_rec_dir.
Qed.

(** The lines of one child and of what lies below it. *)
Lemma loop_lines_cons (size : Z) (prefix : string) (child : tnode)
  (rest : list tnode) (i : Z) :
  loop_lines E emoji size prefix (child :: rest) i
  = ((if (node_type child =? "truncated")%string then
        [(prefix ++ (if (i =? size - 1)%Z then LAST E else BRANCH E)
                 ++ node_name child)%string]
      else
        child_line E emoji prefix
                   (if i =? size - 1 then LAST E else BRANCH E) child
        :: loop_lines E emoji (Z.of_nat (length (node_children child)))
             (prefix ++ (if (i =? size - 1)%Z then SPACE E else VERT E))%string
             (node_children child) 0)
     ++ loop_lines E emoji size prefix rest (i + 1))%list.
Proof.
  unfold loop_lines at 1. cbn [format_loop].
  rewrite format_loop_lines
    by (apply Forall_forall; intros n _; apply format_rec_lines).
  f_equal.
  destruct (node_type child =? "truncated")%string; [reflexivity|].
  rewrite <- rec_lines_children.
  destruct (node_children child) as [|k kids] eqn:Hkids.
  - cbn [nonempty]. rewrite rec_lines_children, Hkids, loop_lines_nil.
    now rewrite lines_collect_contents.
  - cbn [nonempty]. rewrite format_rec_lines, lines_collect_contents.
    reflexivity.
Qed.

Lemma loop_lines_app (size : Z) (prefix : string) (a b : list tnode) :
  forall i,
    loop_lines E emoji size prefix (a ++ b) i
    = (loop_lines E emoji size prefix a i
       ++ loop_lines E emoji size prefix b (i + Z.of_nat (length a)))%list.
Proof.
  induction a as [|c a IH]; intros i.
  - simpl. now rewrite Z.add_0_r.
  - cbn [app]. rewrite !loop_lines_cons, IH, <- app_assoc.
    do 3 f_equal. cbn [length]. lia.
Qed.

Lemma format_run_lines {Item : Type}
  (item_of : string -> string -> string -> Item) (include_contents : bool)
  (tree_data : tnode) :
  lines (format_run E item_of emoji include_contents tree_data)
  = tree_lines E emoji tree_data.
Proof. unfold format_run. now rewrite format_rec_lines. Qed.

(** One line for every node. *)
Lemma length_loop_lines (size : Z) (l : list tnode) :
  forall prefix i,
    Z.of_nat (length (loop_lines E emoji size prefix l i))
    = count_all (fun _ => 1) l.
Proof.
  induction l as [|child rest IH]; intros prefix i; [reflexivity|].
  rewrite loop_lines_cons, length_app, Nat2Z.inj_add, IH, count_all_cons.
  f_equal. clear IH. revert prefix i size.
  induction child as [name p c|name children IHc|name] using tnode_induction;
    intros prefix i size.
  - reflexivity.
  - rewrite count_nodes_dir. cbn [node_type node_children length].
    change ("directory" =? "truncated")%string with false. cbn iota.
    cbn [length]. rewrite Nat2Z.inj_succ. unfold Z.succ. rewrite Z.add_comm.
    f_equal.
    generalize (prefix ++ (if i =? size - 1 then SPACE E else VERT E)).
    generalize (Z.of_nat (length children)). generalize 0.
    induction IHc as [|k ks Hk _ IHks]; intros j sz pre; [reflexivity|].
    rewrite loop_lines_cons, length_app, Nat2Z.inj_add, IHks, count_all_cons.
    f_equal. apply Hk.
  - reflexivity.
Qed.

End FormatLemmas.

Lemma format_text_tree_plain (E : Env) (tree_data : tnode) (emoji : bool) :
  format_text_tree E tree_data emoji false
  = PyStr.join nl (tree_lines E emoji tree_data).
Proof. unfold format_text_tree. cbn [andb]. now rewrite format_run_lines. Qed.

Lemma count_nodes_add (w1 w2 : tnode -> Z) (n : tnode) :
  count_nodes (fun k => w1 k + w2 k) n = count_nodes w1 n + count_nodes w2 n.
Proof.
  induction n as [name p c|name children IH|name] using tnode_induction.
  - simpl. lia.
  - rewrite !count_nodes_dir.
    assert (count_all (fun k => w1 k + w2 k) children
            = count_all w1 children + count_all w2 children); [|lia].
    induction IH as [|k ks Hk _ IHks]; [reflexivity|].
    rewrite !count_all_cons, Hk, IHks. lia.
  - simpl. lia.
Qed.

Lemma count_nodes_ext (w1 w2 : tnode -> Z) (n : tnode) :
  (forall k, w1 k = w2 k) -> count_nodes w1 n = count_nodes w2 n.
Proof.
  intros Hw. apply Z.le_antisymm; apply count_nodes_le;
    intros k; rewrite Hw; apply Z.le_refl.
Qed.

Lemma length_tree_lines (E : Env) (emoji : bool) (tree_data : tnode) :
  Z.of_nat (length (tree_lines E emoji tree_data))
  = count_nodes (fun _ => 1) tree_data.
Proof.
  unfold tree_lines. cbn [length]. rewrite Nat2Z.inj_succ.
  rewrite rec_lines_children, length_loop_lines.
  destruct tree_data as [name p c|name children|name].
  - reflexivity.
  - rewrite count_nodes_dir. cbn [node_children]. lia.
  - reflexivity.
Qed.

(** Extra X13.  Without file contents, the Markdown export is the text
    export between two code fences: both formatters draw the same lines
    for the same tree and flag, and the text export is these lines joined
    by line breaks. *)
Theorem markdown_export_fences_the_text_tree (E : Env)
  (get_language_hint : string -> string) (tree_data : tnode) (emoji : bool) :
  format_markdown_tree E get_language_hint tree_data emoji false
  = "```" ++ nl ++ format_text_tree E tree_data emoji false ++ nl ++ "```" ++ nl
  /\ format_text_tree E tree_data emoji false
     = PyStr.join nl (tree_lines E emoji tree_data).
Proof.
  split; [|apply format_text_tree_plain].
  rewrite format_text_tree_plain. unfold format_markdown_tree. cbn [andb].
  now rewrite format_run_lines.
Qed.



(** ** The renderer against the exporter, without a cap *)

Section Refinement.

Variable E : Env.
Variable P : Params.

Hypothesis Hcap : max_entries P = None.
Hypothesis Hlimit : no_limit P = false.
Hypothesis Hfirst : files_first P = false.
Hypothesis Hemoji : emoji P = false.
Hypothesis Hcolor : no_color P = true.
Hypothesis Hinclude : include_spec_check E P = Ok tt.

Hypothesis Hkinds :
  forall dirpath patterns a entry,
    In entry (fst (list_entries E dirpath patterns a)) ->
    is_file E entry = negb (is_dir E entry).

Hypothesis Htruncated :
  forall dirpath patterns a, 0 <= snd (list_entries E dirpath patterns a).

Local Notation "'St'" := (DrawState LineBuffer).

Lemma list_args_same : list_args_draw P = list_args_build P.
Proof.
  unfold list_args_draw, list_args_build. now rewrite Hcap, Hlimit, Hfirst.
Qed.

Lemma cap_never (n : Z) : cap_reached P n = false.
Proof. unfold cap_reached. now rewrite Hcap. Qed.

Lemma entry_line_plain (prefix connector : string) (entry : path) :
  entry_line E P prefix connector entry
  = Ok (prefix ++ connector ++ name_of entry
               ++ (if is_dir E entry then "/" else "")).
Proof. unfold entry_line. now rewrite Hcolor, Hemoji. Qed.

Lemma is_last_same (count i truncated : Z) :
  0 <= truncated -> i < count ->
  (i =? count - 1) && (truncated =? 0)
  = (i =? count + (if 0 <? truncated then 1 else 0) - 1).
Proof.
  intros Ht Hi. destruct (0 <? truncated) eqn:Hpos.
  - apply Z.ltb_lt in Hpos.
    replace (truncated =? 0) with false by (symmetry; apply Z.eqb_neq; lia).
    rewrite andb_false_r. symmetry. apply Z.eqb_neq. lia.
  - apply Z.ltb_ge in Hpos.
    replace (truncated =? 0) with true by (symmetry; apply Z.eqb_eq; lia).
    rewrite andb_true_r. f_equal. lia.
Qed.

Lemma draw_rec_step (fuel : nat) (dirpath : path) (prefix : string)
  (current_depth : Z) (patterns : list string) :
  draw_rec E P (S fuel) dirpath prefix current_depth patterns
  = (if depth_reached P current_depth then ret tt
     else
       extended <- lift (extend_patterns E P dirpath patterns) ;;
       lift (from_lines E extended) ;;
       modify (note_listed dirpath extended) ;;
       let '(entry_list, truncated) :=
         list_entries E dirpath extended (list_args_draw P) in
       lift (include_spec_check E P) ;;
       when (nonempty (include_patterns P)
             && any_matches_include_patterns E P entry_list)
            (modify mark_include_patterns) ;;
       when (nonempty (include_file_types P)
             && any_matches_include_types E P entry_list)
            (modify mark_include_types) ;;
       for_enumerate (whitelist_filter E P entry_list) 0
         (draw_entry E P fuel (whitelist_filter E P entry_list) truncated
                     prefix current_depth extended) ;;
       when (0 <? truncated)
            (st <- get ;;
             if cap_reached P (entries st) then
               modify (note_truncation prefix) ;;
               modify incr_entries
             else
               emit (more_items_line E prefix truncated) ;;
               modify incr_entries)).
Proof. reflexivity. Qed.

Lemma build_rec_step (fuel : nat) (dirpath : path) (current_depth : Z)
  (patterns : list string) :
  build_rec E P (S fuel) dirpath current_depth patterns
  = (if depth_reached P current_depth then ret []
     else
       st <- get ;;
       if stop_writing st then ret []
       else
         extended <- lift (extend_patterns E P dirpath patterns) ;;
         lift (from_lines E extended) ;;
         modify (b_note_listed dirpath extended) ;;
         let '(entry_list, truncated) :=
           list_entries E dirpath extended (list_args_build P) in
         children <-
           build_children E P
             (fun entry => build_rec E P fuel entry (current_depth + 1) extended)
             (whitelist_filter E P entry_list) [] ;;
         st <- get ;;
         if (0 <? truncated) && negb (stop_writing st) then
           modify b_incr_entries ;;
           ret (children ++ [TruncNode (more_items_name truncated)])%list
         else ret children).
Proof. reflexivity. Qed.

Lemma child_line_file (prefix connector : string) (entry : path) :
  child_line E true prefix connector (file_node E P entry)
  = prefix ++ connector ++ name_of entry ++ "".
Proof. reflexivity. Qed.

Lemma child_line_dir (prefix connector name : string) (kids : list tnode) :
  child_line E true prefix connector (DirNode name kids)
  = prefix ++ connector ++ name ++ "/".
Proof. reflexivity. Qed.

Lemma draw_entry_shown (fuel : nat) (entry_list : list path) (truncated : Z)
  (prefix : string) (current_depth : Z) (patterns : list string) (i : Z)
  (entry : path) (ds : St) :
  let is_last :=
    (i =? Z.of_nat (length entry_list) - 1) && (truncated =? 0) in
  let connector := if is_last then LAST E else BRANCH E in
  draw_entry E P fuel entry_list truncated prefix current_depth patterns
             i entry ds
  = when (is_dir E entry)
         (draw_rec E P fuel entry
                   (prefix ++ (if is_last then SPACE E else VERT E))
                   (current_depth + 1) patterns)
         (incr_entries
            (set_out (out ds
                      ++ [(prefix ++ connector ++ name_of entry
                                  ++ (if is_dir E entry then "/" else ""))%string])%list
                     ds)).
Proof.
  intros is_last connector. unfold draw_entry, bind, get.
  rewrite cap_never. cbv zeta. rewrite entry_line_plain. reflexivity.
Qed.

Lemma build_children_step
  (recurse : path -> M BuildState (list tnode)) (entry : path)
  (rest : list path) (acc : list tnode) (bs : BuildState) :
  stop_writing bs = false ->
  build_children E P recurse (entry :: rest) acc bs
  = if is_file E entry then
      build_children E P recurse rest (acc ++ [file_node E P entry])%list
                     (b_incr_entries bs)
    else if is_dir E entry then
      match recurse entry (b_incr_entries bs) with
      | Ret kids bs' =>
          build_children E P recurse rest
            (acc ++ [DirNode (name_of entry) kids])%list bs'
      | Exc e => Exc e
      | Fuel => Fuel
      end
    else build_children E P recurse rest acc bs.
Proof.
  intros Hstop. cbn [build_children]. unfold bind at 1. unfold get.
  rewrite Hstop, cap_never.
  destruct (is_file E entry); [reflexivity|].
  destruct (is_dir E entry); reflexivity.
Qed.

Section Entries.

Variable fuel : nat.

Hypothesis IH :
  forall dirpath prefix current_depth patterns (ds : St) bs,
    stop_writing bs = false ->
    same_run E prefix
      (build_rec E P fuel dirpath current_depth patterns bs)
      (draw_rec E P fuel dirpath prefix current_depth patterns ds) ds.

Variable entry_list : list path.
Variable truncated : Z.
Variable prefix : string.
Variable current_depth : Z.
Variable patterns : list string.

Hypothesis Hpos : 0 <= truncated.
Hypothesis Hlisted :
  forall entry, In entry entry_list ->
                is_file E entry = negb (is_dir E entry).

Lemma entries_rendered (todo : list path) :
  forall i acc (ds : St) bs,
    Z.of_nat (length entry_list) = i + Z.of_nat (length todo) ->
    incl todo entry_list ->
    stop_writing bs = false ->
    same_loop E prefix
      (Z.of_nat (length entry_list) + (if 0 <? truncated then 1 else 0))
      i acc todo
      (build_children E P
         (fun entry => build_rec E P fuel entry (current_depth + 1) patterns)
         todo acc bs)
      (for_enumerate todo i
         (draw_entry E P fuel entry_list truncated prefix current_depth
                     patterns) ds)
      ds.
Proof.
  induction todo as [|entry rest IHrest]; intros i acc ds bs Hlen Hincl Hstop.
  - cbn. split; [exact Hstop|]. exists [], ds.
    rewrite !app_nil_r. repeat split.
  - assert (Hentry : In entry entry_list) by (apply Hincl; now left).
    assert (Hrest : incl rest entry_list)
      by (intros x Hx; apply Hincl; now right).
    pose proof (Hlisted entry Hentry) as Hkind.
    cbn [length] in Hlen. rewrite Nat2Z.inj_succ in Hlen.
    assert (Hi : i < Z.of_nat (length entry_list)) by lia.
    pose proof (is_last_same Hpos Hi) as Hlast.
    set (size := Z.of_nat (length entry_list)
                 + (if 0 <? truncated then 1 else 0)) in *.
    rewrite build_children_step by exact Hstop.
    cbn [for_enumerate]. unfold bind at 1.
    rewrite draw_entry_shown. cbv zeta. rewrite Hlast, Hkind.
    set (connector := if i =? size - 1 then LAST E else BRANCH E).
    set (below := prefix ++ (if i =? size - 1 then SPACE E else VERT E)).
    destruct (is_dir E entry) eqn:Hdir; cbn [negb when].
    + match goal with
      | |- context [draw_rec E P fuel entry below _ _ ?s] => set (ds1 := s)
      end.
      pose proof (IH entry below (current_depth + 1) patterns ds1
                     (b_incr_entries bs) Hstop) as Hsub.
      destruct (build_rec E P fuel entry (current_depth + 1) patterns
                          (b_incr_entries bs)) as [kids bs1| |].
      * destruct Hsub as (Hstop1 & ds2 & Hdraw & Htp & Hout).
        unfold LineBuffer in *. rewrite Hdraw.
        specialize (IHrest (i + 1)
                      (acc ++ [DirNode (name_of entry) kids])%list ds2 bs1).
        assert (Hlen' : Z.of_nat (length entry_list)
                        = i + 1 + Z.of_nat (length rest)) by lia.
        specialize (IHrest Hlen' Hrest Hstop1). fold size in IHrest.
        unfold same_loop in *.
        destruct (build_children E P _ rest _ bs1) as [result bs2| |].
        -- destruct IHrest as (Hstop2 & nodes & ds3 & -> & Hn & -> & Htp3 & Hout3).
           split; [exact Hstop2|].
           exists (DirNode (name_of entry) kids :: nodes), ds3.
           split; [now rewrite <- app_assoc|].
           split; [cbn [length]; now rewrite Hn|].
           split; [reflexivity|].
           split; [exact (eq_trans Htp3 Htp)|].
           unfold LineBuffer in *. rewrite Hout3, Hout, loop_lines_cons.
           change (node_type (DirNode (name_of entry) kids) =? "truncated")%string
             with false.
           cbn iota. cbn [node_children]. rewrite child_line_dir.
           unfold ds1. cbn [out incr_entries set_out].
           fold connector. fold below.
           now rewrite <- !app_assoc.
        -- exact IHrest.
        -- exact IHrest.
      * unfold same_run in Hsub. unfold LineBuffer in *. now rewrite Hsub.
      * unfold same_run in Hsub. unfold LineBuffer in *. now rewrite Hsub.
    + unfold ret at 1.
      match goal with
      | |- context [for_enumerate rest (i + 1) _ ?s] => set (ds1 := s)
      end.
      specialize (IHrest (i + 1) (acc ++ [file_node E P entry])%list ds1
                    (b_incr_entries bs)).
      assert (Hlen' : Z.of_nat (length entry_list)
                      = i + 1 + Z.of_nat (length rest)) by lia.
      specialize (IHrest Hlen' Hrest Hstop). fold size in IHrest.
      unfold same_loop in *.
      destruct (build_children E P _ rest _ (b_incr_entries bs))
        as [result bs2| |].
      * destruct IHrest as (Hstop2 & nodes & ds3 & -> & Hn & -> & Htp3 & Hout3).
        split; [exact Hstop2|].
        exists (file_node E P entry :: nodes), ds3.
        split; [now rewrite <- app_assoc|].
        split; [cbn [length]; now rewrite Hn|].
        split; [reflexivity|].
        split; [exact Htp3|].
        unfold LineBuffer in *. rewrite Hout3, loop_lines_cons.
        change (node_type (file_node E P entry) =? "truncated")%string
          with false.
        cbn iota. rewrite child_line_file.
        change (node_children (file_node E P entry)) with (@nil tnode).
        rewrite loop_lines_nil.
        unfold ds1. cbn [out incr_entries set_out].
        fold connector.
        now rewrite <- !app_assoc.
      * exact IHrest.
      * exact IHrest.
Qed.

End Entries.

Lemma bind_when_modify {S A} (c : bool) (f : S -> S) (k : unit -> M S A)
  (s : S) :
  bind (when c (modify f)) k s = k tt (if c then f s else s).
Proof. destruct c; reflexivity. Qed.

Lemma build_rec_run (fuel : nat) (dirpath : path) (current_depth : Z)
  (patterns extended : list string) (entry_list : list path) (truncated : Z)
  (bs : BuildState) :
  depth_reached P current_depth = false ->
  stop_writing bs = false ->
  extend_patterns E P dirpath patterns = Ok extended ->
  from_lines E extended = Ok tt ->
  list_entries E dirpath extended (list_args_build P)
  = (entry_list, truncated) ->
  build_rec E P (S fuel) dirpath current_depth patterns bs
  = match build_children E P
            (fun entry => build_rec E P fuel entry (current_depth + 1) extended)
            (whitelist_filter E P entry_list) []
            (b_note_listed dirpath extended bs) with
    | Ret children bs' =>
        if (0 <? truncated) && negb (stop_writing bs') then
          Ret (children ++ [TruncNode (more_items_name truncated)])%list
              (b_incr_entries bs')
        else Ret children bs'
    | Exc e => Exc e
    | Fuel => Fuel
    end.
Proof.
  intros Hdepth Hstop Hext Hspec Hle.
  rewrite build_rec_step, Hdepth, Hext.
  unfold bind at 1. unfold get at 1. rewrite Hstop.
  unfold bind at 1. cbn [lift]. unfold ret at 1.
  rewrite Hspec. unfold bind at 1. cbn [lift]. unfold ret at 1.
  unfold bind at 1. unfold modify at 1. rewrite Hle.
  unfold bind, get, ret, modify.
  destruct (build_children E P _ (whitelist_filter E P entry_list) []
                           (b_note_listed dirpath extended bs))
    as [children bs'| |]; try reflexivity.
  destruct ((0 <? truncated) && negb (stop_writing bs')); reflexivity.
Qed.

Lemma draw_rec_run (fuel : nat) (dirpath : path) (prefix : string)
  (current_depth : Z) (patterns extended : list string)
  (entry_list : list path) (truncated : Z) (ds : St) :
  depth_reached P current_depth = false ->
  extend_patterns E P dirpath patterns = Ok extended ->
  from_lines E extended = Ok tt ->
  list_entries E dirpath extended (list_args_draw P)
  = (entry_list, truncated) ->
  exists ds1 : St,
    out ds1 = out ds
    /\ truncation_prefix ds1 = truncation_prefix ds
    /\ draw_rec E P (S fuel) dirpath prefix current_depth patterns ds
       = match for_enumerate (whitelist_filter E P entry_list) 0
                 (draw_entry E P fuel (whitelist_filter E P entry_list)
                             truncated prefix current_depth extended) ds1 with
         | Ret _ ds2 =>
             if 0 <? truncated then
               Ret tt (incr_entries
                         (set_out (out ds2
                                   ++ [more_items_line E prefix truncated])%list
                                  ds2))
             else Ret tt ds2
         | Exc e => Exc e
         | Fuel => Fuel
         end.
Proof.
  intros Hdepth Hext Hspec Hle.
  rewrite draw_rec_step, Hdepth, Hext, Hinclude.
  unfold bind at 1. cbn [lift]. unfold ret at 1.
  rewrite Hspec. unfold bind at 1. cbn [lift]. unfold ret at 1.
  unfold bind at 1. unfold modify at 1. rewrite Hle.
  unfold bind at 1. cbn [lift]. unfold ret at 1.
  rewrite !bind_when_modify.
  eexists. split; [|split; [|unfold bind at 1]].
  3: { match goal with
       | |- match ?m with _ => _ end = match ?m' with _ => _ end =>
           unify m m'; destruct m as [[] ds2| |]; try reflexivity
       end.
       destruct (0 <? truncated); [|reflexivity].
       cbn [when]. unfold bind, get. rewrite cap_never.
       reflexivity. }
  - destruct (nonempty (include_patterns P)
              && any_matches_include_patterns E P entry_list);
      destruct (nonempty (include_file_types P)
                && any_matches_include_types E P entry_list); reflexivity.
  - destruct (nonempty (include_patterns P)
              && any_matches_include_patterns E P entry_list);
      destruct (nonempty (include_file_types P)
                && any_matches_include_types E P entry_list); reflexivity.
Qed.

Lemma recs_alike (fuel : nat) :
  forall dirpath prefix current_depth patterns (ds : St) bs,
    stop_writing bs = false ->
    same_run E prefix
      (build_rec E P fuel dirpath current_depth patterns bs)
      (draw_rec E P fuel dirpath prefix current_depth patterns ds) ds.
Proof.
  induction fuel as [|fuel IH];
    intros dirpath prefix current_depth patterns ds bs Hstop.
  - reflexivity.
  - destruct (depth_reached P current_depth) eqn:Hdepth.
    { rewrite build_rec_step, draw_rec_step, Hdepth.
      split; [exact Hstop|]. exists ds. rewrite loop_lines_nil, app_nil_r.
      repeat split. }
    destruct (extend_patterns E P dirpath patterns) as [extended|e] eqn:Hext.
    2: { rewrite build_rec_step, draw_rec_step, Hdepth, Hext.
         unfold bind, get. rewrite Hstop. reflexivity. }
    destruct (from_lines E extended) as [[]|e] eqn:Hspec.
    2: { rewrite build_rec_step, draw_rec_step, Hdepth, Hext.
         unfold bind, get. rewrite Hstop. cbn [lift]. unfold ret.
         rewrite Hspec. reflexivity. }
    pose proof (Htruncated dirpath extended (list_args_build P)) as Hpos.
    pose proof (Hkinds dirpath extended (list_args_build P)) as Hlisted.
    destruct (list_entries E dirpath extended (list_args_build P))
      as [entry_list truncated] eqn:Hle.
    cbn [fst snd] in Hpos, Hlisted.
    rewrite (@build_rec_run fuel dirpath current_depth patterns extended
               entry_list truncated bs Hdepth Hstop Hext Hspec Hle).
    assert (Hle' : list_entries E dirpath extended (list_args_draw P)
                   = (entry_list, truncated))
      by now rewrite list_args_same.
    destruct (@draw_rec_run fuel dirpath prefix current_depth patterns extended
                entry_list truncated ds Hdepth Hext Hspec Hle')
      as (ds1 & Hout1 & Htp1 & ->).
    assert (Hfiltered : forall entry,
               In entry (whitelist_filter E P entry_list) ->
               is_file E entry = negb (is_dir E entry)).
    { intros entry Hin. apply Hlisted. now apply whitelist_filter_In in Hin. }
    pose proof (@entries_rendered fuel IH (whitelist_filter E P entry_list)
                  truncated prefix current_depth extended Hpos Hfiltered
                  (whitelist_filter E P entry_list) 0 [] ds1
                  (b_note_listed dirpath extended bs)
                  eq_refl (incl_refl _) Hstop) as Hloop.
    unfold same_loop in Hloop.
    destruct (build_children E P _ (whitelist_filter E P entry_list) []
                             (b_note_listed dirpath extended bs))
      as [children bs2| |].
    + destruct Hloop as (Hstop2 & nodes & ds2 & Hnodes & Hn & Hdraw & Htp2 & Hout2).
      cbn [app] in Hnodes. subst nodes.
      unfold LineBuffer in *. rewrite Hdraw, Hstop2. cbn [negb].
      rewrite andb_true_r.
      destruct (0 <? truncated) eqn:Hmore.
      * split; [exact Hstop2|]. eexists. split; [reflexivity|].
        cbn [truncation_prefix out incr_entries set_out].
        split; [now rewrite Htp2, Htp1|].
        rewrite Hout2, Hout1, length_app, Nat2Z.inj_add, loop_lines_app.
        rewrite Hn, loop_lines_cons, loop_lines_nil.
        change (node_type (TruncNode (more_items_name truncated))
                =? "truncated")%string with true.
        cbn iota. cbn [length node_name].
        replace (0 + Z.of_nat (length (whitelist_filter E P entry_list))
                 =? Z.of_nat (length (whitelist_filter E P entry_list))
                    + Z.of_nat 1 - 1)
          with true by (symmetry; apply Z.eqb_eq; lia).
        rewrite <- app_assoc. reflexivity.
      * split; [exact Hstop2|]. exists ds2. split; [reflexivity|].
        split; [exact (eq_trans Htp2 Htp1)|].
        unfold LineBuffer in *.
        rewrite Hout2, Hout1, Hn, Z.add_0_r. reflexivity.
    + unfold LineBuffer in *. now rewrite Hloop.
    + unfold LineBuffer in *. now rewrite Hloop.
Qed.

Lemma draw_tree_tail (st : St) :
  truncation_prefix st = None ->
  exists st' : St,
    out st' = out st
    /\ (s <- get ;;
        when (nonempty (include_patterns P)
              && negb (files_matched_include_patterns s))
             (modify (print_stderr (warn_patterns P))) ;;
        when (nonempty (include_file_types P)
              && negb (files_matched_include_types s))
             (modify (print_stderr (warn_types P))) ;;
        match truncation_prefix s with
        | Some tp =>
            match max_entries P with
            | Some m => emit (more_entries_line E tp (entries s - m))
            | None => raise (TypeError "unsupported operand type(s) for -")
            end
        | None => ret tt
        end) st = Ret tt st'.
Proof.
  intros Htp. unfold bind at 1. unfold get at 1.
  rewrite !bind_when_modify, Htp.
  eexists. split; [|reflexivity].
  destruct (nonempty (include_patterns P)
            && negb (files_matched_include_patterns st));
    destruct (nonempty (include_file_types P)
              && negb (files_matched_include_types st)); reflexivity.
Qed.

Lemma draw_tree_run (fuel : nat) (ob : LineBuffer) :
  draw_tree E P fuel ob
  = match when (is_dir E []) (draw_rec E P fuel [] "" 0 [])
               (set_out (ob ++ [root_name E])%list (draw_init ob)) with
    | Ret _ st =>
        (s <- get ;;
         when (nonempty (include_patterns P)
               && negb (files_matched_include_patterns s))
              (modify (print_stderr (warn_patterns P))) ;;
         when (nonempty (include_file_types P)
               && negb (files_matched_include_types s))
              (modify (print_stderr (warn_types P))) ;;
         match truncation_prefix s with
         | Some tp =>
             match max_entries P with
             | Some m => emit (more_entries_line E tp (entries s - m))
             | None => raise (TypeError "unsupported operand type(s) for -")
             end
         | None => ret tt
         end) st
    | Exc e => Exc e
    | Fuel => Fuel
    end.
Proof. reflexivity. Qed.

Lemma build_tree_data_run (fuel : nat) :
  build_tree_data E P fuel
  = if is_dir E [] then
      match build_rec E P fuel [] 0 [] build_init with
      | Ret children bs => Ret (DirNode (root_name E) children) bs
      | Exc e => Exc e
      | Fuel => Fuel
      end
    else Ret (DirNode (root_name E) []) build_init.
Proof. unfold build_tree_data. destruct (is_dir E []); reflexivity. Qed.

Lemma trees_alike (fuel : nat) (ob : LineBuffer) :
  match build_tree_data E P fuel with
  | Ret tree _ =>
      exists st,
        draw_tree E P fuel ob = Ret tt st
        /\ out st = (ob ++ tree_lines E true tree)%list
  | Exc e => draw_tree E P fuel ob = Exc e
  | Fuel => draw_tree E P fuel ob = Fuel
  end.
Proof.
  rewrite build_tree_data_run, draw_tree_run.
  set (s1 := set_out (ob ++ [root_name E])%list (draw_init ob)).
  destruct (is_dir E []); cbn [when].
  - pose proof (@recs_alike fuel [] "" 0 [] s1 build_init eq_refl) as Hrec.
    unfold same_run in Hrec.
    destruct (build_rec E P fuel [] 0 [] build_init) as [kids bs| |].
    + destruct Hrec as (_ & ds & Hdraw & Htp & Hout).
      unfold LineBuffer in *. rewrite Hdraw.
      destruct (draw_tree_tail ds Htp) as (st & Hst & Htail).
      unfold LineBuffer in *. rewrite Htail.
      exists st. split; [reflexivity|].
      rewrite Hst, Hout. unfold tree_lines.
      rewrite rec_lines_children. cbn [node_children node_name].
      unfold s1. cbn [out set_out]. now rewrite <- app_assoc.
    + unfold LineBuffer in *. now rewrite Hrec.
    + unfold LineBuffer in *. now rewrite Hrec.
  - unfold ret at 1.
    destruct (draw_tree_tail s1 eq_refl) as (st & Hst & Htail).
    unfold LineBuffer in *. rewrite Htail.
    exists st. split; [reflexivity|]. rewrite Hst. reflexivity.
Qed.

End Refinement.


(** The [list_entries] taken from the specification, on a snapshot
    without dangling links, returns files and directories only, and never
    a negative count. *)
Lemma no_links_dir (name : string) (children : list fsnode) :
  no_links (FsDir name children) = forallb no_links children.
Proof.
  simpl. induction children as [|c rest IH]; [reflexivity|].
  simpl. now rewrite IH.
Qed.

Lemma no_links_lookup (p : path) :
  forall root k,
    no_links root = true -> fs_lookup root p = Some k -> no_links k = true.
Proof.
  induction p as [|c p IH]; intros root k Hroot Hlookup.
  - simpl in Hlookup. now injection Hlookup as <-.
  - destruct root as [name text|name children|name]; try discriminate.
    cbn [fs_lookup] in Hlookup.
    destruct (find (fun k0 => (fs_name k0 =? c)%string) children)
      as [k0|] eqn:Hfind; [|discriminate].
    apply find_some in Hfind. destruct Hfind as [Hin _].
    rewrite no_links_dir in Hroot.
    rewrite forallb_forall in Hroot.
    exact (IH k0 k (Hroot k0 Hin) Hlookup).
Qed.

Lemma fs_lookup_child (dirpath : path) (c : string) :
  forall root,
    fs_lookup root (child dirpath c)
    = match fs_lookup root dirpath with
      | Some (FsDir _ children) =>
          find (fun k => (fs_name k =? c)%string) children
      | _ => None
      end.
Proof.
  unfold child. induction dirpath as [|d dirpath IH]; intros root.
  - cbn [app fs_lookup]. destruct root as [name text|name children|name];
      try reflexivity.
    now destruct (find (fun k => (fs_name k =? c)%string) children).
  - cbn [app fs_lookup]. destruct root as [name text|name children|name];
      try reflexivity.
    destruct (find (fun k => (fs_name k =? d)%string) children) as [k|];
      [apply IH|reflexivity].
Qed.

Lemma env_of_lists_files_and_directories (parts : list string)
  (root : fsnode) :
  no_links root = true ->
  forall dirpath patterns a entry,
    In entry (fst (list_entries (env_of parts root) dirpath patterns a)) ->
    is_file (env_of parts root) entry
    = negb (is_dir (env_of parts root) entry).
Proof.
  intros Hroot dirpath patterns a entry H. cbn [list_entries env_of] in H.
  apply spec_list_entries_names in H.
  destruct H as (children & (name & Hlookup) & H).
  apply in_map_iff in H. destruct H as (k & <- & Hk).
  cbn [is_file is_dir env_of]. unfold fs_is_file, fs_is_dir.
  rewrite fs_lookup_child, Hlookup.
  destruct (find (fun k0 => (fs_name k0 =? fs_name k)%string) children)
    as [k'|] eqn:Hfind.
  - apply find_some in Hfind. destruct Hfind as [Hin _].
    pose proof (no_links_lookup dirpath root Hroot Hlookup) as Hdir.
    rewrite no_links_dir, forallb_forall in Hdir.
    specialize (Hdir k' Hin).
    destruct k' as [n t|n ch|n]; [reflexivity|reflexivity|discriminate].
  - exfalso. apply (find_none _ _ Hfind) in Hk.
    now rewrite String.eqb_refl in Hk.
Qed.

Lemma env_of_hides_no_negative_count (parts : list string) (root : fsnode) :
  forall dirpath patterns a,
    0 <= snd (list_entries (env_of parts root) dirpath patterns a).
Proof.
  intros dirpath patterns a. cbn [list_entries env_of].
  unfold EntryFilter.list_entries.
  destruct (fs_lookup root dirpath) as [[| name children |]|];
    try (cbn; lia).
  cbv zeta.
  destruct (la_max_items a) as [n|]; [|cbn; lia].
  match goal with
  | |- 0 <= snd (if negb (la_no_limit a) && (n <? ?len) then _ else _) =>
      destruct (negb (la_no_limit a)); cbn [andb];
      [destruct (n <? len) eqn:Hn; cbn [snd]; [apply Z.ltb_lt in Hn; lia|lia]
      |cbn [snd]; lia]
  end.
Qed.


(** ** [write_exports] *)


(** ** [ParsingService._correct_args] *)

(** Extra X17.  [_correct_args] returns only with a logger that holds no
    message: [if self.logger:] takes the truth value of [__len__], and
    [Logger] has no method [debug], so with one stored message the call
    raises [AttributeError] unless [pathlib] raised first; when it
    returns, [format] is unchanged and [export] and [zip] are set exactly
    when they were. *)
Theorem correct_args_returns_only_with_an_empty_logger
  (path_suffix : string -> string)
  (path_with_suffix : string -> string -> result string)
  (path_str : string -> string) (logger : Logger.t) (args : Namespace) :
  match _correct_args path_suffix path_with_suffix path_str logger args with
  | Ok args' =>
      Logger.get_logs logger = []
      /\ ns_format args' = ns_format args
      /\ (ns_export args' = None <-> ns_export args = None)
      /\ (ns_zip args' = None <-> ns_zip args = None)
  | Raise e =>
      (Logger.get_logs logger <> [] /\ e = AttributeError "Logger" "debug")
      \/ exists p ext, path_with_suffix p ext = Raise e
  end.
Proof.
  unfold _correct_args, log_debug, Logger.truthy, Logger.len, Logger.get_logs.
  assert (Hfix : forall p ext exts fmt e,
             _fix_output_path path_suffix path_with_suffix path_str
                              p ext exts fmt = Raise e ->
             exists p' ext', path_with_suffix p' ext' = Raise e).
  { intros p ext exts fmt e. unfold _fix_output_path.
    destruct (path_suffix p =? "")%string; [|discriminate].
    destruct (negb (ext =? "")%string); [eauto|].
    destruct (negb (fmt =? "")%string); [|discriminate].
    destruct (dict_get exts fmt); [eauto|discriminate]. }
  destruct args as [export zip format]. cbn [ns_export ns_zip ns_format].
  destruct export as [export|].
  - destruct (_fix_output_path _ _ _ export _ _ _) as [fixed|e] eqn:Hf;
      [|right; eapply Hfix; eassumption].
    cbn [ns_zip ns_export ns_format].
    destruct zip as [zip|].
    + destruct (_fix_output_path _ _ _ zip _ _ _) as [fixed'|e] eqn:Hz;
        [|right; eapply Hfix; eassumption].
      destruct (Logger._messages logger) as [|m ms]; cbn.
      * repeat split; discriminate.
      * left. split; [discriminate|reflexivity].
    + destruct (Logger._messages logger) as [|m ms]; cbn.
      * repeat split; discriminate.
      * left. split; [discriminate|reflexivity].
  - destruct zip as [zip|]; cbn [ns_zip ns_export ns_format].
    + destruct (_fix_output_path _ _ _ zip _ _ _) as [fixed'|e] eqn:Hz;
        [|right; eapply Hfix; eassumption].
      destruct (Logger._messages logger) as [|m ms]; cbn.
      * repeat split; discriminate.
      * left. split; [discriminate|reflexivity].
    + destruct (Logger._messages logger) as [|m ms]; cbn.
      * repeat split.
      * left. split; [discriminate|reflexivity].
Qed.

(** ** [resolve_root_paths] *)

Section RootPaths.

Variable glob : string -> list string.
Variable path_resolve : string -> string.
Variable path_exists : string -> bool.

Lemma resolve_roots_from_spec (paths : list string) :
  forall roots,
    match resolve_roots_from glob path_resolve path_exists paths roots with
    | Returned roots' printed =>
        forallb (path_accepted glob path_resolve path_exists) paths = true
        /\ roots' = (roots ++ flat_map (path_roots glob path_resolve) paths)%list
        /\ printed = []
    | SystemExit code printed =>
        code = 1
        /\ exists before bad after,
             paths = (before ++ bad :: after)%list
             /\ forallb (path_accepted glob path_resolve path_exists) before
                = true
             /\ path_accepted glob path_resolve path_exists bad = false
             /\ printed = [path_error path_resolve bad]
    end.
Proof.
  induction paths as [|path_str rest IH]; intros roots.
  - cbn. repeat split. now rewrite app_nil_r.
  - cbn [resolve_roots_from forallb flat_map].
    unfold path_accepted at 1, path_roots at 1.
    assert (Hbad : path_accepted glob path_resolve path_exists path_str = false ->
                   1 = 1
                   /\ exists before bad after,
                        path_str :: rest = (before ++ bad :: after)%list
                        /\ forallb (path_accepted glob path_resolve path_exists)
                                   before = true
                        /\ path_accepted glob path_resolve path_exists bad
                           = false
                        /\ [path_error path_resolve path_str]
                           = [path_error path_resolve bad]).
    { intros Hno. split; [reflexivity|]. exists [], path_str, rest.
      repeat split. exact Hno. }
    assert (Hstep : forall added,
               path_accepted glob path_resolve path_exists path_str = true ->
               match resolve_roots_from glob path_resolve path_exists rest
                       (roots ++ added)%list with
               | Returned roots' printed =>
                   true
                   && forallb (path_accepted glob path_resolve path_exists)
                              rest = true
                   /\ roots' = (roots ++ added
                                ++ flat_map (path_roots glob path_resolve) rest)%list
                   /\ printed = []
               | SystemExit code printed =>
                   code = 1
                   /\ exists before bad after,
                        path_str :: rest = (before ++ bad :: after)%list
                        /\ forallb (path_accepted glob path_resolve path_exists)
                                   before = true
                        /\ path_accepted glob path_resolve path_exists bad
                           = false
                        /\ printed = [path_error path_resolve bad]
               end).
    { intros added Hyes. specialize (IH (roots ++ added)%list).
      destruct (resolve_roots_from glob path_resolve path_exists rest
                  (roots ++ added)%list) as [roots' printed|code printed].
      - destruct IH as (Hall & -> & ->). cbn [andb].
        split; [exact Hall|]. split; [now rewrite <- app_assoc|reflexivity].
      - destruct IH as (-> & before & bad & after & -> & Hb & Hbad' & ->).
        split; [reflexivity|]. exists (path_str :: before), bad, after.
        split; [reflexivity|]. cbn [forallb]. rewrite Hyes, Hb.
        repeat split. exact Hbad'. }
    unfold path_error in Hbad. unfold path_accepted at 1 in Hbad.
    unfold path_accepted at 1 in Hstep.
    destruct (has_wildcard path_str).
    + destruct (nonempty (glob path_str)) eqn:Hglob; cbn [negb].
      * exact (Hstep _ eq_refl).
      * exact (Hbad eq_refl).
    + destruct (path_exists (path_resolve path_str)); cbn [negb].
      * exact (Hstep _ eq_refl).
      * exact (Hbad eq_refl).
Qed.

End RootPaths.


(** ** File contents in the exports *)

Section FormatContents.

Variable E : Env.
Variable emoji : bool.

Lemma files_with_contents_dir (name : string) (children : list tnode) :
  files_with_contents (DirNode name children)
  = flat_map files_with_contents children.
Proof.
  cbn [files_with_contents].
  induction children as [|c rest IH]; [reflexivity|].
  cbn [flat_map]. now rewrite IH.
Qed.

Lemma files_collect_contents {Item : Type}
  (item_of : string -> string -> string -> Item) (include_contents : bool)
  (child : tnode) (st : FormatState Item) :
  file_contents_list (collect_contents item_of include_contents child st)
  = (file_contents_list st
     ++ if include_contents then
          match child with
          | FileNode name p (Some contents) => [item_of p name contents]
          | _ => []
          end
        else [])%list.
Proof.
  destruct child as [name p [contents|]|name children|name];
    destruct include_contents; cbn; now rewrite ?app_nil_r.
Qed.

(** What [rec] stores: one item for every file below the node that
    carries contents, in the order of the tree, when contents are asked
    for, and nothing otherwise. *)
Lemma format_rec_files {Item : Type}
  (item_of : string -> string -> string -> Item) (include_contents : bool)
  (node : tnode) :
  forall prefix (st : FormatState Item),
    file_contents_list
      (format_rec E item_of emoji include_contents node prefix st)
    = (file_contents_list st
       ++ if include_contents then
            map (fun item => item_of (fst (fst item)) (snd (fst item))
                                     (snd item))
                (files_below node)
          else [])%list.
Proof.
  induction node as [name p c|name children IH|name] using tnode_induction;
    intros prefix st.
  - cbn. destruct include_contents; now rewrite app_nil_r.
  - rewrite format_rec_dir. unfold files_below. cbn [node_children].
    generalize (Z.of_nat (length children)) as size. generalize 0 as i.
    revert st.
    induction IH as [|child rest Hchild _ IHrest]; intros st i size.
    + cbn. destruct include_contents; now rewrite app_nil_r.
    + cbn [format_loop flat_map]. rewrite IHrest. clear IHrest.
      rewrite map_app.
      assert (Hstep :
                file_contents_list
                  (if (node_type child =? "truncated")%string then
                     append_line
                       (prefix ++ (if i =? size - 1 then LAST E else BRANCH E)
                               ++ node_name child) st
                   else
                     if nonempty (node_children child) then
                       format_rec E item_of emoji include_contents child
                         (prefix ++ (if i =? size - 1 then SPACE E else VERT E))
                         (collect_contents item_of include_contents child
                            (append_line
                               (child_line E emoji prefix
                                  (if i =? size - 1 then LAST E else BRANCH E)
                                  child) st))
                     else
                       collect_contents item_of include_contents child
                         (append_line
                            (child_line E emoji prefix
                               (if i =? size - 1 then LAST E else BRANCH E)
                               child) st))
                = (file_contents_list st
                   ++ if include_contents then
                        map (fun item => item_of (fst (fst item))
                                                 (snd (fst item)) (snd item))
                            (files_with_contents child)
                      else [])%list).
      { destruct child as [cname p [contents|]|cname kids|cname].
        - cbn. destruct include_contents; cbn; now rewrite ?app_nil_r.
        - cbn. destruct include_contents; cbn; now rewrite ?app_nil_r.
        - change (node_type (DirNode cname kids) =? "truncated")%string
            with false. cbn iota.
          rewrite files_with_contents_dir.
          destruct kids as [|k kids].
          + cbn. destruct include_contents; cbn; now rewrite ?app_nil_r.
          + cbn [nonempty node_children]. rewrite Hchild.
            rewrite files_collect_contents. unfold files_below.
            cbn [node_children app_nil_r file_contents_list append_line].
            destruct include_contents; now rewrite !app_nil_r.
        - cbn. destruct include_contents; cbn; now rewrite ?app_nil_r. }
      cbv zeta. rewrite Hstep.
      destruct include_contents; now rewrite <- ?app_assoc, ?app_nil_r.
  - cbn. destruct include_contents; now rewrite app_nil_r.
Qed.

End FormatContents.

Section BuildContents.

Variable E : Env.
Variable P : Params.

Hypothesis Hbare : include_contents P = false.

Lemma file_node_bare (entry : path) :
  files_with_contents (file_node E P entry) = [].
Proof. unfold file_node. now rewrite Hbare. Qed.

Lemma build_children_bare
  (recurse : path -> M BuildState (list tnode)) (entry_list : list path) :
  (forall entry s kids s',
      recurse entry s = Ret kids s' ->
      flat_map files_with_contents kids = []) ->
  forall children s result s',
    build_children E P recurse entry_list children s = Ret result s' ->
    flat_map files_with_contents children = [] ->
    flat_map files_with_contents result = [].
Proof.
  intros Hrec.
  induction entry_list as [|entry rest IH]; intros children s result s'.
  - cbn. now intros [= <- <-].
  - cbn [build_children]. unfold bind at 1. unfold get at 1.
    destruct (stop_writing s); [now intros [= <- <-]|].
    destruct (cap_reached P (b_entries s)).
    { unfold bind, modify, ret. intros [= <- <-] Hc.
      rewrite flat_map_app, Hc. reflexivity. }
    destruct (is_file E entry).
    { unfold bind at 1. unfold modify at 1. intros Hrun Hc.
      apply (IH _ _ _ _ Hrun).
      rewrite flat_map_app, Hc. cbn [flat_map app].
      now rewrite file_node_bare. }
    destruct (is_dir E entry); [|apply IH].
    unfold bind at 1. unfold modify at 1. intros Hrun Hc.
    apply bind_Ret in Hrun. destruct Hrun as (kids & s2 & Hkids & Hrun).
    apply (IH _ _ _ _ Hrun).
    rewrite flat_map_app, Hc. cbn [flat_map app].
    rewrite files_with_contents_dir, (Hrec _ _ _ _ Hkids). reflexivity.
Qed.

Lemma build_rec_bare (fuel : nat) :
  forall dirpath current_depth patterns s kids s',
    build_rec E P fuel dirpath current_depth patterns s = Ret kids s' ->
    flat_map files_with_contents kids = [].
Proof.
  induction fuel as [|fuel IH];
    intros dirpath current_depth patterns s kids s'; [discriminate|].
  cbn [build_rec]. destruct (depth_reached P current_depth).
  { now intros [= <- <-]. }
  unfold bind at 1. unfold get at 1.
  destruct (stop_writing s); [now intros [= <- <-]|].
  intros Hrun. apply bind_Ret in Hrun.
  destruct Hrun as (extended & s0 & _ & Hrun).
  apply bind_Ret in Hrun. destruct Hrun as ([] & s1 & _ & Hrun).
  unfold bind at 1 in Hrun. unfold modify at 1 in Hrun.
  destruct (list_entries E dirpath extended (list_args_build P))
    as [entry_list truncated].
  apply bind_Ret in Hrun. destruct Hrun as (children & s2 & Hchildren & Hrun).
  assert (Hb : flat_map files_with_contents children = []).
  { eapply build_children_bare; [|exact Hchildren|reflexivity].
    intros entry. apply IH. }
  clear Hchildren. rename Hb into Hchildren.
  unfold bind at 1 in Hrun. unfold get at 1 in Hrun.
  destruct ((0 <? truncated) && negb (stop_writing s2)).
  - unfold bind, modify, ret in Hrun. injection Hrun as <- <-.
    rewrite flat_map_app, Hchildren. reflexivity.
  - unfold ret in Hrun. now injection Hrun as <- <-.
Qed.

Lemma build_tree_data_bare (fuel : nat) (tree : tnode) (st : BuildState) :
  build_tree_data E P fuel = Ret tree st -> files_below tree = [].
Proof.
  unfold build_tree_data. destruct (is_dir E []).
  - intros Hrun. apply bind_Ret in Hrun.
    destruct Hrun as (kids & s & Hkids & Hret).
    unfold ret in Hret. injection Hret as <- <-.
    unfold files_below. cbn [node_children].
    exact (build_rec_bare _ _ _ _ _ Hkids).
  - unfold ret. now intros [= <- <-].
Qed.

End BuildContents.

(** Extra X19.  A tree that [build_tree_data] built with
    [include_contents] off carries no file contents, so each formatter
    returns the same export whether or not it is asked for contents: the
    text export is the tree's lines and the Markdown export is these
    lines between code fences, with no contents section. *)
Theorem exports_of_a_bare_tree_have_no_contents (E : Env) (P : Params)
  (get_language_hint : string -> string) (fuel : nat) (tree : tnode)
  (st : BuildState) (emoji include_contents_too : bool) :
  include_contents P = false ->
  build_tree_data E P fuel = Ret tree st ->
  format_text_tree E tree emoji include_contents_too
  = PyStr.join nl (tree_lines E emoji tree)
  /\ format_markdown_tree E get_language_hint tree emoji include_contents_too
     = "```" ++ nl ++ PyStr.join nl (tree_lines E emoji tree) ++ nl
       ++ "```" ++ nl.
Proof.
  intros Hbare Hrun.
  pose proof (@build_tree_data_bare E P Hbare fuel tree st Hrun) as Hfiles.
  unfold format_text_tree, format_markdown_tree, format_run.
  rewrite !format_rec_files, !format_rec_lines, Hfiles.
  cbn [file_contents_list lines app map].
  fold (tree_lines E emoji tree).
  destruct include_contents_too; cbn [nonempty andb]; split; reflexivity.
Qed.

Lemma exports_of_a_bare_tree_have_no_contents_witness :
  let tree := DirNode "p" [DirNode "src"
                             [FileNode "main.py" "src/main.py" None]] in
  format_text_tree scenario_env tree false true
  = PyStr.join nl (tree_lines scenario_env false tree)
  /\ format_markdown_tree scenario_env (fun _ => "") tree false true
     = "```" ++ nl ++ PyStr.join nl (tree_lines scenario_env false tree) ++ nl
       ++ "```" ++ nl.
Proof.
  intros tree.
  apply (@exports_of_a_bare_tree_have_no_contents scenario_env default_params
           (fun _ => "") 3 tree
           {| b_entries := 3; stop_writing := false;
              b_listed := [([], []); (["src"], ["src/*.pyc"])] |}
           false true).
  - reflexivity.
  - vm_compute. reflexivity.
Defined.

(** ** The warnings of [draw_tree] *)

Section Warnings.

Context {B : Type} {OB : OutputBufferLike B}.
Variable E : Env.
Variable P : Params.

Lemma hoare_when_modify_to {S} (I J : S -> Prop) (c : bool) (f : S -> S) :
  (forall s, I s -> J (if c then f s else s)) ->
  hoare I (when c (modify f)) (fun _ => J).
Proof. intros H s Hs. specialize (H s Hs). now destruct c. Qed.

Lemma draw_rec_flags (fuel : nat) :
  forall dirpath prefix current_depth patterns,
    hoare (flags_follow_listing (B := B) E P)
          (draw_rec E P fuel dirpath prefix current_depth patterns)
          (fun _ => flags_follow_listing E P).
Proof.
  induction fuel as [|fuel IH]; intros dirpath prefix current_depth patterns.
  - intros s _. exact Logic.I.
  - cbn [draw_rec]. destruct (depth_reached P current_depth);
      [apply hoare_ret|].
    apply hoare_bind_lift. intros extended _.
    apply hoare_bind_lift. intros _ _.
    destruct (list_entries E dirpath extended (list_args_draw P))
      as [entry_list truncated] eqn:Hle.
    set (c1 := nonempty (include_patterns P)
               && any_matches_include_patterns E P entry_list).
    set (c2 := nonempty (include_file_types P)
               && any_matches_include_types E P entry_list).
    apply hoare_seq with
      (J := fun _ st =>
              stderr st = []
              /\ (files_matched_include_patterns st || c1
                  = nonempty (include_patterns P)
                    && matched_patterns E P (listed st))
              /\ (files_matched_include_types st || c2
                  = nonempty (include_file_types P)
                    && matched_types E P (listed st))).
    { apply hoare_modify_to. intros s (Herr & Hp & Ht).
      cbn [stderr files_matched_include_patterns files_matched_include_types
           listed note_listed].
      split; [exact Herr|].
      unfold matched_patterns, matched_types. rewrite !existsb_app.
      cbn [existsb fst snd]. rewrite Hle. cbn [fst].
      fold (matched_patterns E P (listed s)).
      fold (matched_types E P (listed s)).
      rewrite Hp, Ht. unfold c1, c2.
      split.
      - destruct (nonempty (include_patterns P)); cbn [andb];
          [now rewrite orb_false_r|reflexivity].
      - destruct (nonempty (include_file_types P)); cbn [andb];
          [now rewrite orb_false_r|reflexivity]. }
    intros _. apply hoare_lift_to. intros _ _.
    apply hoare_seq with
      (J := fun _ st =>
              stderr st = []
              /\ (files_matched_include_patterns st
                  = nonempty (include_patterns P)
                    && matched_patterns E P (listed st))
              /\ (files_matched_include_types st || c2
                  = nonempty (include_file_types P)
                    && matched_types E P (listed st))).
    { apply hoare_when_modify_to. intros s (Herr & Hp & Ht).
      destruct c1; cbn in *.
      - rewrite orb_true_r in Hp. now repeat split.
      - rewrite orb_false_r in Hp. now repeat split. }
    intros _.
    apply hoare_seq with (J := fun _ => flags_follow_listing (B := B) E P).
    { apply hoare_when_modify_to. intros s (Herr & Hp & Ht).
      destruct c2; cbn in *.
      - rewrite orb_true_r in Ht. now repeat split.
      - rewrite orb_false_r in Ht. now repeat split. }
    intros _.
    apply hoare_bind.
    { apply hoare_for_enumerate. intros i entry _.
      apply hoare_bind_get. intros st.
      destruct (cap_reached P (entries st)).
      - apply hoare_bind; [apply hoare_modify; trivial|]. intros _.
        apply hoare_bind; [apply hoare_modify; trivial|]. intros _.
        apply hoare_when. intros _. apply IH.
      - apply hoare_bind_lift. intros line _.
        apply hoare_bind; [apply hoare_emit; trivial|]. intros _.
        apply hoare_bind; [apply hoare_modify; trivial|]. intros _.
        apply hoare_when. intros _. apply IH. }
    intros _. apply hoare_when. intros _.
    apply hoare_bind_get. intros st.
    destruct (cap_reached P (entries st)).
    + apply hoare_bind; [apply hoare_modify; trivial|]. intros _.
      apply hoare_modify; trivial.
    + apply hoare_bind; [apply hoare_emit; trivial|].
      intros _. apply hoare_modify; trivial.
Qed.

End Warnings.

(** Extra X20.  When [draw_tree] returns, what it has printed to
    [sys.stderr] is decided by the calls of [list_entries] it made: the
    warning about the include patterns is there exactly when patterns were
    given and no call returned a file that matches them, and likewise for
    the include file types; the first warning comes first.  The files are
    looked for in what [list_entries] returned, before the whitelist and
    whatever the cap hides. *)
Theorem warnings_follow_the_listing (B : Type) (OB : OutputBufferLike B)
  (E : Env) (P : Params) (fuel : nat) (ob : B) (st : DrawState B) :
  draw_tree E P fuel ob = Ret tt st ->
  stderr st
  = ((if nonempty (include_patterns P)
         && negb (matched_patterns E P (listed st))
      then [warn_patterns P] else [])
     ++ (if nonempty (include_file_types P)
            && negb (matched_types E P (listed st))
         then [warn_types P] else []))%list.
Proof.
  unfold draw_tree. intros Hrun.
  apply bind_Ret in Hrun. destruct Hrun as ([] & s1 & Hroot & Hrun).
  apply bind_Ret in Hrun. destruct Hrun as ([] & s2 & Hwalk & Hrun).
  assert (H2 : flags_follow_listing E P s2).
  { assert (Hrec : hoare (flags_follow_listing (B := B) E P)
                     (when (is_dir E []) (draw_rec E P fuel [] "" 0 []))
                     (fun _ => flags_follow_listing E P)).
    { apply hoare_when. intros _. apply draw_rec_flags. }
    specialize (Hrec s1). rewrite Hwalk in Hrec. apply Hrec.
    unfold emit in Hroot.
    destruct (write (out (draw_init ob)) (root_name E)); [|discriminate].
    injection Hroot as <-. repeat split. cbn.
    + now rewrite andb_false_r.
    + cbn. now rewrite andb_false_r. }
  destruct H2 as (Herr & Hp & Ht).
  apply bind_Ret in Hrun. destruct Hrun as (s2' & s2'' & Hget & Hrun).
  unfold get in Hget. injection Hget as <- <-.
  apply bind_Ret in Hrun. destruct Hrun as ([] & s3 & H3 & Hrun).
  apply when_modify_Ret in H3.
  apply bind_Ret in Hrun. destruct Hrun as ([] & s4 & H4 & Hrun).
  apply when_modify_Ret in H4.
  assert (Htail : stderr st = stderr s4 /\ listed st = listed s4).
  { destruct (truncation_prefix s2); [|now injection Hrun as <-].
    destruct (max_entries P); [|discriminate].
    unfold emit in Hrun.
    destruct (write (out s4) _); [|discriminate].
    now injection Hrun as <-. }
  destruct Htail as [-> ->].
  assert (Hl : listed s4 = listed s2).
  { subst s4 s3.
    destruct (nonempty (include_file_types P)
              && negb (files_matched_include_types s2));
      destruct (nonempty (include_patterns P)
                && negb (files_matched_include_patterns s2)); reflexivity. }
  assert (Hs : stderr s4
               = ((if nonempty (include_patterns P)
                      && negb (files_matched_include_patterns s2)
                   then [warn_patterns P] else [])
                  ++ (if nonempty (include_file_types P)
                         && negb (files_matched_include_types s2)
                      then [warn_types P] else []))%list).
  { subst s4 s3.
    destruct (nonempty (include_file_types P)
              && negb (files_matched_include_types s2));
      destruct (nonempty (include_patterns P)
                && negb (files_matched_include_patterns s2));
      cbn; now rewrite Herr. }
  rewrite Hs, Hl, Hp, Ht.
  destruct (nonempty (include_patterns P));
    destruct (nonempty (include_file_types P)); reflexivity.
Qed.


Lemma warnings_follow_the_listing_witness :
  let P := with_include_patterns ["*.md"] default_params in
  let st := {| out := ["p"; "`-- src/"];
               stderr :=
                 ["Warning: No files found matching --include patterns: *.md"];
               entries := 2; truncation_prefix := None;
               files_matched_include_patterns := false;
               files_matched_include_types := false;
               listed := [([], []); (["src"], ["src/*.pyc"])] |} in
  stderr st
  = ((if nonempty (include_patterns P)
         && negb (matched_patterns scenario_env P (listed st))
      then [warn_patterns P] else [])
     ++ (if nonempty (include_file_types P)
            && negb (matched_types scenario_env P (listed st))
         then [warn_types P] else []))%list.
Proof.
  intros P st.
  apply (@warnings_follow_the_listing LineBuffer LineBuffer_like scenario_env
           P 3 [] st).
  vm_compute. reflexivity.
Defined.

(** ** The capped rendering against the full one *)

(** Arithmetic on the counters of a state whose buffer is a
    [LineBuffer]. *)
Ltac count_lia := unfold LineBuffer in *; lia.

Lemma draw_rec_enter (E : Env) (P : Params) (fuel : nat) (dirpath : path)
  (prefix : string) (current_depth : Z) (patterns extended : list string)
  (entry_list : list path) (truncated : Z) (ds : DrawState LineBuffer) :
  depth_reached P current_depth = false ->
  extend_patterns E P dirpath patterns = Ok extended ->
  list_entries E dirpath extended (list_args_draw P)
  = (entry_list, truncated) ->
  draw_rec E P (S fuel) dirpath prefix current_depth patterns ds
  = match from_lines E extended, include_spec_check E P with
    | Ok _, Ok _ =>
        match for_enumerate (whitelist_filter E P entry_list) 0
                (draw_entry E P fuel (whitelist_filter E P entry_list)
                            truncated prefix current_depth extended)
                (enter_directory E P dirpath extended entry_list ds) with
        | Ret _ ds' => more_items_step E P prefix truncated ds'
        | Exc e => Exc e
        | Fuel => Fuel
        end
    | Raise e, _ => Exc e
    | Ok _, Raise e => Exc e
    end.
Proof.
  intros Hdepth Hext Hle.
  rewrite draw_rec_step, Hdepth, Hext.
  unfold bind at 1. cbn [lift]. unfold ret at 1. unfold bind at 1.
  destruct (from_lines E extended) as [[]|e]; [|reflexivity].
  cbn [lift]. unfold ret at 1. unfold bind at 1. unfold modify at 1.
  rewrite Hle. unfold bind at 1.
  destruct (include_spec_check E P) as [[]|e]; [|reflexivity].
  cbn [lift]. unfold ret at 1. rewrite !bind_when_modify. reflexivity.
Qed.

Lemma for_enumerate_cons {S A} (x : A) (l : list A) (i : Z)
  (body : Z -> A -> M S unit) (s : S) :
  for_enumerate (x :: l) i body s
  = match body i x s with
    | Ret _ s' => for_enumerate l (i + 1) body s'
    | Exc e => Exc e
    | Fuel => Fuel
    end.
Proof. reflexivity. Qed.

Lemma draw_entry_run (E : Env) (P : Params) (fuel : nat)
  (entry_list : list path) (truncated : Z) (prefix : string)
  (current_depth : Z) (patterns : list string) (i : Z) (entry : path)
  (ds : DrawState LineBuffer) :
  let is_last :=
    (i =? Z.of_nat (length entry_list) - 1) && (truncated =? 0) in
  draw_entry E P fuel entry_list truncated prefix current_depth patterns
             i entry ds
  = if cap_reached P (entries ds) then
      when (is_dir E entry)
           (draw_rec E P fuel entry (prefix ++ SPACE E) (current_depth + 1)
                     patterns)
           (incr_entries (note_truncation prefix ds))
    else
      match entry_line E P prefix (if is_last then LAST E else BRANCH E)
                       entry with
      | Ok line =>
          when (is_dir E entry)
               (draw_rec E P fuel entry
                         (prefix ++ (if is_last then SPACE E else VERT E))
                         (current_depth + 1) patterns)
               (incr_entries (set_out (out ds ++ [line])%list ds))
      | Raise e => Exc e
      end.
Proof.
  intros is_last. unfold draw_entry, bind, get.
  destruct (cap_reached P (entries ds)); [reflexivity|].
  cbv zeta. fold is_last.
  destruct (entry_line E P prefix (if is_last then LAST E else BRANCH E) entry);
    reflexivity.
Qed.

Lemma more_items_step_run (E : Env) (P : Params) (prefix : string)
  (truncated : Z) (ds : DrawState LineBuffer) :
  more_items_step E P prefix truncated ds
  = Ret tt
      (if 0 <? truncated then
         if cap_reached P (entries ds) then
           incr_entries (note_truncation prefix ds)
         else
           incr_entries
             (set_out (out ds ++ [more_items_line E prefix truncated])%list ds)
       else ds).
Proof.
  unfold more_items_step. destruct (0 <? truncated); [|reflexivity].
  cbn [when]. unfold bind, get.
  destruct (cap_reached P (entries ds)); reflexivity.
Qed.

Section Capped.

Variable E : Env.
Variable P : Params.
Variable m : Z.
Variable before : Z.

Local Notation "'Pu'" := (with_max_entries None P).
Local Notation "'Pc'" := (with_max_entries (Some m) P).
Local Notation "'St'" := (DrawState LineBuffer).

Lemma cap_never_u (n : Z) : cap_reached Pu n = false.
Proof. reflexivity. Qed.

Lemma cap_reached_c (n : Z) : cap_reached Pc n = (m <=? n).
Proof. reflexivity. Qed.

Lemma firstn_short {A} (k : nat) (l : list A) (x : A) :
  (length l < k)%nat -> firstn k (l ++ [x]) = (firstn k l ++ [x])%list.
Proof.
  intros H. rewrite firstn_app.
  rewrite (@firstn_all2 _ k l) by lia.
  f_equal. destruct (k - length l)%nat eqn:Hk; [lia|].
  cbn. now rewrite firstn_nil.
Qed.

Lemma firstn_full {A} (k : nat) (l : list A) (x : A) :
  (k <= length l)%nat -> firstn k (l ++ [x]) = firstn k l.
Proof.
  intros H. rewrite firstn_app.
  replace (k - length l)%nat with 0%nat by lia.
  cbn. now rewrite app_nil_r.
Qed.

Lemma cut_short_shown (su sc : St) (line : string) :
  cut_short m before su sc ->
  cap_reached Pc (entries sc) = false ->
  cut_short m before (incr_entries (set_out (out su ++ [line])%list su))
            (incr_entries (set_out (out sc ++ [line])%list sc)).
Proof.
  intros (He & Hlen & Hone & Hb & Hout) Hcap. rewrite cap_reached_c in Hcap.
  apply Z.leb_gt in Hcap. unfold cut_short.
  cbn [entries out incr_entries set_out]. unfold LineBuffer in *.
  split; [lia|]. split; [rewrite length_app; cbn [length]; lia|].
  split; [lia|]. split; [exact Hb|].
  rewrite Hout. symmetry. apply firstn_short. lia.
Qed.

Lemma cut_short_hidden (su sc : St) (line prefix : string) :
  cut_short m before su sc ->
  cap_reached Pc (entries sc) = true ->
  cut_short m before (incr_entries (set_out (out su ++ [line])%list su))
            (incr_entries (note_truncation prefix sc)).
Proof.
  intros (He & Hlen & Hone & Hb & Hout) Hcap. rewrite cap_reached_c in Hcap.
  apply Z.leb_le in Hcap. unfold cut_short.
  cbn [entries out incr_entries set_out note_truncation].
  unfold LineBuffer in *.
  split; [lia|]. split; [rewrite length_app; cbn [length]; lia|].
  split; [lia|]. split; [exact Hb|].
  rewrite Hout. symmetry. apply firstn_full. lia.
Qed.

Lemma cut_short_enter (dirpath : path) (extended : list string)
  (entry_list : list path) (su sc : St) :
  cut_short m before su sc ->
  cut_short m before (enter_directory E Pu dirpath extended entry_list su)
            (enter_directory E Pc dirpath extended entry_list sc)
  /\ entries (enter_directory E Pc dirpath extended entry_list sc)
     = entries sc.
Proof.
  intros H. unfold enter_directory. cbv zeta.
  change (include_patterns Pc) with (include_patterns Pu).
  change (include_file_types Pc) with (include_file_types Pu).
  change (any_matches_include_patterns E Pc entry_list)
    with (any_matches_include_patterns E Pu entry_list).
  change (any_matches_include_types E Pc entry_list)
    with (any_matches_include_types E Pu entry_list).
  destruct (nonempty (include_patterns Pu)
            && any_matches_include_patterns E Pu entry_list);
    destruct (nonempty (include_file_types Pu)
              && any_matches_include_types E Pu entry_list);
    (split; [exact H|reflexivity]).
Qed.

(** What the simulation gives for a call of [rec], and for the loop over
    the entries. *)
Section Step.

Variable fuel : nat.

Hypothesis IH :
  forall dirpath prefix_u prefix_c current_depth patterns (su sc : St),
    cut_short m before su sc ->
    prefix_c = prefix_u \/ m <= entries sc ->
    match draw_rec E Pu fuel dirpath prefix_u current_depth patterns su with
    | Ret _ su' =>
        exists sc',
          draw_rec E Pc fuel dirpath prefix_c current_depth patterns sc
          = Ret tt sc'
          /\ cut_short m before su' sc' /\ entries sc <= entries sc'
    | Exc _ => True
    | Fuel => True
    end.

Variable entry_list : list path.
Variable truncated : Z.
Variable prefix_u prefix_c : string.
Variable current_depth : Z.
Variable patterns : list string.

Lemma entries_cut_short (todo : list path) :
  forall i (su sc : St),
    cut_short m before su sc ->
    prefix_c = prefix_u \/ m <= entries sc ->
    match for_enumerate todo i
            (draw_entry E Pu fuel entry_list truncated prefix_u
                        current_depth patterns) su with
    | Ret _ su' =>
        exists sc',
          for_enumerate todo i
            (draw_entry E Pc fuel entry_list truncated prefix_c
                        current_depth patterns) sc
          = Ret tt sc'
          /\ cut_short m before su' sc' /\ entries sc <= entries sc'
    | Exc _ => True
    | Fuel => True
    end.
Proof.
  induction todo as [|entry rest IHrest]; intros i su sc Hcut Hprefix.
  - cbn. exists sc. split; [reflexivity|]. split; [exact Hcut|lia].
  - rewrite !for_enumerate_cons, (draw_entry_run E Pu). cbv zeta.
    rewrite cap_never_u.
    set (is_last := (i =? Z.of_nat (length entry_list) - 1)
                    && (truncated =? 0)).
    destruct (entry_line E Pu prefix_u (if is_last then LAST E else BRANCH E)
                         entry) as [line|e] eqn:Hline; [|exact Logic.I].
    set (su1 := incr_entries (set_out (out su ++ [line])%list su)).
    assert (Hnext :
              exists sc1 prefix_c',
                draw_entry E Pc fuel entry_list truncated prefix_c
                           current_depth patterns i entry sc
                = when (is_dir E entry)
                       (draw_rec E Pc fuel entry prefix_c'
                                 (current_depth + 1) patterns) sc1
                /\ cut_short m before su1 sc1
                /\ entries sc <= entries sc1
                /\ (prefix_c'
                    = prefix_u ++ (if is_last then SPACE E else VERT E)
                    \/ m <= entries sc1)).
    { rewrite draw_entry_run. cbv zeta. fold is_last.
      destruct (cap_reached Pc (entries sc)) eqn:Hcap.
      - eexists. eexists. split; [reflexivity|].
        split; [now apply cut_short_hidden|].
        rewrite cap_reached_c in Hcap. apply Z.leb_le in Hcap.
        cbn [entries incr_entries note_truncation]. unfold LineBuffer in *.
        split; [lia|]. right. lia.
      - destruct Hprefix as [->|Hm].
        2: { rewrite cap_reached_c in Hcap. apply Z.leb_gt in Hcap. lia. }
        change (entry_line E Pc prefix_u
                           (if is_last then LAST E else BRANCH E) entry)
          with (entry_line E Pu prefix_u
                           (if is_last then LAST E else BRANCH E) entry).
        rewrite Hline.
        eexists. eexists. split; [reflexivity|].
        split; [now apply cut_short_shown|].
        cbn [entries incr_entries set_out]. unfold LineBuffer in *.
        split; [lia|]. now left. }
    destruct Hnext as (sc1 & prefix_c' & Hrun & Hcut1 & Hmono1 & Hprefix1).
    unfold LineBuffer in *. rewrite Hrun. clear Hrun.
    destruct (is_dir E entry); cbn [when].
    + pose proof (IH entry (current_depth + 1) patterns Hcut1 Hprefix1)
        as Hsub.
      unfold LineBuffer in *.
      destruct (draw_rec E Pu fuel entry _ (current_depth + 1) patterns su1)
        as [[] su2| |]; [|exact Logic.I|exact Logic.I].
      destruct Hsub as (sc2 & Hdraw & Hcut2 & Hmono2).
      rewrite Hdraw.
      assert (Hprefix2 : prefix_c = prefix_u \/ m <= entries sc2).
      { destruct Hprefix as [Heq|Hm]; [now left|right; lia]. }
      specialize (IHrest (i + 1) su2 sc2 Hcut2 Hprefix2).
      unfold LineBuffer in *.
      destruct (for_enumerate rest (i + 1) _ su2) as [[] su3| |];
        [|exact Logic.I|exact Logic.I].
      destruct IHrest as (sc3 & Hloop & Hcut3 & Hmono3).
      exists sc3. split; [exact Hloop|]. split; [exact Hcut3|lia].
    + unfold ret at 1. unfold ret at 1.
      assert (Hprefix2 : prefix_c = prefix_u \/ m <= entries sc1).
      { destruct Hprefix as [Heq|Hm]; [now left|right; lia]. }
      specialize (IHrest (i + 1) su1 sc1 Hcut1 Hprefix2).
      unfold LineBuffer in *.
      destruct (for_enumerate rest (i + 1) _ su1) as [[] su3| |];
        [|exact Logic.I|exact Logic.I].
      destruct IHrest as (sc3 & Hloop & Hcut3 & Hmono3).
      exists sc3. split; [exact Hloop|]. split; [exact Hcut3|lia].
Qed.

End Step.

Lemma recs_cut_short (fuel : nat) :
  forall dirpath prefix_u prefix_c current_depth patterns (su sc : St),
    cut_short m before su sc ->
    prefix_c = prefix_u \/ m <= entries sc ->
    match draw_rec E Pu fuel dirpath prefix_u current_depth patterns su with
    | Ret _ su' =>
        exists sc',
          draw_rec E Pc fuel dirpath prefix_c current_depth patterns sc
          = Ret tt sc'
          /\ cut_short m before su' sc' /\ entries sc <= entries sc'
    | Exc _ => True
    | Fuel => True
    end.
Proof.
  induction fuel as [|fuel IH];
    intros dirpath prefix_u prefix_c current_depth patterns su sc Hcut Hprefix.
  - exact Logic.I.
  - destruct (depth_reached Pu current_depth) eqn:Hdepth.
    { rewrite !draw_rec_step.
      change (depth_reached Pc current_depth)
        with (depth_reached Pu current_depth).
      rewrite Hdepth. exists sc. split; [reflexivity|].
      split; [exact Hcut|count_lia]. }
    destruct (extend_patterns E Pu dirpath patterns) as [extended|e] eqn:Hext.
    2: { rewrite draw_rec_step, Hdepth, Hext. exact Logic.I. }
    destruct (list_entries E dirpath extended (list_args_draw Pu))
      as [entry_list truncated] eqn:Hle.
    rewrite (@draw_rec_enter E Pu fuel dirpath prefix_u current_depth
               patterns extended entry_list truncated su Hdepth Hext Hle).
    rewrite (@draw_rec_enter E Pc fuel dirpath prefix_c current_depth
               patterns extended entry_list truncated sc Hdepth Hext Hle).
    change (whitelist_filter E Pc entry_list)
      with (whitelist_filter E Pu entry_list).
    change (include_spec_check E Pc) with (include_spec_check E Pu).
    destruct (from_lines E extended) as [[]|e]; [|exact Logic.I].
    destruct (include_spec_check E Pu) as [[]|e]; [|exact Logic.I].
    destruct (cut_short_enter dirpath extended entry_list Hcut)
      as [Hcut0 Hentries0].
    assert (Hprefix0 :
              prefix_c = prefix_u
              \/ m <= entries (enter_directory E Pc dirpath extended
                                               entry_list sc)).
    { unfold LineBuffer in *. rewrite Hentries0. exact Hprefix. }
    pose proof (@entries_cut_short fuel IH (whitelist_filter E Pu entry_list)
                  truncated prefix_u prefix_c current_depth extended
                  (whitelist_filter E Pu entry_list) 0 _ _ Hcut0 Hprefix0)
      as Hloop.
    unfold LineBuffer in *.
    match type of Hloop with
    | match ?run with _ => _ end =>
        destruct run as [[] su2| |]; [|exact Logic.I|exact Logic.I]
    end.
    destruct Hloop as (sc2 & Hdraw & Hcut2 & Hmono2).
    unfold LineBuffer in *. rewrite Hentries0 in Hmono2.
    rewrite Hdraw, !more_items_step_run, cap_never_u.
    eexists. split; [reflexivity|].
    destruct (0 <? truncated); [|split; [exact Hcut2|count_lia]].
    match goal with
    | |- context [if ?c then incr_entries (note_truncation _ _) else _] =>
        destruct c eqn:Hcap
    end.
    + split; [now apply cut_short_hidden|].
      cbn [entries incr_entries note_truncation]. count_lia.
    + destruct Hprefix as [->|Hm].
      2: { rewrite cap_reached_c in Hcap. apply Z.leb_gt in Hcap. count_lia. }
      split; [now apply cut_short_shown|].
      cbn [entries incr_entries set_out]. count_lia.
Qed.

End Capped.

Lemma draw_tree_walk (E : Env) (P : Params) (fuel : nat) (ob : LineBuffer) :
  draw_tree E P fuel ob
  = match when (is_dir E []) (draw_rec E P fuel [] "" 0 [])
               (draw_start E ob) with
    | Ret _ st => draw_finish E P st
    | Exc e => Exc e
    | Fuel => Fuel
    end.
Proof. reflexivity. Qed.

Lemma draw_finish_run (E : Env) (P : Params) (st : DrawState LineBuffer) :
  draw_finish E P st
  = match truncation_prefix st with
    | Some tp =>
        match max_entries P with
        | Some m =>
            Ret tt (set_out (out (warned P st)
                             ++ [more_entries_line E tp (entries st - m)])%list
                            (warned P st))
        | None => Exc (TypeError "unsupported operand type(s) for -")
        end
    | None => Ret tt (warned P st)
    end.
Proof.
  unfold draw_finish. unfold bind at 1. unfold get at 1.
  rewrite !bind_when_modify. fold (warned P st).
  destruct (truncation_prefix st); [|reflexivity].
  destruct (max_entries P); reflexivity.
Qed.

Lemma warned_same (P : Params) (st : DrawState LineBuffer) :
  out (warned P st) = out st
  /\ entries (warned P st) = entries st
  /\ truncation_prefix (warned P st) = truncation_prefix st.
Proof.
  unfold warned. cbv zeta.
  destruct (nonempty (include_patterns P)
            && negb (files_matched_include_patterns st));
    destruct (nonempty (include_file_types P)
              && negb (files_matched_include_types st));
    repeat split.
Qed.

Lemma counted_start (E : Env) (P : Params) (ob : LineBuffer) :
  counted P (Z.of_nat (length ob)) (draw_start E ob).
Proof.
  unfold counted, draw_start. cbn [entries truncation_prefix out set_out
                                    draw_init].
  split; [lia|]. rewrite length_app. cbn [length].
  split; [lia|]. intros m _. lia.
Qed.

Lemma walk_counted (E : Env) (P : Params) (fuel : nat) (ob : LineBuffer)
  (st : DrawState LineBuffer) :
  when (is_dir E []) (draw_rec E P fuel [] "" 0 []) (draw_start E ob)
  = Ret tt st ->
  counted P (Z.of_nat (length ob)) st.
Proof.
  intros Hwalk.
  assert (Hrec : hoare (counted P (Z.of_nat (length ob)))
                   (when (is_dir E []) (draw_rec E P fuel [] "" 0 []))
                   (fun _ => counted P (Z.of_nat (length ob)))).
  { apply hoare_when. intros _. apply draw_rec_counted. }
  specialize (Hrec (draw_start E ob) (counted_start E P ob)).
  unfold LineBuffer in *. now rewrite Hwalk in Hrec.
Qed.

(** Extra X22.  The cap only cuts the rendering.  When [draw_tree]
    without [max_entries] returns, so does [draw_tree] with
    [max_entries = m] and the same other arguments, and it has counted the
    same entries, one for every line of the full rendering.  If the full
    rendering has at most [max m 1] lines, the capped rendering is the
    same; otherwise it is the first [max m 1] lines of the full rendering
    followed by the aggregate line, which reports the number of lines of
    the full rendering minus [m]. *)
Theorem cap_only_cuts_the_rendering (E : Env) (P : Params) (m : Z)
  (fuel : nat) (ob : LineBuffer) (su : DrawState LineBuffer) :
  draw_tree E (with_max_entries None P) fuel ob = Ret tt su ->
  exists sc,
    draw_tree E (with_max_entries (Some m) P) fuel ob = Ret tt sc
    /\ entries sc = entries su
    /\ Z.of_nat (length (out su)) = Z.of_nat (length ob) + entries su
    /\ match truncation_prefix sc with
       | None => out sc = out su /\ entries su <= Z.max m 1
       | Some tp =>
           out sc
           = (firstn (Z.to_nat (Z.of_nat (length ob) + Z.max m 1)) (out su)
              ++ [more_entries_line E tp (entries su - m)])%list
           /\ Z.max m 1 < entries su
       end.
Proof.
  intros Hfull. rewrite draw_tree_walk in Hfull.
  set (before := Z.of_nat (length ob)).
  destruct (when (is_dir E []) (draw_rec E (with_max_entries None P) fuel
                                         [] "" 0 []) (draw_start E ob))
    as [[] su2| |] eqn:Hwalk_u; [|discriminate|discriminate].
  pose proof (walk_counted _ _ _ _ Hwalk_u) as Hcounted_u.
  assert (Htp_u : truncation_prefix su2 = None).
  { destruct Hcounted_u as [_ H].
    destruct (truncation_prefix su2); [|reflexivity].
    destruct H as (m' & Hm' & _). discriminate Hm'. }
  rewrite draw_finish_run, Htp_u in Hfull. injection Hfull as <-.
  destruct (warned_same (with_max_entries None P) su2)
    as (Hout_u & Hentries_u & _).
  assert (Hsim : exists sc2,
             when (is_dir E []) (draw_rec E (with_max_entries (Some m) P) fuel
                                          [] "" 0 []) (draw_start E ob)
             = Ret tt sc2
             /\ cut_short m before su2 sc2).
  { assert (Hstart : cut_short m before (draw_start E ob) (draw_start E ob)).
    { unfold cut_short, draw_start, before.
      cbn [entries out set_out draw_init].
      split; [reflexivity|]. rewrite length_app. cbn [length].
      split; [lia|]. split; [lia|]. split; [lia|].
      symmetry. apply firstn_all2. rewrite length_app. cbn [length]. lia. }
    destruct (is_dir E []); cbn [when] in *.
    - pose proof (@recs_cut_short E P m before fuel [] "" "" 0 []
                    (draw_start E ob) (draw_start E ob) Hstart
                    (or_introl eq_refl)) as H.
      unfold LineBuffer in *. rewrite Hwalk_u in H.
      destruct H as (sc2 & Hdraw & Hcut & _). now exists sc2.
    - unfold ret in Hwalk_u. injection Hwalk_u as <-.
      exists (draw_start E ob). now split. }
  destruct Hsim as (sc2 & Hwalk_c & He & Hlen & Hone & Hb & Hout_c).
  pose proof (walk_counted _ _ _ _ Hwalk_c) as [_ Hcounted_c].
  fold before in Hcounted_c.
  destruct (warned_same (with_max_entries (Some m) P) sc2)
    as (Hout_w & Hentries_w & Htp_w).
  rewrite draw_tree_walk. unfold LineBuffer in *.
  rewrite Hwalk_c, draw_finish_run. unfold LineBuffer in *.
  destruct (truncation_prefix sc2) as [tp|] eqn:Htp_c.
  - destruct Hcounted_c as (m' & Hm' & Hlen_c & Hlt).
    injection Hm' as <-.
    cbn [max_entries with_max_entries].
    eexists. split; [reflexivity|].
    cbn [entries out truncation_prefix set_out].
    rewrite Hentries_w, Htp_w, Hout_w, Hout_u, Hentries_u.
    split; [exact He|]. split; [exact Hlen|].
    split; [now rewrite Hout_c, He|]. lia.
  - destruct Hcounted_c as [Hlen_c Hle].
    specialize (Hle m eq_refl).
    exists (warned (with_max_entries (Some m) P) sc2).
    split; [reflexivity|].
    rewrite Hentries_w, Htp_w, Hout_w, Hout_u, Hentries_u.
    split; [exact He|]. split; [exact Hlen|].
    split; [|lia].
    rewrite Hout_c. apply firstn_all2. lia.
Qed.

Lemma cap_only_cuts_the_rendering_witness :
  exists sc,
    draw_tree two_dirs_env (with_max_entries (Some 3) default_params) 3
              ([] : LineBuffer) = Ret tt sc
    /\ entries sc = 5
    /\ Z.of_nat (length ["p"; "|-- a/"; "|   `-- x"; "`-- b/"; "    `-- y"])
       = Z.of_nat (length ([] : LineBuffer)) + 5
    /\ match truncation_prefix sc with
       | None =>
           out sc = ["p"; "|-- a/"; "|   `-- x"; "`-- b/"; "    `-- y"]
           /\ 5 <= Z.max 3 1
       | Some tp =>
           out sc
           = (firstn (Z.to_nat (Z.of_nat (length ([] : LineBuffer))
                                + Z.max 3 1))
                     ["p"; "|-- a/"; "|   `-- x"; "`-- b/"; "    `-- y"]
              ++ [more_entries_line two_dirs_env tp (5 - 3)])%list
           /\ Z.max 3 1 < 5
       end.
Proof.
  apply (@cap_only_cuts_the_rendering two_dirs_env default_params 3 3 []
           {| out := ["p"; "|-- a/"; "|   `-- x"; "`-- b/"; "    `-- y"];
              stderr := [];
              entries := 5;
              truncation_prefix := None;
              files_matched_include_patterns := false;
              files_matched_include_types := false;
              listed := [([], []); (["a"], []); (["b"], [])] |}).
  vm_compute. reflexivity.
Defined.
